(** * InvoiceParser: table extraction, row reconciliation and validation

    Shallow embedding of the Python sources under
    [src/python-parser/src]:
    - [utils/helpers.py]                    parse_italian_decimal,
                                            clean_string_field,
                                            format_address_lines
    - [extractors/coordinate_table_extractor.py]  _merge_paired_rows,
                                            _find_table_boundaries,
                                            _parse_product_code_and_description
    - [extractors/table_extractor.py]       _map_table_columns,
                                            _extract_products_from_table,
                                            _associate_products_with_deliveries,
                                            _parse_numeric_field,
                                            _clean_unit_of_measure,
                                            _extract_remaining_content_as_description
    - [validators/ocr_validator.py]         validate_page_data and its helpers,
                                            _generate_corrections,
                                            _attempt_product_correction
    - [extractors/response_compiler.py]     compile_final_result,
                                            _compile_delivery_data,
                                            _compile_products,
                                            _perform_final_validations,
                                            _generate_final_message

    Python [str] values are modelled as [list ascii]: ASCII text, a
    non-ASCII character being a run of UTF-8 bytes.  The character classes
    ([str.isspace], [str.isalnum], [\d], [\w], [str.lower]) are those of
    ASCII, except the Latin-1 lower-casing of table headers.  Python
    [Decimal] values are modelled by [dec] (coefficient and exponent, plus
    Infinity and NaN) with the rounding and overflow of the default
    context.  Python [float] values are the primitive binary64 floats. *)

From Stdlib Require Import Bool Arith ZArith QArith Qabs Qround Qpower Lia List.
From Stdlib Require Import Ascii String Permutation DecimalString.
From Stdlib Require Import PrimFloat.
From Stdlib Require FloatOps FloatAxioms SpecFloat Uint63Axioms.
From Stdlib Require DecimalN DecimalNat DecimalPos.
Import ListNotations.

Open Scope nat_scope.
Open Scope list_scope.

(* Python's float literals 0.6, 0.4, 0.2 and 0.8 denote their nearest
   binary64 values, as in Rocq. *)
Set Warnings "-inexact-float".

(* ================================================================== *)
(** ** Python results: a value or a raised exception *)

Inductive pyerr : Type :=
| InvalidOperation   (* decimal.InvalidOperation *)
| Overflow           (* decimal.Overflow *)
| IndexError
| TypeError
| AttributeError.

Inductive res (A : Type) : Type :=
| Ok (a : A)
| Err (e : pyerr).
Arguments Ok {A} a.
Arguments Err {A} e.

Definition res_bind {A B} (m : res A) (k : A -> res B) : res B :=
  match m with
  | Ok a => k a
  | Err e => Err e
  end.

Notation "'let*' x ':=' m 'in' k" := (res_bind m (fun x => k))
  (at level 200, x name, m at level 100, k at level 200).

(* ================================================================== *)
(** ** Python string primitives on [list ascii] *)

Module PyStr.

Definition lit (s : string) : list ascii := list_ascii_of_string s.

Definition code (c : ascii) : nat := nat_of_ascii c.

(** [str.isspace] on ASCII: \t \n \v \f \r, the separators 0x1c-0x1f,
    and the space. *)
Definition is_space (c : ascii) : bool :=
  let n := code c in
  ((9 <=? n) && (n <=? 13)) || ((28 <=? n) && (n <=? 32)).

Definition is_digit (c : ascii) : bool :=
  let n := code c in (48 <=? n) && (n <=? 57).

Definition is_upper (c : ascii) : bool :=
  let n := code c in (65 <=? n) && (n <=? 90).

Definition is_lower (c : ascii) : bool :=
  let n := code c in (97 <=? n) && (n <=? 122).

(** [str.isalnum] on ASCII *)
Definition is_alnum (c : ascii) : bool :=
  is_digit c || is_upper c || is_lower c.

(** [str.lower] on ASCII *)
Definition lower_char (c : ascii) : ascii :=
  if is_upper c then ascii_of_nat (code c + 32) else c.

Definition lower (s : list ascii) : list ascii := map lower_char s.

Fixpoint lstrip (s : list ascii) : list ascii :=
  match s with
  | c :: r => if is_space c then lstrip r else s
  | [] => []
  end.

Definition rstrip (s : list ascii) : list ascii := rev (lstrip (rev s)).

(** [str.strip()] *)
Definition strip (s : list ascii) : list ascii := rstrip (lstrip s).

(** [c in s] for a one-character string [c] *)
Definition has_char (c : ascii) (s : list ascii) : bool :=
  existsb (fun d => Ascii.eqb d c) s.

Fixpoint count_char (c : ascii) (s : list ascii) : nat :=
  match s with
  | [] => 0
  | d :: r => (if Ascii.eqb d c then 1 else 0) + count_char c r
  end.

(** [s.replace(a, b)] for one-character [a]; [b] of any length *)
Fixpoint replace_char (a : ascii) (b : list ascii) (s : list ascii)
  : list ascii :=
  match s with
  | [] => []
  | d :: r => (if Ascii.eqb d a then b else [d]) ++ replace_char a b r
  end.

Fixpoint prefix (p s : list ascii) : bool :=
  match p, s with
  | [], _ => true
  | c :: p', d :: s' => Ascii.eqb c d && prefix p' s'
  | _ :: _, [] => false
  end.

(** [s.find(p)]: index of the first occurrence, or [None] *)
Fixpoint find (p s : list ascii) : option nat :=
  if prefix p s then Some 0
  else match s with
       | [] => None
       | _ :: r => option_map S (find p r)
       end.

(** [p in s] *)
Definition contains (p s : list ascii) : bool :=
  match find p s with Some _ => true | None => false end.

Fixpoint list_eqb (s t : list ascii) : bool :=
  match s, t with
  | [], [] => true
  | c :: s', d :: t' => Ascii.eqb c d && list_eqb s' t'
  | _, _ => false
  end.

(** Longest prefix of digits and the rest *)
Fixpoint span_digits (s : list ascii) : list ascii * list ascii :=
  match s with
  | c :: r =>
      if is_digit c then let (d, t) := span_digits r in (c :: d, t)
      else ([], s)
  | [] => ([], [])
  end.

Definition digit_val (c : ascii) : Z := Z.of_nat (code c - 48).

Definition Z_of_digits (ds : list ascii) : Z :=
  fold_left (fun acc c => 10 * acc + digit_val c)%Z ds 0%Z.

End PyStr.

Import PyStr.

(* ================================================================== *)
(** ** Python [decimal.Decimal] *)

Module Dec.

(** A finite [Decimal] is a signed coefficient and an exponent,
    [m * 10^e]; the sign of a zero is not modelled. *)
Inductive dec : Type :=
| DFin (m : Z) (e : Z)         (* finite value m * 10^e *)
| DInf (neg : bool)            (* Infinity, -Infinity *)
| DNaN (signaling : bool).     (* NaN, sNaN *)

Definition pow10 (e : Z) : Q :=
  if (0 <=? e)%Z then inject_Z (10 ^ e)
  else (1 # Z.to_pos (10 ^ (- e)))%Q.

(** The numeric value of a finite decimal *)
Definition fin_value (m e : Z) : Q := (inject_Z m * pow10 e)%Q.

(** [Decimal.__bool__]: only a finite zero is false *)
Definition truthy (d : dec) : bool :=
  match d with
  | DFin m _ => negb (Z.eqb m 0)
  | _ => true
  end.

Definition neg (d : dec) : dec :=
  match d with
  | DFin m e => DFin (- m) e
  | DInf b => DInf (negb b)
  | DNaN s => DNaN s
  end.

(** The default context: [prec=28], [Emax=999999], [Emin=-999999],
    [ROUND_HALF_EVEN], [clamp=0]; Overflow is trapped. *)
Definition prec : Z := 28.
Definition Emax : Z := 999999.
Definition Emin : Z := -999999.
Definition Etiny : Z := (Emin - prec + 1)%Z.
Definition Etop : Z := (Emax - prec + 1)%Z.

(** Number of decimal digits of [n > 0] *)
Fixpoint ndigits_fuel (fuel : nat) (n : Z) : Z :=
  match fuel with
  | O => 1
  | S f => if (n <? 10)%Z then 1 else (1 + ndigits_fuel f (n / 10))%Z
  end.

Definition ndigits (n : Z) : Z := ndigits_fuel (S (Z.to_nat (Z.log2 n))) n.

(** [n] divided by [10^k], rounded half to even *)
Definition round_div (n k : Z) : Z :=
  let p := (10 ^ k)%Z in
  let q := (n / p)%Z in
  let r := (n mod p)%Z in
  if (p <? 2 * r)%Z || ((2 * r =? p)%Z && Z.odd q) then (q + 1)%Z else q.

(** [Decimal._fix]: round a finite result to the context *)
Definition context_fix (m e : Z) : res dec :=
  if (m =? 0)%Z then Ok (DFin 0 (Z.min (Z.max e Etiny) Emax))
  else
    let a := Z.abs m in
    let exp_min := (ndigits a + e - prec)%Z in
    if (Etop <? exp_min)%Z then Err Overflow
    else
      let exp_min := Z.max exp_min Etiny in
      if (e <? exp_min)%Z then
        let q := round_div a (exp_min - e) in
        let '(q, exp_min) :=
          if (prec <? ndigits q)%Z then ((q / 10)%Z, (exp_min + 1)%Z)
          else (q, exp_min) in
        if (Etop <? exp_min)%Z then Err Overflow
        else Ok (DFin (Z.sgn m * q) exp_min)
      else Ok (DFin m e).

(** Arithmetic with the default context: every signal that would raise
    (InvalidOperation trap) is an [Err InvalidOperation]; a quiet NaN
    operand gives a quiet NaN. *)
Definition nan_case (a b : dec) : option (res dec) :=
  match a, b with
  | DNaN true, _ | _, DNaN true => Some (Err InvalidOperation)
  | DNaN false, _ | _, DNaN false => Some (Ok (DNaN false))
  | _, _ => None
  end.

(** Addition: the exact sum, at the smaller exponent, rounded *)
Definition add (a b : dec) : res dec :=
  match nan_case a b with
  | Some r => r
  | None =>
      match a, b with
      | DFin m1 e1, DFin m2 e2 =>
          let e := Z.min e1 e2 in
          context_fix (m1 * 10 ^ (e1 - e) + m2 * 10 ^ (e2 - e)) e
      | DInf s, DInf t => if Bool.eqb s t then Ok (DInf s) else Err InvalidOperation
      | DInf s, _ => Ok (DInf s)
      | _, DInf t => Ok (DInf t)
      | _, _ => Err InvalidOperation
      end
  end.

Definition sub (a b : dec) : res dec := add a (neg b).

Definition mul (a b : dec) : res dec :=
  match nan_case a b with
  | Some r => r
  | None =>
      match a, b with
      | DFin m1 e1, DFin m2 e2 => context_fix (m1 * m2) (e1 + e2)
      | DInf s, DInf t => Ok (DInf (xorb s t))
      | DInf s, DFin m _ | DFin m _, DInf s =>
          if Z.eqb m 0 then Err InvalidOperation
          else Ok (DInf (xorb s (Z.ltb m 0)))
      | _, _ => Err InvalidOperation
      end
  end.

(** [abs(d)], rounded to the context *)
Definition abs (d : dec) : res dec :=
  match d with
  | DFin m e => context_fix (Z.abs m) e
  | DInf _ => Ok (DInf false)
  | DNaN true => Err InvalidOperation
  | DNaN false => Ok (DNaN false)
  end.

(** Ordering comparisons ([<], [<=], [>], [>=]) signal InvalidOperation
    on any NaN operand. *)
Definition cmp (a b : dec) : res comparison :=
  match a, b with
  | DNaN _, _ | _, DNaN _ => Err InvalidOperation
  | DFin m1 e1, DFin m2 e2 => Ok (Qcompare (fin_value m1 e1) (fin_value m2 e2))
  | DInf s, DInf t =>
      Ok (match s, t with
          | true, false => Lt | false, true => Gt | _, _ => Eq end)
  | DInf s, DFin _ _ => Ok (if s then Lt else Gt)
  | DFin _ _, DInf t => Ok (if t then Gt else Lt)
  end.

Definition gt (a b : dec) : res bool :=
  let* c := cmp a b in Ok (match c with Gt => true | _ => false end).
Definition ge (a b : dec) : res bool :=
  let* c := cmp a b in Ok (match c with Lt => false | _ => true end).
Definition le (a b : dec) : res bool :=
  let* c := cmp a b in Ok (match c with Gt => false | _ => true end).

(** builtin [max(a, b)]: [b] replaces [a] only when [b > a] *)
Definition max (a b : dec) : res dec :=
  let* g := gt b a in Ok (if g then b else a).

(** The string grammar of the [Decimal] constructor (mpdecimal):
    [sign] (digits [. [digits]] | . digits) [(e|E) [sign] digits]
    | [sign] (inf | infinity) | [sign] [s]nan [digits],
    the special names case-insensitive. *)
Definition split_sign (s : list ascii) : bool * list ascii :=
  match s with
  | c :: r =>
      if Ascii.eqb c "+"%char then (false, r)
      else if Ascii.eqb c "-"%char then (true, r)
      else (false, s)
  | [] => (false, [])
  end.

Definition all_digits (s : list ascii) : bool := forallb is_digit s.

Definition parse_exponent (s : list ascii) : option Z :=
  match s with
  | [] => Some 0%Z
  | c :: r =>
      if Ascii.eqb c "e"%char || Ascii.eqb c "E"%char then
        let (eneg, ds) := split_sign r in
        match ds with
        | [] => None
        | _ => if all_digits ds then
                 Some (if eneg then (- Z_of_digits ds)%Z else Z_of_digits ds)
               else None
        end
      else None
  end.

Definition parse_finite (neg : bool) (s : list ascii) : option dec :=
  let (ip, r1) := span_digits s in
  let '(fp, r3) :=
    match r1 with
    | c :: r2 => if Ascii.eqb c "."%char then span_digits r2 else ([], r1)
    | [] => ([], [])
    end in
  match ip ++ fp with
  | [] => None
  | ds =>
      match parse_exponent r3 with
      | None => None
      | Some e =>
          let m := Z_of_digits ds in
          Some (DFin (if neg then - m else m)%Z (e - Z.of_nat (List.length fp)))
      end
  end.

Definition parse_special (neg : bool) (s : list ascii) : option dec :=
  let l := lower s in
  if list_eqb l (lit "inf") || list_eqb l (lit "infinity") then Some (DInf neg)
  else if prefix (lit "nan") l && all_digits (skipn 3 l) then Some (DNaN false)
  else if prefix (lit "snan") l && all_digits (skipn 4 l) then Some (DNaN true)
  else None.

(** [Decimal(s)] for a string [s]: underscores are ignored, surrounding
    whitespace stripped; a syntax error raises InvalidOperation
    (ConversionSyntax). *)
Definition of_string (s : list ascii) : res dec :=
  let t := strip (filter (fun c => negb (Ascii.eqb c "_"%char)) s) in
  let (neg, body) := split_sign t in
  match parse_special neg body with
  | Some d => Ok d
  | None =>
      match parse_finite neg body with
      | Some d => Ok d
      | None => Err InvalidOperation
      end
  end.

(** Decimal digits of a natural number *)
Definition digits_N (n : N) : list ascii :=
  list_ascii_of_string (NilEmpty.string_of_uint (N.to_uint n)).

(** [str(d)]: the to-scientific-string conversion *)
Definition to_string (d : dec) : list ascii :=
  match d with
  | DInf false => lit "Infinity"
  | DInf true => lit "-Infinity"
  | DNaN false => lit "NaN"
  | DNaN true => lit "sNaN"
  | DFin m e =>
      let sign := if (m <? 0)%Z then lit "-" else [] in
      let c := digits_N (Z.abs_N m) in
      let L := Z.of_nat (List.length c) in
      let adjusted := (e + L - 1)%Z in
      sign ++
      (if (e <=? 0)%Z && (-6 <=? adjusted)%Z then
         if (e =? 0)%Z then c
         else
           let k := Z.to_nat (- e) in
           if Nat.ltb k (List.length c) then
             firstn (List.length c - k) c ++ "."%char :: skipn (List.length c - k) c
           else lit "0." ++ repeat "0"%char (k - List.length c) ++ c
       else
         firstn 1 c
         ++ (match skipn 1 c with [] => [] | t => "."%char :: t end)
         ++ "E"%char :: (if (0 <=? adjusted)%Z then "+"%char else "-"%char)
         :: digits_N (Z.abs_N adjusted))
  end.

End Dec.

Import Dec.

(* ================================================================== *)
(** ** [utils/helpers.py]: parse_italian_decimal *)

Module Helpers.

(** The argument of [parse_italian_decimal]: [Union[str, int, float,
    Decimal, None]], or any other object.  A float carries the text of
    its [str()]. *)
Inductive pyval : Type :=
| VNone
| VStr (s : list ascii)
| VInt (z : Z)
| VFloat (repr : list ascii)
| VDec (d : dec)
| VOther.

(** The fallback regex [([-+]?\d*[.,]?\d+)] anchored at the head of [s],
    with Python's greedy backtracking: [\d*] takes the longest digit run;
    [[.,]?] then takes a separator when a digit follows it (so that [\d+]
    can match), otherwise [\d*] gives its last digit back to [\d+]. *)
Definition is_sep (c : ascii) : bool :=
  Ascii.eqb c "."%char || Ascii.eqb c ","%char.

Definition is_sign (c : ascii) : bool :=
  Ascii.eqb c "-"%char || Ascii.eqb c "+"%char.

Definition match_body (s : list ascii) : option (list ascii) :=
  let (d1, r1) := span_digits s in
  match r1 with
  | sep :: r2 =>
      if is_sep sep then
        match span_digits r2 with
        | ([], _) => match d1 with [] => None | _ => Some d1 end
        | (d2, _) => Some (d1 ++ sep :: d2)
        end
      else match d1 with [] => None | _ => Some d1 end
  | [] => match d1 with [] => None | _ => Some d1 end
  end.

Definition match_at (s : list ascii) : option (list ascii) :=
  match s with
  | c :: r =>
      if is_sign c then
        match match_body r with
        | Some m => Some (c :: m)
        | None => match_body s
        end
      else match_body s
  | [] => match_body s
  end.

(** [re.search]: the leftmost starting position with a match *)
Fixpoint re_search_number (s : list ascii) : option (list ascii) :=
  match match_at s with
  | Some m => Some m
  | None =>
      match s with
      | [] => None
      | _ :: r => re_search_number r
      end
  end.

(** index of the first [c] in [s] (its length when absent) *)
Fixpoint length_before (c : ascii) (s : list ascii) : nat :=
  match s with
  | [] => 0
  | d :: r => if Ascii.eqb d c then 0 else S (length_before c r)
  end.

(** The standardisation of lines 37-53 *)
Definition standardize (cleaned : list ascii) : list ascii :=
  if has_char ","%char cleaned && has_char "."%char cleaned then
    if Nat.eqb (count_char ","%char cleaned) 1 then
      (* parts = cleaned.split(','), len(parts) == 2 *)
      let integer_part :=
        replace_char "."%char [] (firstn (length_before "," cleaned) cleaned) in
      let decimal_part := skipn (S (length_before "," cleaned)) cleaned in
      integer_part ++ "."%char :: decimal_part
    else replace_char ","%char (lit ".") (replace_char "."%char [] cleaned)
  else if has_char ","%char cleaned then replace_char ","%char (lit ".") cleaned
  else cleaned.

(** [parse_italian_decimal(text_value)]; the [try]/[except
    InvalidOperation] blocks of lines 29-76 turn a raised
    InvalidOperation of the inner [Decimal(...)] calls into the fallback
    and into [None]. *)
Definition parse_italian_decimal (v : pyval) : res (option dec) :=
  match v with
  | VNone => Ok None
  | VDec d => Ok (Some d)
  | VInt z => Ok (Some (DFin z 0))
  | VFloat repr => let* d := Dec.of_string repr in Ok (Some d)
  | VOther => Ok None
  | VStr text_value =>
      let cleaned_value := strip text_value in
      match cleaned_value with
      | [] => Ok None
      | _ =>
          match Dec.of_string (standardize cleaned_value) with
          | Ok result => Ok (Some result)
          | Err InvalidOperation =>
              match re_search_number cleaned_value with
              | Some m =>
                  match Dec.of_string (replace_char ","%char (lit ".") m) with
                  | Ok result => Ok (Some result)
                  | Err InvalidOperation => Ok None
                  | Err e => Err e
                  end
              | None => Ok None
              end
          | Err e => Err e
          end
      end
  end.

(** Shorthand for string arguments *)
Definition parse_str (s : string) : res (option dec) :=
  parse_italian_decimal (VStr (lit s)).

(** An optional result as the next call's argument ([None] or a
    [Decimal]) *)
Definition of_result (r : option dec) : pyval :=
  match r with None => VNone | Some d => VDec d end.

(** Decimal values compared as numbers ([Decimal.__eq__] on finite
    values) *)
Definition dec_num_eq (a b : option dec) : Prop :=
  match a, b with
  | Some (DFin m1 e1), Some (DFin m2 e2) =>
      (fin_value m1 e1 == fin_value m2 e2)%Q
  | None, None => True
  | Some a', Some b' => a' = b'
  | _, _ => False
  end.

End Helpers.

Import Helpers.

(* ================================================================== *)
(** ** [coordinate_table_extractor.py]: _merge_paired_rows *)

Module RowMerge.

(** A raw row dict built in [extract_table_data] (lines 116-131): the
    [row_index] and [raw_data] entries and one entry per mapped column.
    [None] is a key that is absent from the dict ([.get] returns
    [None]/the default). *)
Record raw_row : Type := mk_row {
  row_index : nat;
  raw_data : list (option (list ascii));
  product_code : option (list ascii);
  description : option (list ascii);
  voce_dog : option (list ascii);
  unit_of_measure : option (list ascii);
  quantity : option (list ascii);
  unit_price : option (list ascii);
  total_price : option (list ascii)
}.

(** [row.get(key, '')] *)
Definition get_str (v : option (list ascii)) : list ascii :=
  match v with Some s => s | None => [] end.

(** truthiness of [row.get(key)] *)
Definition truthy (v : option (list ascii)) : bool :=
  match v with Some (_ :: _) => true | _ => false end.

(** [row.get(k, '').strip() and 'MMA' in row.get(k, '')] *)
Definition has_product_code (r : raw_row) : bool :=
  match strip (get_str (product_code r)) with
  | [] => false
  | _ => contains (lit "MMA") (get_str (product_code r))
  end.

(** [if not cur.get(k) and prev.get(k): cur[k] = prev[k]] *)
Definition pull (cur prev : option (list ascii)) : option (list ascii) :=
  if negb (truthy cur) && truthy prev then prev else cur.

(** Lines 266-275: fill the empty fields of [cur] from [prev] *)
Definition merge_from_prev (prev cur : raw_row) : raw_row :=
  {| row_index := row_index cur;
     raw_data := raw_data cur;
     product_code := product_code cur;
     description := description cur;
     quantity := pull (quantity cur) (quantity prev);
     unit_price := pull (unit_price cur) (unit_price prev);
     total_price := pull (total_price cur) (total_price prev);
     unit_of_measure := pull (unit_of_measure cur) (unit_of_measure prev);
     voce_dog := pull (voce_dog cur) (voce_dog prev) |}.

(** Line 293: [any(row.get(f, '').strip() for f in numeric fields)] *)
Definition has_numeric_value (r : raw_row) : bool :=
  existsb (fun v => match strip (get_str v) with [] => false | _ => true end)
    [quantity r; unit_price r; total_price r].

(** One iteration of the [while i < len(raw_rows)] loop: the rows
    appended to [merged_rows] at index [i]. *)
Definition merge_step (raw_rows : list raw_row) (i : nat) : list raw_row :=
  match nth_error raw_rows i with
  | None => []
  | Some current_row =>
      if has_product_code current_row then
        match i with
        | 0 => [current_row]
        | S j =>
            match nth_error raw_rows j with
            | Some prev_row => [merge_from_prev prev_row current_row]
            | None => [current_row]
            end
        end
      else
        match nth_error raw_rows (S i) with
        | Some next_row =>
            if has_product_code next_row then [] else [current_row]
        | None =>
            if has_numeric_value current_row then [current_row] else []
        end
  end.

(** [_merge_paired_rows(raw_rows)]: the loop runs [i] over
    [0 .. len(raw_rows) - 1], appending each iteration's rows. *)
Definition merge_paired_rows (raw_rows : list raw_row) : list raw_row :=
  flat_map (merge_step raw_rows) (seq 0 (List.length raw_rows)).

End RowMerge.

(* ================================================================== *)
(** ** [models/invoice_models.py] *)

Module Models.

(** [ProductData] *)
Record product : Type := mk_product {
  p_product_code : option (list ascii);
  p_description : option (list ascii);
  p_customs_code : option (list ascii);
  p_unit_of_measure : option (list ascii);
  p_quantity : option (list ascii);
  p_unit_price : option (list ascii);
  p_total_price : option (list ascii)
}.

(** The descriptive fields of [DeliveryData] *)
Record delivery_info : Type := mk_info {
  ddt_date : option (list ascii);
  ddt_reason : option (list ascii);
  model_number : option (list ascii);
  model_name : option (list ascii);
  order_series : option (list ascii);
  order_number : option (list ascii);
  product_name : option (list ascii);
  product_properties : option (list ascii)
}.

Definition empty_info : delivery_info :=
  mk_info None None None None None None None None.

(** [DeliveryData] *)
Record delivery : Type := mk_delivery {
  ddt_series : option (list ascii);
  ddt_number : option (list ascii);
  d_info : delivery_info;
  d_products : list product
}.

(** [ProcessingConfig] (the fields the modelled code reads) *)
Record config : Type := mk_config {
  enable_ocr_validation : bool;
  ocr_confidence_threshold : float;
  validate_checksums : bool
}.

(** [PageData] *)
Record page : Type := mk_page {
  page_number : nat;
  raw_text : list ascii;
  pg_products : list product;
  delivery_info_field : option delivery;
  all_deliveries : list delivery;
  pg_errors : list (list ascii)
}.

(** [BillData] (the fields the modelled code reads or writes) *)
Record bill : Type := mk_bill {
  bill_number : option (list ascii);
  total_amount : option (list ascii);
  shipping_term : option (list ascii);
  package_count : option Z;
  net_weight_kg : option (list ascii);
  gross_weight_kg : option (list ascii)
}.

End Models.

Import Models.

(* ================================================================== *)
(** ** [validators/ocr_validator.py]: OCRValidator *)

Module Validator.

(** The validation error strings, by the f-string that builds each *)
Inductive verr : Type :=
| ErrInvalidNumeric (i : nat)
| ErrMissingPricing (i : nat)
| ErrCannotParse (i : nat)
| ErrMismatch (i : nat) (calculated total difference : dec)
| ErrCalc (i : nat)
| ErrNoRawText
| ErrCodeNotFound (i : nat) (code : list ascii).

Definition nat_str (n : nat) : list ascii := digits_N (N.of_nat n).

Definition product_tag (i : nat) : list ascii := lit "Product " ++ nat_str (S i).

(** The rendered message; [str(e)] of a raised InvalidOperation is
    ["[<class 'decimal.InvalidOperation'>]"]. *)
Definition render (e : verr) : list ascii :=
  match e with
  | ErrInvalidNumeric i => product_tag i ++ lit ": Invalid numeric fields"
  | ErrMissingPricing i => product_tag i ++ lit ": Missing critical pricing fields"
  | ErrCannotParse i =>
      product_tag i ++ lit ": Cannot parse pricing fields for calculation"
  | ErrMismatch i c t d =>
      product_tag i ++ lit ": Price calculation mismatch. Expected: " ++ to_string c
        ++ lit ", Found: " ++ to_string t ++ lit ", Difference: " ++ to_string d
  | ErrCalc i =>
      product_tag i ++ lit ": Error validating price calculation: "
        ++ lit "[<class 'decimal.InvalidOperation'>]"
  | ErrNoRawText => lit "No raw text available for cross-referencing"
  | ErrCodeNotFound i code =>
      product_tag i ++ lit ": Code '" ++ code ++ lit "' not found in raw text"
  end.

(** [ValidationResult] *)
Record corrections : Type := mk_corrections {
  corrected_products : list product;
  correction_notes : list (list ascii)
}.

Record validation_result : Type := mk_vr {
  vr_page_number : nat;
  is_valid : bool;
  confidence_score : float;
  validation_errors : list verr;
  corrected_data : option corrections
}.

(** A [str] field passed to [parse_italian_decimal] *)
Definition arg (v : option (list ascii)) : pyval :=
  match v with None => VNone | Some s => VStr s end.

Definition str_truthy (v : option (list ascii)) : bool :=
  match v with Some (_ :: _) => true | _ => false end.

(** [_validate_numeric_field]: the [except Exception] turns a raised
    comparison (NaN) into [False]. *)
Definition validate_numeric_field (field_value : option (list ascii)) : bool :=
  if negb (str_truthy field_value) then false
  else
    match parse_italian_decimal (arg field_value) with
    | Ok (Some parsed) =>
        match ge parsed (DFin 0 0) with Ok b => b | Err _ => false end
    | Ok None => false
    | Err _ => false
    end.

Definition opt_truthy (d : option dec) : bool :=
  match d with Some x => Dec.truthy x | None => false end.

(** [_validate_price_calculation]: [None] when the check passes *)
Definition validate_price_calculation (p : product) (i : nat) : option verr :=
  match parse_italian_decimal (arg (p_quantity p)),
        parse_italian_decimal (arg (p_unit_price p)),
        parse_italian_decimal (arg (p_total_price p)) with
  | Ok oq, Ok ou, Ok ot =>
      if negb (opt_truthy oq && opt_truthy ou && opt_truthy ot) then
        Some (ErrCannotParse i)
      else
        match oq, ou, ot with
        | Some quantity, Some unit_price, Some total_price =>
            let r :=
              let* calculated_total := mul quantity unit_price in
              let* d0 := sub calculated_total total_price in
              let* difference := abs d0 in
              let* t1 := mul total_price (DFin 1 (-3)) in
              let* tolerance := Dec.max (DFin 1 (-2)) t1 in
              let* g := gt difference tolerance in
              Ok (if g then Some (ErrMismatch i calculated_total total_price difference)
                  else None) in
            match r with
            | Ok o => o
            | Err _ => Some (ErrCalc i)
            end
        | _, _, _ => Some (ErrCannotParse i)
        end
  | _, _, _ => Some (ErrCalc i)
  end.

(** One product of the loop of [_validate_products_consistency]:
    an error, or [None] when the product counts as valid. *)
Definition check_product (i : nat) (p : product) : option verr :=
  let quantity_valid := validate_numeric_field (p_quantity p) in
  let unit_price_valid := validate_numeric_field (p_unit_price p) in
  let total_price_valid := validate_numeric_field (p_total_price p) in
  if negb (quantity_valid && unit_price_valid && total_price_valid) then
    Some (ErrInvalidNumeric i)
  else if str_truthy (p_quantity p) && str_truthy (p_unit_price p)
          && str_truthy (p_total_price p) then
    validate_price_calculation p i
  else Some (ErrMissingPricing i).

Fixpoint check_products (i : nat) (ps : list product) : list (option verr) :=
  match ps with
  | [] => []
  | p :: r => check_product i p :: check_products (S i) r
  end.

Fixpoint somes {A} (l : list (option A)) : list A :=
  match l with
  | [] => []
  | Some x :: r => x :: somes r
  | None :: r => somes r
  end.

Definition count_none {A} (l : list (option A)) : nat :=
  List.length (filter (fun o => match o with None => true | Some _ => false end) l).

(** [float(n)] for a count [n] (exact below 2^53) *)
Definition float_of_nat (n : nat) : float :=
  of_uint63 (Uint63Axioms.of_Z (Z.of_nat n)).

(** [n / d if d > 0 else 0]: int true division, correctly rounded *)
Definition ratio (n d : nat) : float :=
  if Nat.eqb d 0 then 0%float else (float_of_nat n / float_of_nat d)%float.

(** [_validate_products_consistency]: (errors, consistency_score) *)
Definition validate_products_consistency (products : list product)
  : list verr * float :=
  let checks := check_products 0 products in
  (somes checks, ratio (count_none checks) (List.length products)).

(** [_generate_code_variants] (as a list; only membership is used) *)
Definition generate_code_variants (code : list ascii) : list (list ascii) :=
  let cleaned := filter is_alnum code in
  [code]
  ++ (if list_eqb cleaned code then [] else [cleaned])
  ++ (if has_char "."%char code then [replace_char "."%char (lit " ") code] else [])
  ++ (if has_char " "%char code then [replace_char " "%char (lit ".") code] else []).

(** One product of [_cross_reference_with_text]: [Some true] found,
    [Some false] not found, [None] skipped (no product code). *)
Definition cross_one (raw_text : list ascii) (p : product) : option bool :=
  match p_product_code p with
  | Some ((_ :: _) as code) =>
      if contains code raw_text then Some true
      else Some (existsb (fun v => contains v raw_text) (generate_code_variants code))
  | _ => None
  end.

Fixpoint cross_errors (raw_text : list ascii) (i : nat) (ps : list product)
  : list verr :=
  match ps with
  | [] => []
  | p :: r =>
      match cross_one raw_text p, p_product_code p with
      | Some false, Some code => [ErrCodeNotFound i code]
      | _, _ => []
      end ++ cross_errors raw_text (S i) r
  end.

Definition count_found (raw_text : list ascii) (ps : list product) : nat :=
  List.length (filter (fun p => match cross_one raw_text p with
                                | Some true => true | _ => false end) ps).

(** [_cross_reference_with_text]: (errors, text_match_score) *)
Definition cross_reference_with_text (products : list product)
  (raw_text : list ascii) : list verr * float :=
  match raw_text with
  | [] => ([ErrNoRawText], 0%float)
  | _ => (cross_errors raw_text 0 products,
          ratio (count_found raw_text products) (List.length products))
  end.

(** builtin [min(a, b)] / [max(a, b)]: [b] is returned only when it is
    strictly smaller / greater *)
Definition py_min (a b : float) : float := if (b <? a)%float then b else a.
Definition py_max (a b : float) : float := if (a <? b)%float then b else a.

(** The exact rational value of a finite float *)
Definition float_value (x : float) : option Q :=
  match FloatOps.Prim2SF x with
  | SpecFloat.S754_finite s m e =>
      let n := if s then Zneg m else Zpos m in
      Some (if (0 <=? e)%Z then inject_Z (n * 2 ^ e) else (n # Z.to_pos (2 ^ (- e))))%Q
  | SpecFloat.S754_zero _ => Some 0%Q
  | _ => None
  end.

(** Round half to even to an integer *)
Definition round_half_even (y : Q) : Z :=
  let f := Qfloor y in
  let d := (y - inject_Z f)%Q in
  match Qcompare d (1 # 2) with
  | Lt => f
  | Gt => (f + 1)%Z
  | Eq => if Z.even f then f else (f + 1)%Z
  end.

(** [float(z)] for an integer *)
Definition float_of_Z (z : Z) : float :=
  if (z <? 0)%Z then (- of_uint63 (Uint63Axioms.of_Z (- z)))%float
  else of_uint63 (Uint63Axioms.of_Z z).

(** [round(x, 3)] on a float: the exact value of [x] rounded half to even
    at the third decimal, then the nearest float to that decimal
    ([z / 1000.0] is that float as long as [|z| < 2^53]); a zero result
    keeps the sign of [x], and an infinity or NaN is returned as is. *)
Definition round3 (x : float) : float :=
  match float_value x with
  | Some q =>
      let z := round_half_even (q * 1000)%Q in
      if (z =? 0)%Z then (if get_sign x then (-0)%float else 0%float)
      else (float_of_Z z / 1000)%float
  | None => x
  end.

(** [_calculate_confidence_score] *)
Definition calculate_confidence_score (product_validation text_validation : list verr * float)
  : float :=
  let consistency_score := snd product_validation in
  let text_match_score := snd text_validation in
  let overall_score := (consistency_score * 0.6 + text_match_score * 0.4)%float in
  let error_count :=
    (List.length (fst product_validation) + List.length (fst text_validation))%nat in
  let overall_score :=
    if Nat.ltb 0 error_count then
      let error_penalty := py_min (0.2 * float_of_nat error_count)%float 0.5%float in
      py_max 0%float (overall_score - error_penalty)%float
    else overall_score in
  round3 overall_score.

(** [_attempt_product_correction] *)
Definition attempt_product_correction (p : product) (index : nat) (errors : list verr)
  : product :=
  let relevant :=
    existsb (fun e => contains (product_tag index) (render e)
                      && contains (lit "calculation mismatch") (render e)) errors in
  let corrected_total :=
    if relevant && str_truthy (p_quantity p) && str_truthy (p_unit_price p) then
      match parse_italian_decimal (arg (p_quantity p)),
            parse_italian_decimal (arg (p_unit_price p)) with
      | Ok (Some quantity), Ok (Some unit_price) =>
          if Dec.truthy quantity && Dec.truthy unit_price then
            match mul quantity unit_price with
            | Ok c => Some (to_string c)
            | Err _ => p_total_price p
            end
          else p_total_price p
      | _, _ => p_total_price p
      end
    else p_total_price p in
  {| p_product_code := p_product_code p;
     p_description := p_description p;
     p_customs_code := p_customs_code p;
     p_unit_of_measure := p_unit_of_measure p;
     p_quantity := p_quantity p;
     p_unit_price := p_unit_price p;
     p_total_price := corrected_total |}.

Fixpoint correct_all (i : nat) (ps : list product) (errors : list verr) : list product :=
  match ps with
  | [] => []
  | p :: r => attempt_product_correction p i errors :: correct_all (S i) r errors
  end.

(** [_generate_corrections] *)
Definition generate_corrections (products : list product) (errors : list verr)
  : corrections :=
  {| corrected_products := correct_all 0 products errors;
     correction_notes :=
       (if existsb (fun e => contains (lit "price calculation mismatch")
                                      (lower (render e))) errors
        then [lit "Price calculation mismatches detected. Consider manual review of unit prices and totals."]
        else [])
       ++ (if existsb (fun e => contains (lit "not found in raw text")
                                         (lower (render e))) errors
           then [lit "Some product codes not found in raw text. OCR quality may be poor on this page."]
           else []) |}.

(** [validate_page_data].  None of the helpers lets an exception escape
    (each catches its own), so the [except] branch of lines 57-62 is
    never taken. *)
Definition validate_page_data (cfg : config) (pg : page) : validation_result :=
  if negb (enable_ocr_validation cfg) then
    {| vr_page_number := page_number pg; is_valid := true;
       confidence_score := 0.8%float; validation_errors := [];
       corrected_data := None |}
  else
    let product_validation := validate_products_consistency (pg_products pg) in
    let text_validation := cross_reference_with_text (pg_products pg) (raw_text pg) in
    let errors := fst product_validation ++ fst text_validation in
    let score := calculate_confidence_score product_validation text_validation in
    let valid :=
      (ocr_confidence_threshold cfg <=? score)%float
      && Nat.eqb (List.length errors) 0 in
    {| vr_page_number := page_number pg; is_valid := valid;
       confidence_score := score; validation_errors := errors;
       corrected_data :=
         if valid then None else Some (generate_corrections (pg_products pg) errors) |}.

End Validator.

(* ================================================================== *)
(** ** [extractors/response_compiler.py]: ResponseCompiler *)

Module Compiler.

Import Validator.

(** Entries of [result.parsing_errors] written by the compiler *)
Inductive perr : Type :=
| PChecksumMismatch (stated calculated difference : dec)
| PCouldNotParseTotal
| PNoTotalAmount
| PChecksumError
| PCompileError.

(** The status messages of [_generate_final_message] *)
Inductive message : Type :=
| MsgFailedWithErrors
| MsgCompletedWithWarnings
| MsgChecksumFailed
| MsgPagesFailedOCR (n : nat)
| MsgSuccess
| MsgCompilationFailed.

(** [ExtractionResult] *)
Record extraction_result : Type := mk_result {
  success : bool;
  bill_data : option bill;
  delivery_data : list delivery;
  products : list product;
  page_data : list page;
  validation_results : list validation_result;
  validation_checksum_ok : bool;
  parsing_errors : list perr;
  msg : message
}.

Section Compile.

(** Lines 143-191 of [_merge_cross_page_deliveries]: the descriptive
    fields of the [i]-th incomplete delivery once its completion has been
    attempted.  The attempt reads the source page (found by dataclass
    equality, so it may depend on the completions of the earlier incomplete
    deliveries) and the leading text of the next two pages, and it assigns
    only model number and name, order series and number, product name and
    properties; it is a parameter over the pages, the list of incomplete
    deliveries and the index.  It never writes [ddt_series], [ddt_number]
    or [products]. *)
Variable complete_info : list page -> list delivery -> nat -> delivery_info.

(** Lines 329-413 of [_extract_footer_information]: the regex back-fill
    of bill fields from the text of the last two pages; a parameter, it
    writes only [bill_data] fields. *)
Variable footer_fill : list page -> bill -> bill.

Definition str_truthy := Validator.str_truthy.

(** Lines 71-88: the deliveries a page contributes *)
Definition page_deliveries (pg : page) : list delivery :=
  match all_deliveries pg with
  | [] =>
      match delivery_info_field pg with
      | Some d => [{| ddt_series := ddt_series d; ddt_number := ddt_number d;
                      d_info := d_info d; d_products := pg_products pg |}]
      | None => []
      end
  | ds => ds
  end.

(** Lines 129-137: the incomplete-delivery test *)
Definition is_incomplete (d : delivery) : bool :=
  str_truthy (ddt_series d) && str_truthy (ddt_number d)
  && (negb (str_truthy (model_number (d_info d)))
      || negb (str_truthy (product_name (d_info d)))).

(** The loop of lines 143-191 over [incomplete_deliveries], from index [i] *)
Fixpoint complete_from (page_data_list : list page) (inc : list delivery)
  (i : nat) (ds : list delivery) : list delivery :=
  match ds with
  | [] => []
  | d :: r =>
      {| ddt_series := ddt_series d; ddt_number := ddt_number d;
         d_info := complete_info page_data_list inc i;
         d_products := d_products d |} :: complete_from page_data_list inc (S i) r
  end.

(** [_merge_cross_page_deliveries]: complete deliveries first, in order,
    then each incomplete one after its completion attempt. *)
Definition merge_cross_page_deliveries (deliveries : list delivery)
  (page_data_list : list page) : list delivery :=
  let incomplete_deliveries := filter is_incomplete deliveries in
  filter (fun d => negb (is_incomplete d)) deliveries
  ++ complete_from page_data_list incomplete_deliveries 0 incomplete_deliveries.

(** [f"{x}"] for an optional string *)
Definition fmt_opt (v : option (list ascii)) : list ascii :=
  match v with Some s => s | None => lit "None" end.

(** [ddt_key = f"{delivery.ddt_series}_{delivery.ddt_number}"] *)
Definition ddt_key (d : delivery) : list ascii :=
  fmt_opt (ddt_series d) ++ "_"%char :: fmt_opt (ddt_number d).

(** [existing_delivery.products.extend(delivery.products)] on the first
    delivery of [unique] with key [k] *)
Fixpoint extend_products (k : list ascii) (extra : list product)
  (unique : list delivery) : list delivery :=
  match unique with
  | [] => []
  | u :: r =>
      if list_eqb (ddt_key u) k then
        {| ddt_series := ddt_series u; ddt_number := ddt_number u;
           d_info := d_info u; d_products := d_products u ++ extra |} :: r
      else u :: extend_products k extra r
  end.

(** The deduplication loop of lines 106-117; [unique] is
    [unique_deliveries] (the values of [seen_ddts] are its elements). *)
Fixpoint dedup_deliveries (unique : list delivery) (ds : list delivery)
  : list delivery :=
  match ds with
  | [] => unique
  | d :: r =>
      if existsb (fun u => list_eqb (ddt_key u) (ddt_key d)) unique then
        dedup_deliveries (extend_products (ddt_key d) (d_products d) unique) r
      else dedup_deliveries (unique ++ [d]) r
  end.

(** [_compile_delivery_data] *)
Definition compile_delivery_data (page_data_list : list page) : list delivery :=
  let deliveries := flat_map page_deliveries page_data_list in
  let deliveries :=
    match deliveries with
    | [] => [{| ddt_series := None; ddt_number := None; d_info := empty_info;
                d_products := flat_map pg_products page_data_list |}]
    | _ => deliveries
    end in
  let deliveries := merge_cross_page_deliveries deliveries page_data_list in
  dedup_deliveries [] deliveries.

(** [_compile_products] *)
Fixpoint compile_products_from (i : nat) (page_data_list : list page)
  (validation_results : list validation_result) : list product :=
  match page_data_list with
  | [] => []
  | pg :: r =>
      match nth_error validation_results i with
      | Some v =>
          if negb (is_valid v) then
            match corrected_data v with
            | Some c => corrected_products c
            | None => pg_products pg
            end
          else pg_products pg
      | None => pg_products pg
      end ++ compile_products_from (S i) r validation_results
  end.

Definition compile_products (page_data_list : list page)
  (validation_results : list validation_result) : list product :=
  compile_products_from 0 page_data_list validation_results.

(** The summation loop of lines 292-297 *)
Fixpoint sum_totals (acc : dec) (ps : list product) : res dec :=
  match ps with
  | [] => Ok acc
  | p :: r =>
      if str_truthy (p_total_price p) then
        match parse_italian_decimal (arg (p_total_price p)) with
        | Ok (Some product_total) =>
            if Dec.truthy product_total then
              let* acc' := add acc product_total in sum_totals acc' r
            else sum_totals acc r
        | Ok None => sum_totals acc r
        | Err e => Err e
        end
      else sum_totals acc r
  end.

(** The body of the [try] of [_perform_final_validations]: the new
    [validation_checksum_ok] flag and the appended errors. *)
Definition checksum_body (ps : list product) (bd : option bill) : res (bool * list perr) :=
  let* calculated_total := sum_totals (DFin 0 (-1)) ps in
  match bd with
  | Some b =>
      if str_truthy (total_amount b) then
        let* stated_total := parse_italian_decimal (arg (total_amount b)) in
        if opt_truthy stated_total then
          match stated_total with
          | Some st =>
              let* d0 := sub st calculated_total in
              let* difference := abs d0 in
              let* ok := Dec.le difference (DFin 1 (-2)) in
              Ok (if ok then (true, [])
                  else (false, [PChecksumMismatch st calculated_total difference]))
          | None => Ok (false, [PCouldNotParseTotal])
          end
        else Ok (false, [PCouldNotParseTotal])
      else Ok (false, [PNoTotalAmount])
  | None => Ok (false, [PNoTotalAmount])
  end.

(** [_perform_final_validations(result)] *)
Definition perform_final_validations (cfg : config) (r : extraction_result)
  : extraction_result :=
  if negb (validate_checksums cfg) then r
  else
    let '(ok, errs) :=
      match checksum_body (products r) (bill_data r) with
      | Ok (ok, errs) => (ok || validation_checksum_ok r, errs)
      | Err _ => (validation_checksum_ok r, [PChecksumError])
      end in
    {| success := success r; bill_data := bill_data r;
       delivery_data := delivery_data r; products := products r;
       page_data := page_data r; validation_results := validation_results r;
       validation_checksum_ok := ok;
       parsing_errors := parsing_errors r ++ errs; msg := msg r |}.

(** [_extract_footer_information]: reading [result.bill_data.<field>]
    raises (AttributeError) when there is no bill and a searched page has
    text. *)
Definition pages_to_search (page_data_list : list page) : list page :=
  if Nat.leb 2 (List.length page_data_list)
  then skipn (List.length page_data_list - 2) page_data_list
  else page_data_list.

Definition extract_footer_information (r : extraction_result)
  (page_data_list : list page) : res extraction_result :=
  match bill_data r with
  | Some b =>
      match page_data_list with
      | [] => Ok r
      | _ =>
          Ok {| success := success r; bill_data := Some (footer_fill page_data_list b);
                delivery_data := delivery_data r; products := products r;
                page_data := page_data r; validation_results := validation_results r;
                validation_checksum_ok := validation_checksum_ok r;
                parsing_errors := parsing_errors r; msg := msg r |}
      end
  | None =>
      if existsb (fun pg => match raw_text pg with [] => false | _ => true end)
                 (pages_to_search page_data_list)
      then Err AttributeError else Ok r
  end.

(** [_generate_final_message] *)
Definition generate_final_message (r : extraction_result) : message :=
  if negb (success r) then MsgFailedWithErrors
  else match parsing_errors r with
       | _ :: _ => MsgCompletedWithWarnings
       | [] =>
           if negb (validation_checksum_ok r) then MsgChecksumFailed
           else match filter (fun v => negb (is_valid v)) (validation_results r) with
                | [] => MsgSuccess
                | l => MsgPagesFailedOCR (List.length l)
                end
       end.

(** [compile_final_result] *)
Definition compile_final_result (cfg : config) (bd : option bill)
  (page_data_list : list page) (vrs : list validation_result)
  : extraction_result :=
  let r0 := {| success := true; bill_data := bd;
               delivery_data := compile_delivery_data page_data_list;
               products := compile_products page_data_list vrs;
               page_data := page_data_list; validation_results := vrs;
               validation_checksum_ok := false; parsing_errors := [];
               msg := MsgSuccess |} in
  let r1 := perform_final_validations cfg r0 in
  match extract_footer_information r1 page_data_list with
  | Ok r2 =>
      let r3 := {| success := Nat.eqb (List.length (parsing_errors r2)) 0;
                   bill_data := bill_data r2; delivery_data := delivery_data r2;
                   products := products r2; page_data := page_data r2;
                   validation_results := validation_results r2;
                   validation_checksum_ok := validation_checksum_ok r2;
                   parsing_errors := parsing_errors r2; msg := msg r2 |} in
      {| success := success r3; bill_data := bill_data r3;
         delivery_data := delivery_data r3; products := products r3;
         page_data := page_data r3; validation_results := validation_results r3;
         validation_checksum_ok := validation_checksum_ok r3;
         parsing_errors := parsing_errors r3; msg := generate_final_message r3 |}
  | Err _ =>
      {| success := false; bill_data := bill_data r1;
         delivery_data := delivery_data r1; products := products r1;
         page_data := page_data r1; validation_results := validation_results r1;
         validation_checksum_ok := validation_checksum_ok r1;
         parsing_errors := parsing_errors r1 ++ [PCompileError];
         msg := MsgCompilationFailed |}
  end.

End Compile.

End Compiler.

(* ================================================================== *)
(** ** [extractors/table_extractor.py]: product/delivery association *)

Module Assoc.

Import Compiler.

(** [\w] on ASCII *)
Definition is_word (c : ascii) : bool := is_alnum c || Ascii.eqb c "_"%char.

Definition word_at (text : list ascii) (p : nat) : bool :=
  match nth_error text p with Some c => is_word c | None => false end.

(** [\b] at position [p] *)
Definition boundary (text : list ascii) (p : nat) : bool :=
  let before := match p with 0 => false | S q => word_at text q end in
  xorb before (word_at text p).

(** [\s+] followed by the literal [number], with backtracking over the
    length of the whitespace run *)
Fixpoint ws_then (number s : list ascii) : bool :=
  match s with
  | c :: r => is_space c && (prefix number r || ws_then number r)
  | [] => false
  end.

(** [re.search] over start positions [0 .. len(text)] *)
Definition search (f : nat -> bool) (text : list ascii) : option nat :=
  List.find f (seq 0 (S (List.length text))).

(** The pattern [f"{series}\\s+{number}"], matched at [p].  The pattern is
    built without [re.escape]; the series and number produced by
    [_extract_all_deliveries_from_page] ([A-Z0-9]{8,10} and [\d{3,5}])
    contain no metacharacter, and for such values it is this literal
    match. *)
Definition ddt_match_at (series number text : list ascii) (p : nat) : bool :=
  let s := skipn p text in
  prefix series s && ws_then number (skipn (List.length series) s).

(** The pattern [f"\\b{number}\\b"], matched at [p] *)
Definition number_match_at (number text : list ascii) (p : nat) : bool :=
  boundary text p && prefix number (skipn p text)
  && boundary text (p + List.length number).

(** [_find_delivery_positions_in_text], for one delivery *)
Definition delivery_position (page_text : list ascii) (d : delivery) : nat :=
  let series := fmt_opt (ddt_series d) in
  let number := fmt_opt (ddt_number d) in
  match search (ddt_match_at series number page_text) page_text with
  | Some p => p
  | None =>
      match search (number_match_at number page_text) page_text with
      | Some p => p
      | None => 0
      end
  end.

Definition find_delivery_positions (page_text : list ascii)
  (deliveries : list delivery) : list nat :=
  map (delivery_position page_text) deliveries.

(** [_find_product_positions_in_text], for one product: [re.escape] of a
    [None] code raises [TypeError]. *)
Definition product_position (page_text : list ascii) (p : product) : res nat :=
  match p_product_code p with
  | Some c => Ok (match find c page_text with
                  | Some q => q
                  | None => List.length page_text
                  end)
  | None => Err TypeError
  end.

Fixpoint find_product_positions (page_text : list ascii) (ps : list product)
  : res (list nat) :=
  match ps with
  | [] => Ok []
  | p :: r =>
      let* q := product_position page_text p in
      let* qs := find_product_positions page_text r in
      Ok (q :: qs)
  end.

(** [_find_closest_preceding_delivery], returning the index into
    [deliveries]; [best] is [(best_distance, i)], [None] standing for
    [float('inf')]. *)
Fixpoint closest_from (product_position : nat) (i : nat)
  (best : option (nat * nat)) (delivery_positions : list nat) : option nat :=
  match delivery_positions with
  | [] => option_map snd best
  | dp :: r =>
      if dp <=? product_position then
        let distance := product_position - dp in
        match best with
        | Some (bd, _) =>
            if distance <? bd then closest_from product_position (S i) (Some (distance, i)) r
            else closest_from product_position (S i) best r
        | None => closest_from product_position (S i) (Some (distance, i)) r
        end
      else closest_from product_position (S i) best r
  end.

Definition find_closest_preceding_delivery (product_position : nat)
  (delivery_positions : list nat) : option nat :=
  closest_from product_position 0 None delivery_positions.

(** The delivery a product at position [pos] is appended to *)
Definition target (pos : nat) (delivery_positions : list nat) : nat :=
  match find_closest_preceding_delivery pos delivery_positions with
  | Some i => i
  | None => 0
  end.

Definition with_products (d : delivery) (ps : list product) : delivery :=
  {| ddt_series := ddt_series d; ddt_number := ddt_number d;
     d_info := d_info d; d_products := ps |}.

(** [deliveries[j].products.append(p)] *)
Fixpoint append_at (j : nat) (p : product) (ds : list delivery) : list delivery :=
  match ds, j with
  | [], _ => []
  | d :: r, 0 => with_products d (d_products d ++ [p]) :: r
  | d :: r, S j' => d :: append_at j' p r
  end.

(** [_associate_products_with_deliveries]: the new [all_deliveries] *)
Definition associate_products_with_deliveries (pg : page) : res (list delivery) :=
  match all_deliveries pg, pg_products pg with
  | [], _ | _, [] => Ok (all_deliveries pg)
  | [d], ps => Ok [with_products d ps]
  | ds, ps =>
      let cleared := map (fun d => with_products d []) ds in
      let delivery_positions := find_delivery_positions (raw_text pg) ds in
      let* product_positions := find_product_positions (raw_text pg) ps in
      Ok (fold_left (fun acc '(p, pos) =>
                       append_at (target pos delivery_positions) p acc)
                    (combine ps product_positions) cleared)
  end.

End Assoc.

(* ================================================================== *)
(** ** [extractors/coordinate_table_extractor.py]: table boundaries *)

Module Bounds.

(** A pdfplumber character: its [text], [x0] and [y0] *)
Record pchar : Type := mk_char { ch_text : list ascii; ch_x0 : float; ch_y0 : float }.

Record ppage : Type := mk_ppage { chars : list pchar; width : float }.

(** A marker record [{'y': ..., 'x': ..., 'text': ...}] *)
Record marker : Type := mk_marker { m_y : float; m_x : float; m_text : list ascii }.

Definition start_marker : list ascii := lit "MS5LH0002 3635".
Definition end_marker : list ascii := lit "MS5LH0002 3636".

(** [list.sort(key=...)]: a stable sort; [lt a b] is [key(a) < key(b)] and
    [x] goes after every element whose key is not greater.  When [lt] is a
    strict weak order (keys without NaN) this is the order Timsort
    produces. *)
Section Sort.
Variable A : Type.
Variable lt : A -> A -> bool.

Fixpoint insert (x : A) (l : list A) : list A :=
  match l with
  | [] => [x]
  | y :: r => if lt x y then x :: y :: r else y :: insert x r
  end.

Definition sort (l : list A) : list A := fold_left (fun acc x => insert x acc) l [].
End Sort.

Arguments insert {A} lt x l.
Arguments sort {A} lt l.

(** Key [(c['y0'], c['x0'])] compared as a tuple *)
Definition char_lt (a b : pchar) : bool :=
  (ch_y0 a <? ch_y0 b)%float
  || ((ch_y0 a =? ch_y0 b)%float && (ch_x0 a <? ch_x0 b)%float).

(** [_get_text_near_position] with [radius=50]:
    [((char_x - x) ** 2 + (char_y - y) ** 2) ** 0.5 <= radius], the
    powers being the correctly rounded square and square root. *)
Definition get_text_near_position (pg : ppage) (x y : float) : list ascii :=
  let near := filter (fun c =>
                let dx := (ch_x0 c - x)%float in let dy := (ch_y0 c - y)%float in
                (sqrt (dx * dx + dy * dy) <=? 50)%float) (chars pg) in
  flat_map ch_text (sort char_lt near).

(** The detection loop for one marker *)
Definition detect (pg : ppage) (mk : list ascii) : list marker :=
  flat_map (fun c =>
    if contains (ch_text c) mk then
      let nearby_text := get_text_near_position pg (ch_x0 c) (ch_y0 c) in
      if contains mk nearby_text then [mk_marker (ch_y0 c) (ch_x0 c) nearby_text]
      else []
    else []) (chars pg).

Definition marker_lt (a b : marker) : bool := (m_y a <? m_y b)%float.

(** The returned dictionary [{'x0': 0, 'y0', 'x1': page.width, 'y1'}] *)
Record box : Type := mk_box { bx0 : Z; by0 : float; bx1 : float; by1 : float }.

Definition make_box (w s e : float) : box :=
  mk_box 0 (Validator.py_min s e) w (Validator.py_max s e + 50)%float.

(** Lines 347-387, after detection: sort both lists by [y], take the first
    start marker, the first end marker below it, else the first one
    above it. *)
Definition select (w : float) (start_markers end_markers : list marker) : option box :=
  match sort marker_lt start_markers, sort marker_lt end_markers with
  | first_start :: _, (_ :: _) as ends =>
      let s := m_y first_start in
      match List.find (fun e => (s <? m_y e)%float) ends with
      | Some e => Some (make_box w s (m_y e))
      | None =>
          match List.find (fun e => (m_y e <? s)%float) ends with
          | Some e => Some (make_box w s (m_y e))
          | None => None
          end
      end
  | _, _ => None
  end.

(** [_find_table_boundaries] *)
Definition find_table_boundaries (pg : ppage) : option box :=
  select (width pg) (detect pg start_marker) (detect pg end_marker).

End Bounds.

(* ================================================================== *)
(** ** [extractors/table_extractor.py]: column mapping *)

Module ColumnMap.

(** Cells are UTF-8 byte strings.  [str.lower] is modelled on ASCII and on
    the two-byte Latin-1 capitals U+00C0-U+00DE except U+00D7 (bytes
    [C3 80]-[C3 9E] but [C3 97]), whose lower case is [C3 (b + 0x20)]. *)
Fixpoint lower_utf8 (s : list ascii) : list ascii :=
  match s with
  | c :: ((b :: r) as t) =>
      if (code c =? 195) && (128 <=? code b) && (code b <=? 158)
         && negb (code b =? 151)
      then c :: ascii_of_nat (code b + 32) :: lower_utf8 r
      else lower_char c :: lower_utf8 t
  | [c] => [lower_char c]
  | [] => []
  end.

(** The keys of [col_map] *)
Inductive role : Type :=
| product_code_raw | customs_code | unit_measure | quantity | unit_price | line_total.

Definition role_eqb (a b : role) : bool :=
  match a, b with
  | product_code_raw, product_code_raw | customs_code, customs_code
  | unit_measure, unit_measure | quantity, quantity
  | unit_price, unit_price | line_total, line_total => true
  | _, _ => false
  end.

(** A dict [role -> column label or None]; a Camelot data frame labels its
    columns [0, 1, 2, ...], so a label is a column index. *)
Definition col_map := list (role * option nat).

Definition lookup (k : role) (m : col_map) : option (option nat) :=
  option_map snd (List.find (fun kv => role_eqb (fst kv) k) m).

(** [m[k] = v] *)
Fixpoint set (k : role) (v : option nat) (m : col_map) : col_map :=
  match m with
  | [] => [(k, v)]
  | (k', v') :: r => if role_eqb k' k then (k', v) :: r else (k', v') :: set k v r
  end.

(** [m.setdefault(k, v)] *)
Definition setdefault (k : role) (v : option nat) (m : col_map) : col_map :=
  match lookup k m with Some _ => m | None => m ++ [(k, v)] end.

Definition mem (k : role) (m : col_map) : bool :=
  match lookup k m with Some _ => true | None => false end.

(** The [if/elif] chain on one lower-cased, stripped header *)
Definition classify (header_text : list ascii) : option role :=
  if contains (lit "prodotto") header_text then Some product_code_raw
  else if contains (lit "voce dog") header_text then Some customs_code
  else if list_eqb header_text (lit "um") then Some unit_measure
  else if contains (lit "qt" ++ [ascii_of_nat 195; ascii_of_nat 160] ++ lit " fatt")
                   header_text then Some quantity
  else if contains (lit "prezzo unitario") header_text then Some unit_price
  else if contains (lit "importo") header_text then Some line_total
  else None.

Fixpoint map_headers (i : nat) (headers : list (list ascii)) (m : col_map) : col_map :=
  match headers with
  | [] => m
  | h :: r =>
      let m' := match classify (strip (lower_utf8 h)) with
                | Some k => set k (Some i) m
                | None => m
                end in
      map_headers (S i) r m'
  end.

Definition required_cols : list role := [product_code_raw; quantity; unit_price; line_total].

(** [cols[i] if len(cols) > i else None] *)
Definition col_or_none (ncols i : nat) : option nat :=
  if i <? ncols then Some i else None.

(** [_map_table_columns]; [header] is [df.iloc[0]], one cell per column. *)
Definition map_table_columns (header : list (list ascii)) : col_map :=
  let ncols := List.length header in
  let m := map_headers 0 header [] in
  if forallb (fun k => mem k m) required_cols then m
  else
    let m := setdefault product_code_raw (Some 0) m in
    let m := setdefault customs_code (col_or_none ncols 2) m in
    let m := setdefault unit_measure (col_or_none ncols 3) m in
    let m := setdefault quantity (col_or_none ncols 4) m in
    let m := setdefault unit_price (col_or_none ncols 5) m in
    setdefault line_total (col_or_none ncols 6) m.

(** [_validate_required_columns] *)
Definition validate_required_columns (m : col_map) : bool :=
  forallb (fun k => match lookup k m with Some (Some _) => true | _ => false end)
          required_cols.

(** Which branch of [_extract_products_from_table] runs *)
Inductive extraction : Type :=
| NoRows                       (* [len(df) < 2]: [return products] ([]) *)
| Structured (m : col_map)     (* [_extract_products_structured] *)
| Flexible (m : col_map).      (* [_extract_products_flexible] *)

Definition extract_products_from_table (nrows : nat) (m : col_map) : extraction :=
  if nrows <? 2 then NoRows
  else if validate_required_columns m then Structured m
  else Flexible m.

(** One table of [_process_tables_to_products]: [df] is its list of rows,
    the first being the header row; an empty frame is skipped. *)
Definition process_table (df : list (list (list ascii))) : option extraction :=
  match df with
  | [] | [] :: _ => None
  | header :: _ =>
      Some (extract_products_from_table (List.length df) (map_table_columns header))
  end.

End ColumnMap.

(* ================================================================== *)
(** ** Text fields: [utils/helpers.py] and [extractors/table_extractor.py] *)

Module Fields.

(** [str.upper] on ASCII.  A non-ASCII character never upper-cases to
    one of the ASCII words compared below ([MT], [KG], [PZ], [NR], [KM],
    [NAN]), so these comparisons are those of Python. *)
Definition upper_char (c : ascii) : ascii :=
  if is_lower c then ascii_of_nat (code c - 32) else c.

Definition upper (s : list ascii) : list ascii := map upper_char s.

(** [s.split(c)] for a one-character separator; never empty *)
Fixpoint split_on (c : ascii) (s : list ascii) : list (list ascii) :=
  match s with
  | [] => [[]]
  | d :: r =>
      if Ascii.eqb d c then [] :: split_on c r
      else match split_on c r with
           | x :: xs => (d :: x) :: xs
           | [] => [[d]]
           end
  end.

(** [sep.join(parts)] *)
Fixpoint join (sep : list ascii) (parts : list (list ascii)) : list ascii :=
  match parts with
  | [] => []
  | [x] => x
  | x :: r => x ++ sep ++ join sep r
  end.

(** [clean_string_field(value)]: any non-[str] argument gives [None]. *)
Definition clean_string_field (value : pyval) : option (list ascii) :=
  match value with
  | VStr ((_ :: _) as s) =>
      let cleaned := strip s in
      match cleaned with
      | [] => None
      | _ => if list_eqb (lower cleaned) (lit "nan") then None else Some cleaned
      end
  | _ => None
  end.

(** [format_address_lines(addr_parts)] on a list of [str] *)
Definition format_address_lines (addr_parts : list (list ascii)) : option (list ascii) :=
  match addr_parts with
  | [] => None
  | _ =>
      let clean_parts :=
        map strip (filter (fun part =>
                     match part with
                     | [] => false
                     | _ => negb (list_eqb (lower (strip part)) (lit "nan"))
                     end) addr_parts) in
      match clean_parts with
      | [] => None
      | _ => Some (join (lit ", ") clean_parts)
      end
  end.

(** [TableExtractor._parse_numeric_field(value)]: [value] is [None] or a
    cell whose [str()] is the given text. *)
Definition parse_numeric_field (value : option (list ascii)) : res (option (list ascii)) :=
  match value with
  | None => Ok None
  | Some s =>
      let* parsed := parse_italian_decimal (VStr s) in
      Ok (match parsed with Some d => Some (to_string d) | None => None end)
  end.

(** [s[:n]] on a UTF-8 byte string: [n] code points, a code point being
    a leading byte with its continuation bytes ([0x80]-[0xBF]) *)
Definition is_cont (c : ascii) : bool := (128 <=? code c) && (code c <? 192).

Fixpoint take_cp (n : nat) (s : list ascii) : list ascii :=
  match s with
  | [] => []
  | c :: r =>
      if is_cont c then c :: take_cp n r
      else match n with
           | 0 => []
           | S k => c :: take_cp k r
           end
  end.

Definition standard_units : list (list ascii) :=
  [lit "MT"; lit "KG"; lit "PZ"; lit "NR"; lit "KM"].

(** [line in standard_units] *)
Definition is_standard (s : list ascii) : bool :=
  existsb (list_eqb s) standard_units.

(** The first loop of [_clean_unit_of_measure] *)
Fixpoint first_standard (lines : list (list ascii)) : option (list ascii) :=
  match lines with
  | [] => None
  | l :: r =>
      let line := upper (strip l) in
      if is_standard line then Some line else first_standard r
  end.

(** The second loop *)
Fixpoint first_nonblank (lines : list (list ascii)) : option (list ascii) :=
  match lines with
  | [] => None
  | l :: r =>
      let line := strip l in
      match line with
      | [] => first_nonblank r
      | _ => if list_eqb (upper line) (lit "NAN") then first_nonblank r
             else Some (take_cp 10 line)
      end
  end.

(** [TableExtractor._clean_unit_of_measure(unit_str)] *)
Definition clean_unit_of_measure (unit_str : option (list ascii)) : option (list ascii) :=
  match unit_str with
  | None | Some [] => None
  | Some s =>
      let lines := split_on "010"%char s in
      match first_standard lines with
      | Some u => Some u
      | None => first_nonblank lines
      end
  end.

(** [TableExtractor._extract_remaining_content_as_description(cell_content,
    mma_code)] on a [str] cell ([mma_code] is not read; nothing in the
    body raises on a [str]) *)
Definition extract_remaining_content_as_description (cell_content mma_code : list ascii)
  : option (list ascii) :=
  let cell_str := strip cell_content in
  let lines := split_on "010"%char cell_str in
  let description_parts :=
    filter (fun line => match line with
                        | [] => false
                        | _ => negb (prefix (lit "MMA") line)
                        end) (map strip lines) in
  match description_parts with
  | [] => None
  | _ => Some (join (lit " | ") description_parts)
  end.

End Fields.

Import Fields.

(* ================================================================== *)
(** ** [coordinate_table_extractor.py]: _parse_product_code_and_description *)

Module CodeParse.

(** The pattern [(MMA\d+\.\d+\.\d+(?:\s*/\s*\w+\s*/\s*\d+)?)] anchored at
    the head of a string: each function returns the rest of the string
    after its part.  Every repetition is followed by a character its class
    excludes ([\d] by [.] or [/] or a space, [\s] by [/] or a word
    character, [\w] by a space or [/]), so Python's backtracking has no
    alternative to try: each repetition takes its longest run, and the
    optional group is taken when it matches. *)
Definition lit_at (p s : list ascii) : option (list ascii) :=
  if prefix p s then Some (skipn (List.length p) s) else None.

Fixpoint span (f : ascii -> bool) (s : list ascii) : list ascii * list ascii :=
  match s with
  | c :: r => if f c then let (d, t) := span f r in (c :: d, t) else ([], s)
  | [] => ([], [])
  end.

(** [X+] and [X*] *)
Definition plus (f : ascii -> bool) (s : list ascii) : option (list ascii) :=
  match span f s with
  | ([], _) => None
  | (_, r) => Some r
  end.

Definition star (f : ascii -> bool) (s : list ascii) : list ascii := snd (span f s).

Definition opt_bind (m : option (list ascii)) (k : list ascii -> option (list ascii))
  : option (list ascii) :=
  match m with Some r => k r | None => None end.

Definition code_core (s : list ascii) : option (list ascii) :=
  opt_bind (lit_at (lit "MMA") s) (fun r =>
  opt_bind (plus is_digit r) (fun r =>
  opt_bind (lit_at (lit ".") r) (fun r =>
  opt_bind (plus is_digit r) (fun r =>
  opt_bind (lit_at (lit ".") r) (fun r =>
  plus is_digit r))))).

Definition code_group (s : list ascii) : option (list ascii) :=
  opt_bind (lit_at (lit "/") (star is_space s)) (fun r =>
  opt_bind (plus Assoc.is_word (star is_space r)) (fun r =>
  opt_bind (lit_at (lit "/") (star is_space r)) (fun r =>
  plus is_digit (star is_space r)))).

Definition code_match_at (s : list ascii) : option (list ascii) :=
  match code_core s with
  | Some r => Some (match code_group r with Some r' => r' | None => r end)
  | None => None
  end.

(** [re.search]: the leftmost start with a match, and the rest of the
    string after the match *)
Fixpoint search_code (s : list ascii) : option (nat * list ascii) :=
  match code_match_at s with
  | Some r => Some (0, r)
  | None =>
      match s with
      | [] => None
      | _ :: t =>
          match search_code t with
          | Some (i, r) => Some (S i, r)
          | None => None
          end
      end
  end.

(** [match.group(1)] for a search of [s] found at [start], [rest] left *)
Definition group_text (s : list ascii) (start : nat) (rest : list ascii) : list ascii :=
  firstn (List.length (skipn start s) - List.length rest) (skipn start s).

(** [re.sub(r'^[-:\s]+', '', s)] *)
Fixpoint drop_dash_colon (s : list ascii) : list ascii :=
  match s with
  | c :: r =>
      if Ascii.eqb c "-"%char || Ascii.eqb c ":"%char || is_space c
      then drop_dash_colon r else s
  | [] => []
  end.

Definition nl : ascii := "010"%char.

(** The [for i, line in enumerate(lines[1:], 1)] loop *)
Fixpoint scan_lines (lines : list (list ascii)) (i : nat) (ls : list (list ascii))
  : option (list ascii * list ascii) :=
  match ls with
  | [] => None
  | line :: ls' =>
      match search_code line with
      | Some (start, rest) =>
          let description := strip (join [nl] (firstn i lines)) in
          let product_code := strip (group_text line start rest) in
          let remainder := strip rest in
          let description :=
            match remainder with
            | [] => description
            | _ => description ++ nl :: remainder
            end in
          let description :=
            if S i <? List.length lines
            then description ++ nl :: join [nl] (skipn (S i) lines)
            else description in
          Some (product_code, description)
      | None => scan_lines lines (S i) ls'
      end
  end.

(** [CoordinateTableExtractor._parse_product_code_and_description] *)
Definition parse_product_code_and_description (product_code_raw : list ascii)
  : list ascii * list ascii :=
  match product_code_raw with
  | [] => ([], [])
  | _ =>
      match search_code product_code_raw with
      | Some (start, rest) =>
          let product_code := strip (group_text product_code_raw start rest) in
          let description := drop_dash_colon (strip rest) in
          (product_code, description)
      | None =>
          let lines := split_on nl product_code_raw in
          if 1 <? List.length lines then
            match scan_lines lines 1 (tl lines) with
            | Some r => r
            | None => (product_code_raw, [])
            end
          else (product_code_raw, [])
      end
  end.

End CodeParse.

(* ================================================================== *)
(** ** Auxiliary definitions of the statements *)

Module SpecDefs.

Import ColumnMap.

(** A row without product code and without any value: index, raw cells,
    then product code, description, customs code, unit of measure,
    quantity, unit price and total, all empty *)
Definition blank_row (i : nat) : RowMerge.raw_row :=
  RowMerge.mk_row i [] (Some []) (Some []) (Some []) (Some [])
                  (Some []) (Some []) (Some []).

(** A supplementary row carrying the quantity [34.19], and the primary
    row of product [MMA1] that follows it with an empty quantity *)
Definition supp_row : RowMerge.raw_row :=
  RowMerge.mk_row 0 [] (Some []) (Some (lit "tessuto")) (Some (lit "5407"))
                  (Some (lit "MT")) (Some (lit "34.19")) (Some []) (Some []).

Definition primary_row : RowMerge.raw_row :=
  RowMerge.mk_row 1 [] (Some (lit "MMA1")) (Some (lit "Articolo")) (Some [])
                  (Some []) (Some []) (Some (lit "2,00")) (Some (lit "68,38")).

(** The column the positional fallback of [_map_table_columns] offers a
    role, for a header of [ncols] cells *)
Definition fallback_col (ncols : nat) (k : role) : option nat :=
  match k with
  | product_code_raw => Some 0
  | customs_code => col_or_none ncols 2
  | unit_measure => col_or_none ncols 3
  | quantity => col_or_none ncols 4
  | unit_price => col_or_none ncols 5
  | line_total => col_or_none ncols 6
  end.

(** A header row of three cells, none of them recognised *)
Definition header3 : list (list ascii) := [lit "Codice"; lit "Descrizione"; lit "Note"].

(** A seven-cell header row whose second cell is the amount column *)
Definition header7 : list (list ascii) :=
  [lit "Prodotto"; lit "Importo"; lit "A"; lit "B"; lit "C"; lit "D"; lit "E"].

End SpecDefs.

(* ================================================================== *)
(** ** Decimal bounds and the checksum, in exact arithmetic *)

Module CheckDefs.

Import Validator Compiler.

(** A finite decimal [m * 10^e] bounded at the scale [10^-L]: [e] is at
    least [-L] (and at most [Etop]) and the value times [10^L] is an
    integer of absolute value at most [B]. *)
Definition scaled (L m e B : Z) : Prop :=
  (- L <= e <= Etop)%Z /\ (Z.abs m * 10 ^ (e + L) <= B)%Z.

(** The new [validation_checksum_ok] of [_perform_final_validations] on
    a result whose flag is still [False] *)
Definition checksum_flag (cfg : config) (ps : list product) (bd : option bill) : bool :=
  if validate_checksums cfg then
    match checksum_body ps bd with Ok (ok, _) => ok | Err _ => false end
  else false.

(** The entries [_perform_final_validations] appends *)
Definition checksum_errors (cfg : config) (ps : list product) (bd : option bill)
  : list perr :=
  if validate_checksums cfg then
    match checksum_body ps bd with Ok (_, errs) => errs | Err _ => [PChecksumError] end
  else [].

(** Whether [_extract_footer_information] raises *)
Definition footer_fails (bd : option bill) (page_data_list : list page) : bool :=
  match bd with
  | Some _ => false
  | None => existsb (fun pg => match raw_text pg with [] => false | _ => true end)
                    (pages_to_search page_data_list)
  end.

(** The exact value a line item's total contributes to the checksum sum *)
Definition total_value (p : product) : Q :=
  if str_truthy (p_total_price p) then
    match parse_italian_decimal (arg (p_total_price p)) with
    | Ok (Some (DFin m e)) => fin_value m e
    | _ => 0%Q
    end
  else 0%Q.

Definition sum_values (ps : list product) : Q :=
  fold_right (fun p acc => (total_value p + acc)%Q) 0%Q ps.

(** A line-item total that is empty, unparseable, zero, or a finite
    decimal of at most ten million with at most six decimals *)
Definition total_in_range (p : product) : Prop :=
  str_truthy (p_total_price p) = true ->
  match parse_italian_decimal (arg (p_total_price p)) with
  | Ok None => True
  | Ok (Some (DFin m e)) => m = 0%Z \/ scaled 6 m e (10 ^ 13)
  | _ => False
  end.

(** Test data: line items by their total, a bill by its declared total *)
Definition prod_total (t : string) : product :=
  mk_product (Some (lit "MMA")) None None None None None (Some (lit t)).

Definition five_totals : list product :=
  map prod_total ["126,911"; "87,842"; "16,238"; "16,616"; "2,907"]%string.

Definition bill_total (t : string) : bill :=
  mk_bill None (Some (lit t)) None None None None.

Definition page_of (ps : list product) (errs : list (list ascii)) : page :=
  mk_page 0 [] ps None [] errs.

Definition cfg_on : config := mk_config true 0.8%float true.
Definition cfg_nocheck : config := mk_config true 0.8%float false.

(** A completion that fills nothing and a footer back-fill that finds
    nothing (the pages of the tests have no text) *)
Definition ci0 : list page -> list delivery -> nat -> delivery_info :=
  fun _ _ _ => empty_info.
Definition ff0 : list page -> bill -> bill := fun _ b => b.

End CheckDefs.

(* ================================================================== *)
(** ** The deduplicated deliveries, by first occurrence *)

Module DeliveryDefs.

Import Compiler Assoc.

(** Lines 69-88 of [_compile_delivery_data]: the deliveries collected
    from the pages, or one delivery holding every product *)
Definition collected_deliveries (page_data_list : list page) : list delivery :=
  let deliveries := flat_map page_deliveries page_data_list in
  match deliveries with
  | [] => [{| ddt_series := None; ddt_number := None; d_info := empty_info;
              d_products := flat_map pg_products page_data_list |}]
  | _ => deliveries
  end.

Definition same_key (k : list ascii) (d : delivery) : bool := list_eqb (ddt_key d) k.

(** The deliveries whose key has not occurred before them ([seen] holds
    the keys of the deliveries before the list) *)
Fixpoint firsts (seen : list (list ascii)) (ds : list delivery) : list delivery :=
  match ds with
  | [] => []
  | d :: r =>
      if existsb (fun k => list_eqb k (ddt_key d)) seen then firsts seen r
      else d :: firsts (ddt_key d :: seen) r
  end.

(** Each first occurrence, holding the products of all the deliveries of
    [ds] with its key, in order *)
Definition by_first_occurrence (ds : list delivery) : list delivery :=
  map (fun d => with_products d (flat_map d_products (filter (same_key (ddt_key d)) ds)))
      (firsts [] ds).

(** Test data: delivery [S1/100] on page 1 without model data, and on
    page 2 with it, each with one product *)
Definition prod_code (c : string) : product :=
  mk_product (Some (lit c)) None None None None None None.

Definition info_full : delivery_info :=
  mk_info None None (Some (lit "M1")) None None None (Some (lit "Prodotto")) None.

Definition ddt_incomplete : delivery :=
  mk_delivery (Some (lit "S1")) (Some (lit "100")) empty_info [prod_code "MMA1"].

Definition ddt_complete : delivery :=
  mk_delivery (Some (lit "S1")) (Some (lit "100")) info_full [prod_code "MMA2"].

Definition pages_dup : list page :=
  [mk_page 0 [] [prod_code "MMA1"] None [ddt_incomplete] [];
   mk_page 1 [] [prod_code "MMA2"] None [ddt_complete] []].

End DeliveryDefs.

(* ------------------------------------------------------------------ *)
(** ** Product-to-delivery association *)

Module AssocDefs.

Import Compiler Assoc.

Local Open Scope nat_scope.

(** Index [j] of [delivery_positions] holds the closest position at or
    before [pos]: no position at or before [pos] is greater, and every
    earlier one at or before [pos] is smaller. *)
Definition closest_preceding (pos : nat) (delivery_positions : list nat) (j : nat) : Prop :=
  exists dj, nth_error delivery_positions j = Some dj /\ dj <= pos /\
  forall k dk, nth_error delivery_positions k = Some dk -> dk <= pos ->
    dk <= dj /\ (k < j -> dk < dj).

(** The position of a product whose code is [Some c] *)
Definition code_position (text : list ascii) (p : product) : nat :=
  match p_product_code p with
  | Some c => match find c text with Some q => q | None => List.length text end
  | None => 0
  end.

(** The products of [xs] (paired with their positions) whose target is [j],
    in order *)
Definition assigned (delivery_positions : list nat) (xs : list (product * nat)) (j : nat)
  : list product :=
  map fst (filter (fun x => target (snd x) delivery_positions =? j) xs).

(** The deliveries from index [i], delivery [j] holding [f j] *)
Fixpoint with_assigned (f : nat -> list product) (i : nat) (ds : list delivery)
  : list delivery :=
  match ds with
  | [] => []
  | d :: r => with_products d (f i) :: with_assigned f (S i) r
  end.

(** What the accumulator [(best_distance, best)] of
    [_find_closest_preceding_delivery] records after the positions
    [prefix] *)
Definition closest_inv (q : nat) (prefix : list nat) (best : option (nat * nat)) : Prop :=
  match best with
  | None => forall dk, In dk prefix -> q < dk
  | Some (bd, bi) => closest_preceding q prefix bi /\ bd = q - nth bi prefix 0
  end.

Definition has_code (p : product) : bool :=
  match p_product_code p with Some _ => true | None => false end.

(** Test data: deliveries [S1/100] and [S2/200] at positions 12 and 57,
    products [MMA1] (at 36), [MMA2] (at 64) and [ZZZ] (absent) *)
Definition assoc_text : list ascii :=
  lit "DDT interno S1 100 xxxxxxxxxxxxxxxx MMA1 yyy DDT interno S2 200 MMA2".

Definition ddt_s1 : delivery := mk_delivery (Some (lit "S1")) (Some (lit "100")) empty_info [].
Definition ddt_s2 : delivery := mk_delivery (Some (lit "S2")) (Some (lit "200")) empty_info [].

Definition assoc_page : page :=
  mk_page 0 assoc_text
    [DeliveryDefs.prod_code "MMA1"; DeliveryDefs.prod_code "MMA2"; DeliveryDefs.prod_code "ZZZ"]
    (Some ddt_s1) [ddt_s1; ddt_s2] [].

End AssocDefs.

(* ------------------------------------------------------------------ *)
(** ** Table boundaries *)

Module BoundsDefs.

Import Bounds.

(** A coordinate that is neither NaN nor [-0.0]: on such floats [<] is a
    strict total order. *)
Definition ordinary (x : float) : bool :=
  match FloatOps.Prim2SF x with
  | SpecFloat.S754_nan => false
  | SpecFloat.S754_zero s => negb s
  | _ => true
  end.

Local Open Scope Z_scope.

(** The lexicographic key of [SFcompare] *)
Definition sf_key (f : SpecFloat.spec_float) : Z * Z * Z :=
  match f with
  | SpecFloat.S754_infinity true => (0, 0, 0)
  | SpecFloat.S754_finite true m e => (1, - e, Zneg m)
  | SpecFloat.S754_zero _ => (2, 0, 0)
  | SpecFloat.S754_finite false m e => (3, e, Zpos m)
  | SpecFloat.S754_infinity false => (4, 0, 0)
  | SpecFloat.S754_nan => (5, 0, 0)
  end.

Definition lex_ltb (a b : Z * Z * Z) : bool :=
  let '(a1, a2, a3) := a in
  let '(b1, b2, b3) := b in
  (a1 <? b1) || (a1 =? b1) && ((a2 <? b2) || (a2 =? b2) && (a3 <? b3)).

Local Close Scope Z_scope.

Definition flt (x y : float) : bool := (x <? y)%float.

(** Sorted: no element is smaller than one before it *)
Fixpoint ssorted {A} (lt : A -> A -> bool) (l : list A) : Prop :=
  match l with
  | [] => True
  | a :: r => Forall (fun x => lt x a = false) r /\ ssorted lt r
  end.

(** [select] on the sorted [y] coordinates of the start and end markers *)
Definition select_y (w : float) (ss es : list float) : option box :=
  match ss, es with
  | s :: _, (_ :: _) as ends =>
      match List.find (fun e => (s <? e)%float) ends with
      | Some e => Some (make_box w s e)
      | None =>
          match List.find (fun e => (e <? s)%float) ends with
          | Some e => Some (make_box w s e)
          | None => None
          end
      end
  | _, _ => None
  end.

(** One character per letter of [s], from [x] rightwards, at height [y] *)
Fixpoint mkline (s : list ascii) (x y : float) : list pchar :=
  match s with
  | [] => []
  | c :: r => mk_char [c] x y :: mkline r (x + 1)%float y
  end.

(** Test pages: start marker at [y=100] and end marker at [y=400], and the
    reverse, on a page 600 wide *)
Definition page_forward : ppage :=
  mk_ppage (mkline start_marker 10 100 ++ mkline end_marker 10 400) 600.

Definition page_reversed : ppage :=
  mk_ppage (mkline start_marker 10 400 ++ mkline end_marker 10 100) 600.

End BoundsDefs.

(* ------------------------------------------------------------------ *)
(** ** Confidence score: definitions *)

Module ScoreDefs.

Import Validator.

(** The exact value of a non-empty [str] field that parses to a finite
    decimal *)
Definition field_value (v : option (list ascii)) : option Q :=
  if str_truthy v then
    match parse_italian_decimal (arg v) with
    | Ok (Some (DFin m e)) => Some (fin_value m e)
    | _ => None
    end
  else None.

(** A numeric field that is empty, unparseable, zero, or a finite decimal
    of at most ten million with at most six decimals *)
Definition field_in_range (v : option (list ascii)) : Prop :=
  str_truthy v = true ->
  match parse_italian_decimal (arg v) with
  | Ok None => True
  | Ok (Some (DFin m e)) => m = 0%Z \/ CheckDefs.scaled 6 m e (10 ^ 13)
  | _ => False
  end.

Definition product_in_range (p : product) : Prop :=
  field_in_range (p_quantity p) /\ field_in_range (p_unit_price p)
  /\ field_in_range (p_total_price p).

(** [max(0.01, t * 0.001)] on exact values *)
Definition tolerance (t : Q) : Q :=
  if Qle_bool (t * (1 # 1000)) (1 # 100) then (1 # 100)%Q else (t * (1 # 1000))%Q.

(** An item that passes both checks of [_validate_products_consistency]:
    its three fields are non-empty and parse to strictly positive
    decimals, and [|q * u - t| <= max(0.01, 0.001 * t)]. *)
Definition item_consistent (p : product) : bool :=
  match field_value (p_quantity p), field_value (p_unit_price p),
        field_value (p_total_price p) with
  | Some q, Some u, Some t =>
      negb (Qle_bool q 0) && negb (Qle_bool u 0) && negb (Qle_bool t 0)
      && Qle_bool (Qabs (q * u - t)) (tolerance t)
  | _, _, _ => false
  end.

(** A product whose code is neither found nor matched by a variant *)
Definition code_missing (raw_text : list ascii) (p : product) : bool :=
  match cross_one raw_text p with Some false => true | _ => false end.

(** The errors [_cross_reference_with_text] records: one for a missing
    text, else one per product whose code is not found *)
Definition text_errors (raw_text : list ascii) (ps : list product) : nat :=
  match raw_text with
  | [] => 1
  | _ => List.length (filter (code_missing raw_text) ps)
  end.

(** The text-match fraction: [0.0] for a missing text *)
Definition text_score (raw_text : list ascii) (ps : list product) : float :=
  match raw_text with
  | [] => 0%float
  | _ => ratio (count_found raw_text ps) (List.length ps)
  end.

(** The blend [0.6 * c + 0.4 * t], less [min(0.5, 0.2 * e)] floored at
    zero when [e > 0], in binary floating point *)
Definition blended_score (c t : float) (e : nat) : float :=
  let s := (c * 0.6 + t * 0.4)%float in
  if Nat.ltb 0 e then py_max 0%float (s - py_min (0.2 * float_of_nat e)%float 0.5%float)%float
  else s.

(** Test data: a line item by code, quantity, unit price and total *)
Definition pr (c q u t : string) : product :=
  mk_product (Some (lit c)) None None None (Some (lit q)) (Some (lit u)) (Some (lit t)).

(** An item [0 x 5 = 0] whose code is in the text *)
Definition page_zero : page :=
  mk_page 0 (lit "MMA1") [pr "MMA1" "0" "5" "0"] None [] [].

(** Three consistent items, two of whose codes are in the text *)
Definition page_two_thirds : page :=
  mk_page 0 (lit "MMA1 MMA2")
    [pr "MMA1" "1" "1" "1"; pr "MMA2" "2" "1,5" "3"; pr "XYZ" "1" "1" "1"] None [] [].

End ScoreDefs.

(* ================================================================== *)
(** ** Auxiliary definitions of the further properties *)

Module ExtraDefs.

Import Fields Validator RowMerge.

(** The characters of [str(d)] for a finite [d] *)
Definition fin_char (c : ascii) : bool :=
  is_digit c || Ascii.eqb c "."%char || Ascii.eqb c "-"%char
  || Ascii.eqb c "+"%char || Ascii.eqb c "E"%char.

(** [str(d)] of a finite [d] after its sign: the coefficient digits [c]
    placed by the exponent [e] *)
Definition sci_body (c : list ascii) (e : Z) : list ascii :=
      let L := Z.of_nat (List.length c) in
      let adjusted := (e + L - 1)%Z in
      (if (e <=? 0)%Z && (-6 <=? adjusted)%Z then
         if (e =? 0)%Z then c
         else
           let k := Z.to_nat (- e) in
           if Nat.ltb k (List.length c) then
             firstn (List.length c - k) c ++ "."%char :: skipn (List.length c - k) c
           else lit "0." ++ repeat "0"%char (k - List.length c) ++ c
       else
         firstn 1 c
         ++ (match skipn 1 c with [] => [] | t => "."%char :: t end)
         ++ "E"%char :: (if (0 <=? adjusted)%Z then "+"%char else "-"%char)
         :: digits_N (Z.abs_N adjusted)).

(** The filter of [format_address_lines] *)
Definition keep_part (part : list ascii) : bool :=
  match part with
  | [] => false
  | _ => negb (list_eqb (lower (strip part)) (lit "nan"))
  end.

(** A line [_clean_unit_of_measure] skips: blank or [nan] *)
Definition blank_or_nan (l : list ascii) : Prop := strip l = [] \/ upper (strip l) = lit "NAN".

(** A product with its [total_price] erased *)
Definition without_total (p : product) : product :=
  mk_product (p_product_code p) (p_description p) (p_customs_code p)
    (p_unit_of_measure p) (p_quantity p) (p_unit_price p) None.

(** [l1] is [l2] with some elements left out, the order kept *)
Inductive subseq {A : Type} : list A -> list A -> Prop :=
| subseq_nil : subseq [] []
| subseq_skip x l1 l2 : subseq l1 l2 -> subseq l1 (x :: l2)
| subseq_take x l1 l2 : subseq l1 l2 -> subseq (x :: l1) (x :: l2).

(** The fields of a raw row that [_merge_paired_rows] never changes *)
Definition row_key (r : raw_row) :=
  (row_index r, raw_data r, product_code r, description r).

(** [if product.product_code:] *)
Definition has_nonempty_code (p : product) : bool :=
  match p_product_code p with Some (_ :: _) => true | _ => false end.

(** The "Product k+1: Code ... not found" entries among validation errors *)
Definition code_err_at (k : nat) (e : verr) : bool :=
  match e with ErrCodeNotFound j _ => Nat.eqb j k | _ => false end.

End ExtraDefs.

(* ================================================================== *)
(** * Properties *)

(* ------------------------------------------------------------------ *)
(** ** Validation disabled *)

Module ValidatorFacts.

Import Validator.

(** Claim C10: with [enable_ocr_validation] off, [validate_page_data]
    returns, for any page, a valid result with confidence score [0.8], no
    validation error and no corrected data. *)
Theorem validate_page_data_disabled (cfg : config) (pg : page)
  (H : enable_ocr_validation cfg = false) :
  validate_page_data cfg pg =
  {| vr_page_number := page_number pg; is_valid := true;
     confidence_score := 0.8%float; validation_errors := [];
     corrected_data := None |}.
Proof. unfold validate_page_data. rewrite H. reflexivity. Qed.

Lemma validate_page_data_disabled_witness :
  let cfg := mk_config false 0.8%float true in
  let pg := mk_page 0 (lit "MMA1") [mk_product (Some (lit "MMA1")) None None None
                                      (Some (lit "1")) (Some (lit "2")) (Some (lit "9"))]
                    None [] [] in
  enable_ocr_validation cfg = false /\
  validate_page_data cfg pg =
  {| vr_page_number := 0; is_valid := true; confidence_score := 0.8%float;
     validation_errors := []; corrected_data := None |}.
Proof.
  simpl. split; [reflexivity|].
  apply validate_page_data_disabled. reflexivity.
Defined.

End ValidatorFacts.

(* ------------------------------------------------------------------ *)
(** ** Column mapping *)

Module ColumnMapFacts.

Import ColumnMap SpecDefs.

Lemma find_app {A} (f : A -> bool) (l1 l2 : list A) :
  List.find f (l1 ++ l2) =
  match List.find f l1 with Some x => Some x | None => List.find f l2 end.
Proof.
  induction l1 as [|a l1 IH]; simpl; [reflexivity|].
  destruct (f a); [reflexivity | exact IH].
Qed.

Lemma role_eqb_true (a b : role) : role_eqb a b = true -> a = b.
Proof. destruct a, b; simpl; congruence. Qed.

Lemma lookup_setdefault (k k' : role) (v : option nat) (m : col_map) :
  lookup k (setdefault k' v m) =
  if role_eqb k' k then Some (match lookup k m with Some x => x | None => v end)
  else lookup k m.
Proof.
  unfold setdefault.
  destruct (role_eqb k' k) eqn:E.
  - apply role_eqb_true in E. subst k'.
    destruct (lookup k m) as [x|] eqn:L; [exact L|].
    unfold lookup in *. rewrite find_app.
    destruct (List.find _ m); [discriminate|].
    simpl. destruct k; reflexivity.
  - destruct (lookup k' m) as [x|]; [reflexivity|].
    unfold lookup. rewrite find_app.
    destruct (List.find _ m); [reflexivity|]. simpl. rewrite E. reflexivity.
Qed.

(** Claim C7 (counterexample): a three-column table with no recognised
    header is not rejected: the fallback maps the customs code to column 2
    and leaves quantity, unit price and line total unmapped ([None]), and
    the rows go to the flexible extraction.  On a seven-column table whose
    header names the amount in column 1, the fallback keeps column 1 for
    the line total instead of column 6. *)
Lemma map_table_columns_counterexample :
  process_table [header3; [lit "MMA1"; lit "x"; lit "y"]] =
    Some (Flexible [(product_code_raw, Some 0); (customs_code, Some 2);
                    (unit_measure, None); (quantity, None);
                    (unit_price, None); (line_total, None)])
  /\ lookup line_total (map_table_columns header7) = Some (Some 1).
Proof. split; vm_compute; reflexivity. Qed.

(** Claim C7 (amended): when the header matching maps the four mandatory
    roles, that mapping is kept; otherwise each role the header matching
    left unmapped gets its positional column (0, 2, 3, 4, 5, 6 for product
    code, customs code, unit of measure, quantity, unit price, line total;
    [None] beyond the table's width) and every header-mapped role keeps
    its column.  A table with at least two rows is never rejected: it is
    extracted by the structured path when all mandatory roles have a
    column, by the flexible path otherwise. *)
Theorem map_table_columns_fallback (header : list (list ascii)) :
  let m0 := map_headers 0 header [] in
  (forallb (fun k => mem k m0) required_cols = true ->
   map_table_columns header = m0) /\
  (forallb (fun k => mem k m0) required_cols = false ->
   forall k, lookup k (map_table_columns header) =
             Some (match lookup k m0 with
                   | Some v => v
                   | None => fallback_col (List.length header) k
                   end)) /\
  (forall rows, 1 <= List.length rows -> header <> [] ->
   process_table (header :: rows) =
     Some (if validate_required_columns (map_table_columns header)
           then Structured (map_table_columns header)
           else Flexible (map_table_columns header))).
Proof.
  intros m0. split; [|split].
  - intros H. unfold map_table_columns. fold m0. rewrite H. reflexivity.
  - intros H k. unfold map_table_columns. fold m0. rewrite H.
    destruct k; simpl; repeat rewrite lookup_setdefault; simpl; reflexivity.
  - intros rows Hr Hh. destruct header as [|h t]; [contradiction|].
    unfold process_table, extract_products_from_table. simpl.
    destruct rows as [|r rs]; [simpl in Hr; lia|]. reflexivity.
Qed.

Lemma map_table_columns_fallback_witness :
  1 <= List.length [[lit "MMA1"; lit "x"; lit "y"]] /\ header3 <> [] /\
  process_table (header3 :: [[lit "MMA1"; lit "x"; lit "y"]]) =
    Some (if validate_required_columns (map_table_columns header3)
          then Structured (map_table_columns header3)
          else Flexible (map_table_columns header3)).
Proof.
  split; [simpl; lia|]. split; [discriminate|].
  apply (proj2 (proj2 (map_table_columns_fallback header3))).
  - simpl; lia.
  - discriminate.
Defined.

End ColumnMapFacts.

(* ------------------------------------------------------------------ *)
(** ** Row reconciliation *)

Module RowMergeFacts.

Import RowMerge SpecDefs.

Lemma pull_spec (cur prev : option (list ascii)) :
  pull cur prev = if truthy cur then cur else if truthy prev then prev else cur.
Proof. unfold pull. destruct (truthy cur), (truthy prev); reflexivity. Qed.

(** Claim C1 (counterexample): two supplementary rows without any value;
    the first, followed by a supplementary row rather than a primary row,
    is emitted although it carries no numeric value. *)
Lemma merge_paired_rows_counterexample :
  let rows := [blank_row 0; blank_row 1] in
  has_product_code (blank_row 0) = false
  /\ has_product_code (blank_row 1) = false
  /\ has_numeric_value (blank_row 0) = false
  /\ merge_paired_rows rows = [blank_row 0].
Proof. vm_compute. repeat split. Qed.

(** Claim C1 (amended): [_merge_paired_rows] emits, row after row, the
    output of each row [r] at index [i]:
    - a primary row (product code containing [MMA]) is emitted once; when
      a row precedes it (primary or supplementary), each of its empty
      quantity, unit price, total, unit of measure and customs code
      fields takes that preceding row's value when non-empty;
    - a supplementary row followed by a primary row is not emitted;
    - a supplementary row followed by a supplementary row is emitted as
      is;
    - a last supplementary row is emitted only when its quantity, unit
      price or total is non-blank. *)
Theorem merge_paired_rows_spec (rows : list raw_row) :
  merge_paired_rows rows = flat_map (merge_step rows) (seq 0 (List.length rows)) /\
  (forall i r, nth_error rows i = Some r ->
   (has_product_code r = true -> i = 0 -> merge_step rows i = [r]) /\
   (forall j prev, has_product_code r = true -> i = S j ->
    nth_error rows j = Some prev ->
    exists m, merge_step rows i = [m] /\
      row_index m = row_index r /\ raw_data m = raw_data r /\
      product_code m = product_code r /\ description m = description r /\
      Forall (fun f : raw_row -> option (list ascii) =>
                f m = if truthy (f r) then f r
                      else if truthy (f prev) then f prev else f r)
             [quantity; unit_price; total_price; unit_of_measure; voce_dog]) /\
   (forall next, has_product_code r = false -> nth_error rows (S i) = Some next ->
    merge_step rows i = if has_product_code next then [] else [r]) /\
   (has_product_code r = false -> nth_error rows (S i) = None ->
    merge_step rows i = if has_numeric_value r then [r] else [])).
Proof.
  split; [reflexivity|].
  intros i r Hr. unfold merge_step. rewrite Hr.
  split; [|split; [|split]].
  - intros Hp Hi. subst i. rewrite Hp. reflexivity.
  - intros j prev Hp Hi Hprev. subst i. rewrite Hp, Hprev.
    eexists. split; [reflexivity|].
    simpl. repeat split.
    repeat constructor; simpl; apply pull_spec.
  - intros next Hp Hn. rewrite Hp, Hn. reflexivity.
  - intros Hp Hn. rewrite Hp, Hn. reflexivity.
Qed.

Lemma merge_paired_rows_spec_witness :
  nth_error [supp_row; primary_row] 1 = Some primary_row
  /\ has_product_code primary_row = true
  /\ nth_error [supp_row; primary_row] 0 = Some supp_row
  /\ exists m, merge_step [supp_row; primary_row] 1 = [m]
               /\ quantity m = Some (lit "34.19").
Proof.
  split; [reflexivity|]. split; [vm_compute; reflexivity|].
  split; [reflexivity|].
  destruct (proj2 (merge_paired_rows_spec [supp_row; primary_row]) 1 primary_row
              eq_refl) as [_ [H _]].
  destruct (H 0 supp_row eq_refl eq_refl eq_refl) as [m [Hm [_ [_ [_ [_ Hf]]]]]].
  exists m. split; [exact Hm|].
  inversion Hf as [|f l Hq _]. rewrite Hq. reflexivity.
Defined.

End RowMergeFacts.

(* ------------------------------------------------------------------ *)
(** ** Decimal parsing *)

Module ParseFacts.

Definition no_digit (s : list ascii) : Prop :=
  forall c, In c s -> is_digit c = false.

Lemma no_digit_cons c s : no_digit (c :: s) -> is_digit c = false /\ no_digit s.
Proof. intros H. split; [apply H; left; reflexivity | intros d Hd; apply H; right; exact Hd]. Qed.

Lemma In_lstrip c s : In c (lstrip s) -> In c s.
Proof.
  induction s as [|d s IH]; simpl; [tauto|].
  destruct (is_space d); [intros H; right; exact (IH H) | tauto].
Qed.

Lemma In_strip c s : In c (strip s) -> In c s.
Proof.
  unfold strip, rstrip. intros H.
  apply in_rev in H. apply In_lstrip in H. apply in_rev in H.
  apply In_lstrip in H. exact H.
Qed.

Lemma In_replace_char c a b s : In c (replace_char a b s) -> In c s \/ In c b.
Proof.
  induction s as [|d s IH]; simpl; [tauto|].
  intros H. apply in_app_or in H. destruct H as [H|H].
  - destruct (Ascii.eqb d a); [tauto|]. destruct H as [H|[]]. left; left; exact H.
  - destruct (IH H); tauto.
Qed.

Lemma In_firstn' {A} (x : A) n l : In x (firstn n l) -> In x l.
Proof. intros H. rewrite <- (firstn_skipn n l). apply in_or_app. left; exact H. Qed.

Lemma In_skipn' {A} (x : A) n l : In x (skipn n l) -> In x l.
Proof. intros H. rewrite <- (firstn_skipn n l). apply in_or_app. right; exact H. Qed.

Lemma In_standardize c s : In c (standardize s) -> In c s \/ c = "."%char.
Proof.
  unfold standardize.
  destruct (has_char "," s && has_char "." s).
  - destruct (Nat.eqb _ 1).
    + intros H. apply in_app_or in H. destruct H as [H|[H|H]].
      * apply In_replace_char in H. destruct H as [H|[]].
        left; exact (In_firstn' _ _ _ H).
      * right; symmetry; exact H.
      * left; exact (In_skipn' _ _ _ H).
    + intros H. apply In_replace_char in H. destruct H as [H|[H|[]]].
      * apply In_replace_char in H. destruct H as [H|[]]. left; exact H.
      * right; symmetry; exact H.
  - destruct (has_char "," s).
    + intros H. apply In_replace_char in H. destruct H as [H|[H|[]]];
        [left; exact H | right; symmetry; exact H].
    + intros H; left; exact H.
Qed.

Lemma span_digits_spec s :
  fst (span_digits s) ++ snd (span_digits s) = s /\
  forall c, In c (fst (span_digits s)) -> is_digit c = true.
Proof.
  induction s as [|d s [IH1 IH2]]; simpl; [split; [reflexivity | tauto]|].
  destruct (is_digit d) eqn:Ed.
  - destruct (span_digits s) as [a b]. simpl in *. split; [congruence|].
    intros c [H|H]; [congruence | exact (IH2 c H)].
  - simpl. split; [reflexivity | tauto].
Qed.

Lemma parse_special_not_fin n b m e : parse_special n b <> Some (DFin m e).
Proof.
  unfold parse_special.
  destruct (_ || _); [discriminate|].
  destruct (_ && _); [discriminate|].
  destruct (_ && _); discriminate.
Qed.

Lemma parse_finite_digit n b m e :
  parse_finite n b = Some (DFin m e) -> exists c, In c b /\ is_digit c = true.
Proof.
  unfold parse_finite.
  pose proof (span_digits_spec b) as [A1 D1].
  destruct (span_digits b) as [ip r1]. simpl in A1, D1.
  destruct ip as [|c ip'].
  - simpl in A1. subst r1.
    destruct b as [|c r2]; [discriminate|].
    destruct (Ascii.eqb c "."%char); [|discriminate].
    pose proof (span_digits_spec r2) as [A2 D2].
    destruct (span_digits r2) as [fp r3]. simpl in A2, D2.
    destruct fp as [|c' fp']; [discriminate|].
    intros _. exists c'. split; [|apply D2; left; reflexivity].
    right. rewrite <- A2. left; reflexivity.
  - intros _. exists c. split; [|apply D1; left; reflexivity].
    rewrite <- A1. left; reflexivity.
Qed.

Lemma In_split_sign c t : In c (snd (split_sign t)) -> In c t.
Proof.
  destruct t as [|d r]; simpl; [tauto|].
  destruct (Ascii.eqb d "+"); [simpl; tauto|].
  destruct (Ascii.eqb d "-"); simpl; tauto.
Qed.

Lemma of_string_fin_digit t m e :
  of_string t = Ok (DFin m e) -> exists c, In c t /\ is_digit c = true.
Proof.
  unfold of_string.
  pose proof (fun c => In_split_sign c (strip (filter (fun c => negb (Ascii.eqb c "_")) t))) as Hs.
  destruct (split_sign _) as [n b]. simpl in Hs.
  destruct (parse_special n b) as [d|] eqn:Ep.
  - intros H. inversion H; subst. exfalso; exact (parse_special_not_fin _ _ _ _ Ep).
  - destruct (parse_finite n b) as [d|] eqn:Ef; [|discriminate].
    intros H. inversion H; subst.
    destruct (parse_finite_digit _ _ _ _ Ef) as [c [Hc Hd]].
    exists c. split; [|exact Hd].
    apply Hs, In_strip, filter_In in Hc. exact (proj1 Hc).
Qed.

Lemma of_string_cases s :
  (exists d, of_string s = Ok d) \/ of_string s = Err InvalidOperation.
Proof.
  unfold of_string. destruct (split_sign _) as [n b].
  destruct (parse_special n b); [left; eexists; reflexivity|].
  destruct (parse_finite n b); [left; eexists; reflexivity | right; reflexivity].
Qed.

Lemma span_digits_no_digit s : no_digit s -> span_digits s = ([], s).
Proof.
  destruct s as [|c r]; [reflexivity|].
  intros H. apply no_digit_cons in H. simpl. rewrite (proj1 H). reflexivity.
Qed.

Lemma match_body_no_digit s : no_digit s -> match_body s = None.
Proof.
  intros H. unfold match_body. rewrite (span_digits_no_digit s H).
  destruct s as [|c r]; [reflexivity|].
  apply no_digit_cons in H.
  destruct (is_sep c); [|reflexivity].
  rewrite (span_digits_no_digit r (proj2 H)). reflexivity.
Qed.

Lemma re_search_no_digit s : no_digit s -> re_search_number s = None.
Proof.
  induction s as [|c r IH]; intros H; [reflexivity|].
  change (match match_at (c :: r) with
          | Some m => Some m | None => re_search_number r end = None).
  assert (Hm : match_at (c :: r) = None).
  { unfold match_at. pose proof (no_digit_cons _ _ H) as [_ Hr].
    rewrite (match_body_no_digit _ H).
    destruct (is_sign c); [rewrite (match_body_no_digit _ Hr)|]; reflexivity. }
  rewrite Hm. apply IH. exact (proj2 (no_digit_cons _ _ H)).
Qed.

(** Claim C8 (counterexample): text that [Decimal] cannot read is not
    always [None]: the fallback regex extracts the leading number of
    ["1.2.3"] and of ["12 kg"], and ["NaN"] parses to a NaN. *)
Lemma parse_italian_decimal_counterexample :
  parse_str "1.2.3" = Ok (Some (DFin 12 (-1)))
  /\ parse_str "12 kg" = Ok (Some (DFin 12 0))
  /\ parse_str "NaN" = Ok (Some (DNaN false)).
Proof. vm_compute. repeat split. Qed.

(** Claim C8 (amended): [parse_italian_decimal] never raises on a
    string; ["126,911"] gives [126.911], ["1.234,56"] gives [1234.56],
    ["1234.56"] gives [1234.56]; an empty or blank string gives [None];
    a string without any digit gives no finite value ([None], or an
    Infinity or NaN for the special names); text that [Decimal] cannot
    read goes to the fallback regex; and the function applied to its own
    result (a [Decimal] or [None]) returns that result unchanged. *)
Theorem parse_italian_decimal_spec :
  (forall s, exists r, parse_italian_decimal (VStr s) = Ok r) /\
  parse_str "126,911" = Ok (Some (DFin 126911 (-3))) /\
  parse_str "1.234,56" = Ok (Some (DFin 123456 (-2))) /\
  parse_str "1234.56" = Ok (Some (DFin 123456 (-2))) /\
  parse_str "" = Ok None /\
  (forall s, strip s = [] -> parse_italian_decimal (VStr s) = Ok None) /\
  (forall s, no_digit s ->
   forall m e, parse_italian_decimal (VStr s) <> Ok (Some (DFin m e))) /\
  (forall v r, parse_italian_decimal v = Ok r ->
   parse_italian_decimal (of_result r) = Ok r).
Proof.
  split; [|split; [vm_compute; reflexivity|split; [vm_compute; reflexivity|
          split; [vm_compute; reflexivity|split; [vm_compute; reflexivity|split; [|split]]]]]].
  - intros s. unfold parse_italian_decimal.
    destruct (strip s) as [|a l]; [eexists; reflexivity|].
    destruct (of_string_cases (standardize (a :: l))) as [[d Hd]|Hd]; rewrite Hd;
      [eexists; reflexivity|].
    destruct (re_search_number (a :: l)) as [m|]; [|eexists; reflexivity].
    destruct (of_string_cases (replace_char "," (lit ".") m)) as [[d Hd']|Hd'];
      rewrite Hd'; eexists; reflexivity.
  - intros s Hs. unfold parse_italian_decimal. rewrite Hs. reflexivity.
  - intros s Hs m e. unfold parse_italian_decimal.
    destruct (strip s) as [|a l] eqn:Es; [discriminate|].
    assert (Hl : no_digit (a :: l)).
    { intros c Hc. apply Hs. rewrite <- Es in Hc. exact (In_strip _ _ Hc). }
    destruct (of_string (standardize (a :: l))) as [d|err] eqn:Ho.
    + intros H. inversion H; subst d.
      destruct (of_string_fin_digit _ _ _ Ho) as [c [Hc Hd]].
      destruct (In_standardize _ _ Hc) as [Hc'|Hc'].
      * rewrite (Hl c Hc') in Hd. discriminate.
      * subst c. discriminate.
    + destruct err; try discriminate.
      rewrite (re_search_no_digit _ Hl). discriminate.
  - intros v [d|] _; reflexivity.
Qed.

Lemma parse_italian_decimal_spec_witness :
  no_digit (lit "n/d") /\
  forall m e, parse_italian_decimal (VStr (lit "n/d")) <> Ok (Some (DFin m e)).
Proof.
  assert (H : no_digit (lit "n/d")).
  { intros c Hc. simpl in Hc.
    destruct Hc as [<-|[<-|[<-|[]]]]; reflexivity. }
  split; [exact H|].
  exact (proj1 (proj2 (proj2 (proj2 (proj2 (proj2 (proj2 parse_italian_decimal_spec))))))
           _ H).
Defined.

End ParseFacts.

(* ------------------------------------------------------------------ *)
(** ** Decimal arithmetic without rounding *)

Module DecFacts.

Import CheckDefs.
Open Scope Z_scope.

Lemma pow10_ge1 x : 0 <= x -> 1 <= 10 ^ x.
Proof. intros H. pose proof (Z.pow_pos_nonneg 10 x ltac:(lia) H). lia. Qed.

Lemma ndigits_fuel_le (fuel : nat) : forall a k,
  0 < a -> a < 10 ^ k -> 1 <= k -> ndigits_fuel fuel a <= k.
Proof.
  induction fuel as [|f IH]; intros a k Ha Hk H1; cbn [ndigits_fuel]; [lia|].
  destruct (a <? 10) eqn:E; [lia|].
  apply Z.ltb_ge in E.
  assert (Hk2 : 2 <= k).
  { destruct (Z.eq_dec k 1) as [->|]; [simpl in Hk; lia | lia]. }
  assert (Hd : a / 10 < 10 ^ (k - 1)).
  { apply Z.div_lt_upper_bound; [lia|].
    replace (10 * 10 ^ (k - 1)) with (10 ^ k); [exact Hk|].
    rewrite <- Z.pow_succ_r by lia. f_equal; lia. }
  assert (Hp : 0 < a / 10) by (apply Z.div_str_pos; lia).
  specialize (IH (a / 10) (k - 1) Hp Hd ltac:(lia)). lia.
Qed.

Lemma context_fix_exact m e :
  Z.abs m < 10 ^ 28 -> Etiny <= e <= Etop -> context_fix m e = Ok (DFin m e).
Proof.
  intros Hm He. unfold context_fix.
  destruct (m =? 0) eqn:E0.
  - apply Z.eqb_eq in E0. subst m. f_equal. f_equal.
    unfold Etiny, Etop, Emin, Emax, prec in *. lia.
  - apply Z.eqb_neq in E0.
    assert (Hn : ndigits (Z.abs m) <= 28).
    { apply ndigits_fuel_le; lia. }
    unfold prec.
    destruct (Etop <? ndigits (Z.abs m) + e - 28) eqn:E1;
      [apply Z.ltb_lt in E1; lia|].
    destruct (e <? Z.max (ndigits (Z.abs m) + e - 28) Etiny) eqn:E2;
      [apply Z.ltb_lt in E2; lia|].
    reflexivity.
Qed.

Lemma pos_inv_inject (x : Z) : 0 < x -> (1 # Z.to_pos x == / inject_Z x)%Q.
Proof. intros H. destruct x; try lia. reflexivity. Qed.

Lemma pow10_Qpower e : (pow10 e == inject_Z 10 ^ e)%Q.
Proof.
  unfold pow10. destruct (0 <=? e) eqn:E.
  - apply Z.leb_le in E. apply Zpower_Qpower. exact E.
  - apply Z.leb_gt in E.
    rewrite pos_inv_inject by (apply Z.pow_pos_nonneg; lia).
    rewrite Zpower_Qpower by lia.
    rewrite <- Qpower_opp, Z.opp_involutive. reflexivity.
Qed.

Lemma pow10_pos e : (0 < pow10 e)%Q.
Proof.
  unfold pow10. destruct (0 <=? e) eqn:E.
  - apply Z.leb_le in E. change 0%Q with (inject_Z 0). rewrite <- Zlt_Qlt.
    apply Z.pow_pos_nonneg; lia.
  - reflexivity.
Qed.

Lemma fin_value_shift m e d :
  0 <= d -> (fin_value (m * 10 ^ d) e == fin_value m (e + d))%Q.
Proof.
  intros Hd. unfold fin_value. rewrite !pow10_Qpower.
  rewrite inject_Z_mult, Zpower_Qpower by exact Hd.
  rewrite Qpower_plus by discriminate.
  rewrite <- Qmult_assoc. apply Qmult_comp; [reflexivity|]. apply Qmult_comm.
Qed.

Lemma fin_value_plus m1 m2 e :
  (fin_value (m1 + m2) e == fin_value m1 e + fin_value m2 e)%Q.
Proof. unfold fin_value. rewrite inject_Z_plus. apply Qmult_plus_distr_l. Qed.

Lemma fin_value_opp m e : (fin_value (- m) e == - fin_value m e)%Q.
Proof. unfold fin_value. rewrite inject_Z_opp. ring. Qed.

Lemma fin_value_mul m1 e1 m2 e2 :
  (fin_value (m1 * m2) (e1 + e2) == fin_value m1 e1 * fin_value m2 e2)%Q.
Proof.
  unfold fin_value. rewrite !pow10_Qpower, inject_Z_mult.
  rewrite Qpower_plus by discriminate. ring.
Qed.

Lemma fin_value_abs m e : (fin_value (Z.abs m) e == Qabs (fin_value m e))%Q.
Proof.
  unfold fin_value. rewrite Qabs_Qmult.
  rewrite (Qabs_pos (pow10 e)) by (apply Qlt_le_weak, pow10_pos).
  reflexivity.
Qed.

Lemma fin_value_zero e : (fin_value 0 e == 0)%Q.
Proof. unfold fin_value. ring. Qed.

Lemma scaled_abs_le L m e B : scaled L m e B -> Z.abs m <= B.
Proof.
  intros [He Hb].
  assert (1 <= 10 ^ (e + L)) by (apply pow10_ge1; lia).
  nia.
Qed.

Lemma add_exact L M1 E1 M2 E2 B1 B2 :
  0 <= L <= 100 -> scaled L M1 E1 B1 -> scaled L M2 E2 B2 -> B1 + B2 < 10 ^ 28 ->
  exists M, add (DFin M1 E1) (DFin M2 E2) = Ok (DFin M (Z.min E1 E2))
    /\ scaled L M (Z.min E1 E2) (B1 + B2)
    /\ (fin_value M (Z.min E1 E2) == fin_value M1 E1 + fin_value M2 E2)%Q.
Proof.
  intros HL [He1 Hb1] [He2 Hb2] HB.
  set (E := Z.min E1 E2).
  set (M := M1 * 10 ^ (E1 - E) + M2 * 10 ^ (E2 - E)).
  assert (P1 : 10 ^ (E1 - E) * 10 ^ (E + L) = 10 ^ (E1 + L)).
  { rewrite <- Z.pow_add_r by lia. f_equal; lia. }
  assert (P2 : 10 ^ (E2 - E) * 10 ^ (E + L) = 10 ^ (E2 + L)).
  { rewrite <- Z.pow_add_r by lia. f_equal; lia. }
  assert (Q1 : 0 < 10 ^ (E1 - E)) by (apply Z.pow_pos_nonneg; lia).
  assert (Q2 : 0 < 10 ^ (E2 - E)) by (apply Z.pow_pos_nonneg; lia).
  assert (Q0 : 1 <= 10 ^ (E + L)) by (apply pow10_ge1; lia).
  assert (HM : Z.abs M * 10 ^ (E + L) <= B1 + B2).
  { unfold M.
    assert (T : Z.abs (M1 * 10 ^ (E1 - E) + M2 * 10 ^ (E2 - E))
                <= Z.abs M1 * 10 ^ (E1 - E) + Z.abs M2 * 10 ^ (E2 - E)).
    { rewrite <- (Z.abs_eq (10 ^ (E1 - E))) at 2 by lia.
      rewrite <- (Z.abs_eq (10 ^ (E2 - E))) at 2 by lia.
      rewrite <- !Z.abs_mul. apply Z.abs_triangle. }
    revert T P1 P2 Hb1 Hb2 Q0.
    generalize (10 ^ (E1 - E)) (10 ^ (E2 - E)) (10 ^ (E + L))
               (10 ^ (E1 + L)) (10 ^ (E2 + L)).
    intros p1 p2 q r1 r2 T P1 P2 Hb1 Hb2 Q0. nia. }
  exists M. split; [|split].
  - unfold add. simpl. fold E. fold M. apply context_fix_exact.
    + nia.
    + unfold Etiny, Etop, Emin, Emax, prec in *. lia.
  - split; [unfold Etop in *; lia | exact HM].
  - unfold M. rewrite fin_value_plus.
    rewrite !fin_value_shift by lia.
    replace (E + (E1 - E)) with E1 by lia.
    replace (E + (E2 - E)) with E2 by lia. reflexivity.
Qed.

Lemma abs_exact L m e B :
  0 <= L <= 100 -> scaled L m e B -> B < 10 ^ 28 ->
  abs (DFin m e) = Ok (DFin (Z.abs m) e).
Proof.
  intros HL Hs HB. pose proof (scaled_abs_le _ _ _ _ Hs) as Ha.
  destruct Hs as [He _]. unfold abs. apply context_fix_exact.
  - rewrite Z.abs_idemp. lia.
  - unfold Etiny, Etop, Emin, Emax, prec in *. lia.
Qed.

Lemma mul_exact L1 L2 m1 e1 m2 e2 B1 B2 :
  0 <= L1 <= 50 -> 0 <= L2 <= 50 -> e1 + e2 <= Etop ->
  scaled L1 m1 e1 B1 -> scaled L2 m2 e2 B2 -> B1 * B2 < 10 ^ 28 ->
  mul (DFin m1 e1) (DFin m2 e2) = Ok (DFin (m1 * m2) (e1 + e2))
  /\ scaled (L1 + L2) (m1 * m2) (e1 + e2) (B1 * B2).
Proof.
  intros H1 H2 Htop [He1 Hb1] [He2 Hb2] HB.
  assert (P : 10 ^ (e1 + L1) * 10 ^ (e2 + L2) = 10 ^ (e1 + e2 + (L1 + L2))).
  { rewrite <- Z.pow_add_r by lia. f_equal; lia. }
  assert (Q1 : 1 <= 10 ^ (e1 + L1)) by (apply pow10_ge1; lia).
  assert (Q2 : 1 <= 10 ^ (e2 + L2)) by (apply pow10_ge1; lia).
  assert (HM : Z.abs (m1 * m2) * 10 ^ (e1 + e2 + (L1 + L2)) <= B1 * B2).
  { rewrite <- P, Z.abs_mul.
    revert Hb1 Hb2 Q1 Q2. generalize (10 ^ (e1 + L1)) (10 ^ (e2 + L2)).
    intros q1 q2 Hb1 Hb2 Q1 Q2.
    apply Z.le_trans with ((Z.abs m1 * q1) * (Z.abs m2 * q2)); [nia|].
    apply Z.mul_le_mono_nonneg; nia. }
  assert (Q : 1 <= 10 ^ (e1 + e2 + (L1 + L2))) by (apply pow10_ge1; lia).
  split.
  - unfold mul. simpl. apply context_fix_exact; [nia|].
    unfold Etiny, Etop, Emin, Emax, prec in *. lia.
  - split; [lia | exact HM].
Qed.

End DecFacts.

(* ------------------------------------------------------------------ *)
(** ** Final validations, checksum and success flag *)

Module CompilerFacts.

Import Validator Compiler CheckDefs DecFacts.

Lemma perform_fields cfg r :
  parsing_errors (perform_final_validations cfg r)
    = parsing_errors r ++ checksum_errors cfg (products r) (bill_data r) /\
  validation_checksum_ok (perform_final_validations cfg r)
    = checksum_flag cfg (products r) (bill_data r) || validation_checksum_ok r /\
  bill_data (perform_final_validations cfg r) = bill_data r.
Proof.
  unfold perform_final_validations, checksum_errors, checksum_flag.
  destruct (validate_checksums cfg); simpl.
  - destruct (checksum_body (products r) (bill_data r)) as [[ok errs]|e]; simpl;
      repeat split.
  - rewrite app_nil_r. repeat split.
Qed.

Lemma footer_ok ff r page_data_list r2 :
  extract_footer_information ff r page_data_list = Ok r2 ->
  parsing_errors r2 = parsing_errors r /\
  validation_checksum_ok r2 = validation_checksum_ok r /\
  footer_fails (bill_data r) page_data_list = false.
Proof.
  unfold extract_footer_information, footer_fails.
  destruct (bill_data r).
  - destruct page_data_list; intros H; inversion H; subst; repeat split.
  - destruct (existsb _ _); intros H; inversion H; subst; repeat split.
Qed.

Lemma footer_err ff r page_data_list e :
  extract_footer_information ff r page_data_list = Err e ->
  footer_fails (bill_data r) page_data_list = true.
Proof.
  unfold extract_footer_information, footer_fails.
  destruct (bill_data r).
  - destruct page_data_list; discriminate.
  - destruct (existsb _ _); [reflexivity | discriminate].
Qed.

Lemma compile_fields ci ff cfg bd pages vrs :
  let r := compile_final_result ci ff cfg bd pages vrs in
  parsing_errors r = checksum_errors cfg (compile_products pages vrs) bd
                     ++ (if footer_fails bd pages then [PCompileError] else []) /\
  validation_checksum_ok r = checksum_flag cfg (compile_products pages vrs) bd /\
  success r = Nat.eqb (List.length (parsing_errors r)) 0.
Proof.
  intros r. unfold r, compile_final_result. cbv zeta.
  match goal with |- context [perform_final_validations cfg ?r0] =>
    pose proof (perform_fields cfg r0) as [P1 [P2 P3]];
    set (r1 := perform_final_validations cfg r0) in * end.
  simpl in P1, P2, P3.
  destruct (extract_footer_information ff r1 pages) as [r2|e] eqn:F.
  - destruct (footer_ok _ _ _ _ F) as [F1 [F2 F3]].
    rewrite P3 in F3. rewrite F3. simpl.
    rewrite F1, F2, P1, P2, orb_false_r, app_nil_r. repeat split.
  - pose proof (footer_err _ _ _ _ F) as F3. rewrite P3 in F3. rewrite F3. simpl.
    rewrite P1, P2, orb_false_r. simpl. split; [reflexivity|split; [reflexivity|]].
    rewrite length_app. simpl. rewrite Nat.add_comm. reflexivity.
Qed.

Lemma footer_fails_text bd p1 p2 :
  map raw_text p1 = map raw_text p2 -> footer_fails bd p1 = footer_fails bd p2.
Proof.
  intros H. unfold footer_fails. destruct bd; [reflexivity|].
  assert (E : forall l, existsb (fun pg => match raw_text pg with [] => false | _ => true end) l
                = existsb (fun t : list ascii => match t with [] => false | _ => true end)
                          (map raw_text l)).
  { induction l as [|a l IH]; simpl; [reflexivity|]. rewrite IH. reflexivity. }
  rewrite !E. unfold pages_to_search.
  assert (L : List.length p1 = List.length p2).
  { rewrite <- (length_map raw_text p1), <- (length_map raw_text p2), H. reflexivity. }
  rewrite L. destruct (Nat.leb 2 (List.length p2)); rewrite <- ?skipn_map, H; reflexivity.
Qed.

Lemma scaled_mono L m e B B' : scaled L m e B -> (B <= B')%Z -> scaled L m e B'.
Proof. intros [H1 H2] H. split; [exact H1 | lia]. Qed.

Lemma sum_totals_exact (ps : list product) : forall M E k,
  scaled 6 M E (k * 10 ^ 13) -> (E <= -1)%Z -> (0 <= k)%Z ->
  (k + Z.of_nat (List.length ps) <= 10 ^ 14)%Z -> Forall total_in_range ps ->
  exists M' E', sum_totals (DFin M E) ps = Ok (DFin M' E') /\ (E' <= -1)%Z /\
    scaled 6 M' E' ((k + Z.of_nat (List.length ps)) * 10 ^ 13) /\
    (fin_value M' E' == fin_value M E + sum_values ps)%Q.
Proof.
  induction ps as [|p r IH]; intros M E k Hs HE Hk Hn Hall.
  - exists M, E. split; [reflexivity|]. split; [exact HE|]. split.
    + simpl. rewrite Z.add_0_r. exact Hs.
    + simpl. ring.
  - inversion Hall as [|x y Hp Hr]; subst x y.
    simpl List.length in Hn |- *. rewrite Nat2Z.inj_succ in Hn |- *.
    cbn [sum_totals sum_values fold_right].
    fold (sum_values r).
    assert (Skip : (total_value p == 0)%Q ->
                   exists M' E', sum_totals (DFin M E) r = Ok (DFin M' E') /\ (E' <= -1)%Z /\
                     scaled 6 M' E' ((k + Z.succ (Z.of_nat (List.length r))) * 10 ^ 13) /\
                     (fin_value M' E' == fin_value M E + (total_value p + sum_values r))%Q).
    { intros Hz. destruct (IH M E k Hs HE Hk ltac:(lia) Hr) as [M' [E' [R1 [R2 [R3 R4]]]]].
      exists M', E'. split; [exact R1|]. split; [exact R2|]. split.
      - apply (scaled_mono _ _ _ _ _ R3). nia.
      - rewrite R4, Hz. ring. }
    unfold total_in_range in Hp. unfold total_value in Skip |- *.
    destruct (str_truthy (p_total_price p)) eqn:T; [|apply Skip; reflexivity].
    specialize (Hp eq_refl).
    destruct (parse_italian_decimal (arg (p_total_price p))) as [[d|]|err] eqn:P;
      try contradiction; [|apply Skip; reflexivity].
    destruct d as [m e| |]; try contradiction.
    destruct (Dec.truthy (DFin m e)) eqn:Tr.
    + simpl in Tr. destruct Hp as [Hm|Hp]; [subst m; discriminate|].
      assert (Hsum : (k * 10 ^ 13 + 10 ^ 13 < 10 ^ 28)%Z).
      { assert (k + 1 <= 10 ^ 14)%Z by lia.
        replace (10 ^ 28)%Z with (10 ^ 14 * 10 ^ 14)%Z by reflexivity.
        replace (10 ^ 14)%Z with (10 * 10 ^ 13)%Z at 2 by reflexivity. nia. }
      destruct (add_exact 6 M E m e _ _ ltac:(lia) Hs Hp Hsum) as [M1 [A1 [A2 A3]]].
      rewrite A1. cbn [res_bind].
      replace (k * 10 ^ 13 + 10 ^ 13)%Z with ((k + 1) * 10 ^ 13)%Z in A2 by ring.
      destruct (IH M1 (Z.min E e) (k + 1) A2 ltac:(lia) ltac:(lia) ltac:(lia) Hr)
        as [M' [E' [R1 [R2 [R3 R4]]]]].
      exists M', E'. split; [exact R1|]. split; [exact R2|]. split.
      * replace (k + Z.succ (Z.of_nat (List.length r)))%Z
          with (k + 1 + Z.of_nat (List.length r))%Z by lia. exact R3.
      * rewrite R4, A3. ring.
    + apply Skip. simpl in Tr. apply negb_false_iff, Z.eqb_eq in Tr. subst m.
      apply fin_value_zero.
Qed.

Lemma checksum_body_exact ps b s ms es :
  total_amount b = Some s ->
  parse_italian_decimal (VStr s) = Ok (Some (DFin ms es)) ->
  ms <> 0%Z -> scaled 6 ms es (10 ^ 13) ->
  Forall total_in_range ps -> (Z.of_nat (List.length ps) <= 10 ^ 14)%Z ->
  match checksum_body ps (Some b) with
  | Ok (ok, errs) =>
      (ok = true <-> (Qabs (fin_value ms es - sum_values ps) <= 1 # 100)%Q) /\
      (ok = false -> exists a c d, errs = [PChecksumMismatch a c d])
  | Err _ => False
  end.
Proof.
  intros Hs Hp Hnz Hr Hall Hn.
  assert (H0 : scaled 6 0 (-1) (0 * 10 ^ 13)) by (split; simpl; unfold Etop, Emax, prec; lia).
  destruct (sum_totals_exact ps 0 (-1) 0 H0 ltac:(lia) ltac:(lia) ltac:(lia) Hall)
    as [M [E [S1 [S2 [S3 S4]]]]].
  unfold checksum_body. rewrite S1. cbn [res_bind]. rewrite Hs.
  destruct s as [|c s']; [simpl in Hp; discriminate|].
  cbn [str_truthy Validator.str_truthy arg]. rewrite Hp. cbn [res_bind].
  unfold opt_truthy, Dec.truthy. apply Z.eqb_neq in Hnz. rewrite Hnz. simpl negb.
  cbv iota.
  assert (Hneg : scaled 6 (- M) E ((0 + Z.of_nat (List.length ps)) * 10 ^ 13)).
  { destruct S3 as [S3a S3b]. split; [exact S3a|]. rewrite Z.abs_opp. exact S3b. }
  assert (Hsum : (10 ^ 13 + (0 + Z.of_nat (List.length ps)) * 10 ^ 13 < 10 ^ 28)%Z).
  { replace (10 ^ 28)%Z with (10 ^ 14 * 10 ^ 14)%Z by reflexivity.
    replace (10 ^ 14)%Z with (10 * 10 ^ 13)%Z at 2 by reflexivity. nia. }
  destruct (add_exact 6 ms es (- M) E _ _ ltac:(lia) Hr Hneg Hsum) as [D [A1 [A2 A3]]].
  unfold sub. cbn [neg]. rewrite A1. cbn [res_bind].
  rewrite (abs_exact 6 D (Z.min es E) _ ltac:(lia) A2 Hsum). cbn [res_bind].
  unfold Dec.le, cmp. cbn [res_bind].
  assert (HX : (fin_value (Z.abs D) (Z.min es E) == Qabs (fin_value ms es - sum_values ps))%Q).
  { rewrite fin_value_abs, A3, fin_value_opp, S4, fin_value_zero.
    apply Qabs_wd. ring. }
  change (fin_value 1 (-2)) with (1 # 100)%Q.
  destruct (fin_value (Z.abs D) (Z.min es E) ?= 1 # 100)%Q eqn:C; simpl;
    rewrite <- HX, Qle_alt, C.
  - split; [split; [intros _; discriminate | reflexivity] | discriminate].
  - split; [split; [intros _; discriminate | reflexivity] | discriminate].
  - split; [split; [discriminate | intros H; contradiction] |].
    intros _. do 3 eexists. reflexivity.
Qed.

(** Claim C3 (failing input): with checksums on, a declared total [0,00]
    parses to a zero [Decimal], which [if stated_total:] takes for a
    missing value: "Could not parse stated total amount" is recorded and
    the flag is [False], although the sum of the (no) line totals is [0]
    and the difference is within [0.01].  (With [validate_checksums] off
    the check is skipped and the flag stays [False] too, for the five
    totals against [250,51].) *)
Lemma compile_checksum_counterexample :
  validation_checksum_ok
    (compile_final_result ci0 ff0 cfg_nocheck (Some (bill_total "250,51"))
                          [page_of five_totals []] []) = false
  /\ parse_str "0,00" = Ok (Some (DFin 0 (-2)))
  /\ sum_values (compile_products [page_of [] []] []) = 0%Q
  /\ validation_checksum_ok
       (compile_final_result ci0 ff0 cfg_on (Some (bill_total "0,00"))
                             [page_of [] []] []) = false
  /\ parsing_errors
       (compile_final_result ci0 ff0 cfg_on (Some (bill_total "0,00"))
                             [page_of [] []] []) = [PCouldNotParseTotal].
Proof. vm_compute. repeat split. Qed.

(** Claim C3 (what the code does outside the zero case): when checksum
    validation is enabled and the
    declared grand total parses to a non-zero finite decimal (at most ten
    million, at most six decimals), and each compiled line-item total is
    empty, unparseable, zero, or such a decimal (fewer than 10^14 items),
    [validation_checksum_ok] is true if and only if the declared total and
    the exact sum of the line-item totals differ by at most [0.01]; when
    it is false a checksum-mismatch entry is in [parsing_errors]. *)
Theorem compile_checksum_spec ci ff cfg b pages vrs s ms es
  (Hcfg : validate_checksums cfg = true) (Hs : total_amount b = Some s)
  (Hp : parse_italian_decimal (VStr s) = Ok (Some (DFin ms es)))
  (Hnz : ms <> 0%Z) (Hr : scaled 6 ms es (10 ^ 13))
  (Hall : Forall total_in_range (compile_products pages vrs))
  (Hn : (Z.of_nat (List.length (compile_products pages vrs)) <= 10 ^ 14)%Z) :
  let r := compile_final_result ci ff cfg (Some b) pages vrs in
  (validation_checksum_ok r = true <->
   (Qabs (fin_value ms es - sum_values (compile_products pages vrs)) <= 1 # 100)%Q) /\
  (validation_checksum_ok r = false ->
   exists a c d, In (PChecksumMismatch a c d) (parsing_errors r)).
Proof.
  intros r. destruct (compile_fields ci ff cfg (Some b) pages vrs) as [F1 [F2 _]].
  fold r in F1, F2.
  pose proof (checksum_body_exact _ _ _ _ _ Hs Hp Hnz Hr Hall Hn) as K.
  unfold checksum_flag, checksum_errors in *. rewrite Hcfg in F1, F2.
  destruct (checksum_body (compile_products pages vrs) (Some b)) as [[ok errs]|e];
    [|contradiction].
  destruct K as [K1 K2]. rewrite F2. split; [exact K1|].
  intros Hf. destruct (K2 Hf) as [a [c [d Ed]]]. exists a, c, d.
  rewrite F1, Ed. left; reflexivity.
Qed.

Lemma five_totals_in_range : Forall total_in_range five_totals.
Proof.
  apply Forall_forall. intros p Hp. unfold five_totals in Hp. simpl in Hp.
  repeat destruct Hp as [<-|Hp]; try contradiction;
    intros _; vm_compute; right;
    (split; [split; intros H; discriminate H | intros H; discriminate H]).
Qed.

Lemma compile_checksum_spec_witness :
  validate_checksums cfg_on = true
  /\ parse_str "250,51" = Ok (Some (DFin 25051 (-2)))
  /\ parse_str "260,00" = Ok (Some (DFin 26000 (-2)))
  /\ scaled 6 25051 (-2) (10 ^ 13) /\ scaled 6 26000 (-2) (10 ^ 13)
  /\ compile_products [page_of five_totals []] [] = five_totals
  /\ validation_checksum_ok
       (compile_final_result ci0 ff0 cfg_on (Some (bill_total "250,51"))
                             [page_of five_totals []] []) = true
  /\ validation_checksum_ok
       (compile_final_result ci0 ff0 cfg_on (Some (bill_total "260,00"))
                             [page_of five_totals []] []) = false
  /\ exists a c d, In (PChecksumMismatch a c d)
       (parsing_errors (compile_final_result ci0 ff0 cfg_on (Some (bill_total "260,00"))
                                             [page_of five_totals []] [])).
Proof.
  assert (Sc1 : scaled 6 25051 (-2) (10 ^ 13))
    by (unfold scaled, Etop, Emax, prec; simpl; lia).
  assert (Sc2 : scaled 6 26000 (-2) (10 ^ 13))
    by (unfold scaled, Etop, Emax, prec; simpl; lia).
  assert (Hps : compile_products [page_of five_totals []] [] = five_totals)
    by reflexivity.
  assert (Hall : Forall total_in_range (compile_products [page_of five_totals []] []))
    by (rewrite Hps; exact five_totals_in_range).
  assert (Hn : (Z.of_nat (List.length (compile_products [page_of five_totals []] []))
                <= 10 ^ 14)%Z) by (rewrite Hps; simpl; lia).
  pose proof (compile_checksum_spec ci0 ff0 cfg_on (bill_total "250,51")
                [page_of five_totals []] [] (lit "250,51") 25051 (-2)
                eq_refl eq_refl ltac:(vm_compute; reflexivity) ltac:(discriminate)
                Sc1 Hall Hn) as [T1 _].
  pose proof (compile_checksum_spec ci0 ff0 cfg_on (bill_total "260,00")
                [page_of five_totals []] [] (lit "260,00") 26000 (-2)
                eq_refl eq_refl ltac:(vm_compute; reflexivity) ltac:(discriminate)
                Sc2 Hall Hn) as [T2 T3].
  assert (F : validation_checksum_ok
       (compile_final_result ci0 ff0 cfg_on (Some (bill_total "260,00"))
                             [page_of five_totals []] []) = false).
  { apply not_true_is_false. intros V. apply T2 in V. apply Qle_bool_iff in V. vm_compute in V. discriminate V. }
  split; [reflexivity|]. split; [vm_compute; reflexivity|].
  split; [vm_compute; reflexivity|]. split; [exact Sc1|]. split; [exact Sc2|].
  split; [exact Hps|]. split.
  - apply T1. apply Qle_bool_iff. vm_compute. reflexivity.
  - split; [exact F | exact (T3 F)].
Defined.

(** Claim C4 (failing input): the five totals against a declared
    [260,00] give a checksum mismatch, and the mismatch, appended to
    [parsing_errors], makes [success = False] instead of leaving a
    warning.  Also a page carrying a page-local error still gives
    [success = True] (page errors are never copied into the result). *)
Lemma compile_final_result_counterexample :
  let pg := page_of [prod_total "10"] [lit "Error processing table 1"] in
  pg_errors pg <> []
  /\ success (compile_final_result ci0 ff0 cfg_on (Some (bill_total "10")) [pg] []) = true
  /\ validation_checksum_ok
       (compile_final_result ci0 ff0 cfg_on (Some (bill_total "260,00"))
                             [page_of five_totals []] []) = false
  /\ success (compile_final_result ci0 ff0 cfg_on (Some (bill_total "260,00"))
                                   [page_of five_totals []] []) = false.
Proof. vm_compute. split; [discriminate|]. repeat split. Qed.

(** Claim C4 (what the code does): [parsing_errors] of the compiled result is made
    of the entries of the final validations (checksum mismatch,
    unparseable or missing declared total, checksum error) followed by
    the compilation error when the footer step raises; the page-local
    errors of the pages and the per-page validation outcomes do not
    appear (the result depends on the pages only through their texts and
    the compiled line items).  [success] is true exactly when
    [parsing_errors] is empty, so a checksum mismatch makes it false. *)
Theorem compile_final_result_success ci ff cfg bd pages vrs :
  let r := compile_final_result ci ff cfg bd pages vrs in
  parsing_errors r = checksum_errors cfg (compile_products pages vrs) bd
                     ++ (if footer_fails bd pages then [PCompileError] else []) /\
  (success r = true <-> parsing_errors r = []) /\
  (forall a c d, In (PChecksumMismatch a c d) (parsing_errors r) -> success r = false) /\
  (forall pages' vrs',
     map raw_text pages' = map raw_text pages ->
     compile_products pages' vrs' = compile_products pages vrs ->
     success (compile_final_result ci ff cfg bd pages' vrs') = success r /\
     parsing_errors (compile_final_result ci ff cfg bd pages' vrs') = parsing_errors r).
Proof.
  intros r. destruct (compile_fields ci ff cfg bd pages vrs) as [F1 [_ F3]].
  fold r in F1, F3.
  assert (Iff : success r = true <-> parsing_errors r = []).
  { rewrite F3. destruct (parsing_errors r); simpl; split; congruence. }
  split; [exact F1|]. split; [exact Iff|]. split.
  - intros a c d Hin. apply not_true_is_false. intros Hs.
    apply Iff in Hs. rewrite Hs in Hin. contradiction.
  - intros pages' vrs' Ht Hp.
    destruct (compile_fields ci ff cfg bd pages' vrs') as [G1 [_ G3]].
    rewrite Hp, (footer_fails_text bd pages' pages Ht) in G1.
    rewrite <- F1 in G1. split; [rewrite G3, F3, G1; reflexivity | exact G1].
Qed.

Lemma compile_final_result_success_witness :
  let pg := page_of [prod_total "10"] [lit "Error processing table 1"] in
  map raw_text [pg] = map raw_text [page_of [prod_total "10"] []]
  /\ compile_products [pg] [] = compile_products [page_of [prod_total "10"] []] []
  /\ success (compile_final_result ci0 ff0 cfg_on (Some (bill_total "10")) [pg] [])
     = success (compile_final_result ci0 ff0 cfg_on (Some (bill_total "10"))
                                     [page_of [prod_total "10"] []] []).
Proof.
  intros pg. split; [reflexivity|]. split; [reflexivity|].
  apply (proj1 (proj2 (proj2 (proj2
           (compile_final_result_success ci0 ff0 cfg_on (Some (bill_total "10"))
              [page_of [prod_total "10"] []] []))) [pg] [] eq_refl eq_refl)).
Defined.

End CompilerFacts.

(* ------------------------------------------------------------------ *)
(** ** Delivery deduplication *)

Module DeliveryFacts.

Import Compiler Assoc DeliveryDefs.

Lemma list_eqb_eq (s t : list ascii) : list_eqb s t = true <-> s = t.
Proof.
  revert t. induction s as [|c s IH]; intros [|d t]; simpl;
    try (split; [discriminate | congruence]); [split; reflexivity|].
  rewrite andb_true_iff, Ascii.eqb_eq, IH. split; [intros [-> ->]; reflexivity|].
  intros H; inversion H; split; reflexivity.
Qed.

Lemma list_eqb_false (s t : list ascii) : list_eqb s t = false <-> s <> t.
Proof.
  rewrite <- list_eqb_eq. destruct (list_eqb s t); split; congruence.
Qed.

Lemma existsb_key (k : list ascii) (ks : list (list ascii)) :
  existsb (fun k' => list_eqb k' k) ks = true <-> In k ks.
Proof.
  rewrite existsb_exists. split.
  - intros [x [Hx E]]. apply list_eqb_eq in E. subst. exact Hx.
  - intros H. exists k. split; [exact H | apply list_eqb_eq; reflexivity].
Qed.

Lemma key_with_products d ps : ddt_key (with_products d ps) = ddt_key d.
Proof. reflexivity. Qed.

Lemma with_products_self d : with_products d (d_products d) = d.
Proof. destruct d; reflexivity. Qed.

Lemma firsts_keys seen ds k :
  In k (map ddt_key (firsts seen ds)) \/ In k seen <-> In k (map ddt_key ds) \/ In k seen.
Proof.
  revert seen. induction ds as [|d r IH]; intros seen; simpl; [tauto|].
  destruct (existsb (fun k' => list_eqb k' (ddt_key d)) seen) eqn:E.
  - apply existsb_key in E. rewrite IH.
    split; [tauto|]. intros [[H|H]|H]; [subst; tauto | tauto | tauto].
  - simpl. specialize (IH (ddt_key d :: seen)). simpl in IH. tauto.
Qed.

Lemma firsts_nodup seen ds :
  NoDup (map ddt_key (firsts seen ds)) /\
  forall k, In k (map ddt_key (firsts seen ds)) -> ~ In k seen.
Proof.
  revert seen. induction ds as [|d r IH]; intros seen; simpl.
  - split; [constructor | tauto].
  - destruct (existsb (fun k' => list_eqb k' (ddt_key d)) seen) eqn:E; [apply IH|].
    destruct (IH (ddt_key d :: seen)) as [N1 N2]. simpl.
    assert (Hd : ~ In (ddt_key d) seen).
    { intros H. apply existsb_key in H. congruence. }
    split.
    + constructor; [|exact N1]. intros H. apply (N2 _ H). left; reflexivity.
    + intros k [<-|H]; [exact Hd|]. intros Hk. apply (N2 _ H). right; exact Hk.
Qed.

Lemma existsb_key_ext (ks1 ks2 : list (list ascii)) k :
  (In k ks1 <-> In k ks2) ->
  existsb (fun k' => list_eqb k' k) ks1 = existsb (fun k' => list_eqb k' k) ks2.
Proof.
  intros H.
  destruct (existsb (fun k' => list_eqb k' k) ks1) eqn:A;
  destruct (existsb (fun k' => list_eqb k' k) ks2) eqn:B; try reflexivity.
  - apply existsb_key in A. apply H in A. apply existsb_key in A. congruence.
  - apply existsb_key in B. apply H in B. apply existsb_key in B. congruence.
Qed.

Lemma firsts_app seen ds d :
  firsts seen (ds ++ [d]) =
  firsts seen ds ++
  (if existsb (fun k => list_eqb k (ddt_key d)) (seen ++ map ddt_key ds) then [] else [d]).
Proof.
  revert seen. induction ds as [|x r IH]; intros seen; simpl.
  - rewrite app_nil_r. destruct (existsb _ seen); reflexivity.
  - destruct (existsb (fun k => list_eqb k (ddt_key x)) seen) eqn:E.
    + rewrite IH. f_equal.
      rewrite (existsb_key_ext (seen ++ map ddt_key r) (seen ++ ddt_key x :: map ddt_key r));
        [reflexivity|].
      apply existsb_key in E. rewrite !in_app_iff. simpl.
      split; [tauto|]. intros [H|[H|H]]; [tauto | rewrite <- H; tauto | tauto].
    + simpl. rewrite IH. f_equal. f_equal.
      rewrite (existsb_key_ext ((ddt_key x :: seen) ++ map ddt_key r)
                               (seen ++ ddt_key x :: map ddt_key r)); [reflexivity|].
      rewrite !in_app_iff. simpl. tauto.
Qed.

Lemma extend_products_nodup k extra (l : list delivery) :
  NoDup (map ddt_key l) ->
  extend_products k extra l =
  map (fun u => if list_eqb (ddt_key u) k then with_products u (d_products u ++ extra) else u) l.
Proof.
  induction l as [|u r IH]; intros N; simpl; [reflexivity|].
  inversion N as [|x y Hu Nr]; subst.
  destruct (list_eqb (ddt_key u) k) eqn:E.
  - f_equal. apply list_eqb_eq in E. subst k.
    transitivity (map (fun x => x) r); [symmetry; apply map_id|].
    apply map_ext_in. intros x Hx.
    destruct (list_eqb (ddt_key x) (ddt_key u)) eqn:F; [|reflexivity].
    apply list_eqb_eq in F. exfalso. apply Hu. rewrite <- F. apply in_map. exact Hx.
  - f_equal. apply IH. exact Nr.
Qed.

Lemma existsb_keys_map (U : list delivery) k :
  existsb (fun u => list_eqb (ddt_key u) k) U = existsb (fun k' => list_eqb k' k) (map ddt_key U).
Proof. induction U as [|u U IH]; simpl; [reflexivity | rewrite IH; reflexivity]. Qed.

Lemma bfo_keys P : map ddt_key (by_first_occurrence P) = map ddt_key (firsts [] P).
Proof. unfold by_first_occurrence. rewrite map_map. reflexivity. Qed.

Lemma firsts_in_keys P k : In k (map ddt_key (firsts [] P)) <-> In k (map ddt_key P).
Proof. pose proof (firsts_keys [] P k) as H. simpl in H. tauto. Qed.

Lemma filter_same_key_app k P d :
  filter (same_key k) (P ++ [d]) =
  filter (same_key k) P ++ (if same_key k d then [d] else []).
Proof. rewrite filter_app. simpl. destruct (same_key k d); reflexivity. Qed.

Lemma filter_same_key_absent k P :
  ~ In k (map ddt_key P) -> filter (same_key k) P = [].
Proof.
  intros H. induction P as [|x P IH]; simpl in *; [reflexivity|].
  unfold same_key at 1. destruct (list_eqb (ddt_key x) k) eqn:E.
  - apply list_eqb_eq in E. tauto.
  - apply IH. tauto.
Qed.

(** One step of the deduplication loop on the first-occurrence view *)
Lemma bfo_snoc P d :
  by_first_occurrence (P ++ [d]) =
  if existsb (fun u => list_eqb (ddt_key u) (ddt_key d)) (by_first_occurrence P)
  then extend_products (ddt_key d) (d_products d) (by_first_occurrence P)
  else by_first_occurrence P ++ [d].
Proof.
  rewrite existsb_keys_map, bfo_keys.
  unfold by_first_occurrence at 1. rewrite firsts_app. rewrite app_nil_l.
  rewrite (existsb_key_ext (map ddt_key (firsts [] P)) (map ddt_key P)) by apply firsts_in_keys.
  destruct (existsb (fun k => list_eqb k (ddt_key d)) (map ddt_key P)) eqn:E.
  - rewrite app_nil_r, extend_products_nodup.
    2:{ rewrite bfo_keys. apply (firsts_nodup [] P). }
    unfold by_first_occurrence. rewrite map_map. apply map_ext_in. intros u Hu.
    rewrite filter_same_key_app. simpl ddt_key at 2.
    unfold same_key at 2. rewrite key_with_products.
    destruct (list_eqb (ddt_key u) (ddt_key d)) eqn:F.
    + apply list_eqb_eq in F. rewrite F, (proj2 (list_eqb_eq _ _) eq_refl), flat_map_app.
      simpl. rewrite app_nil_r. reflexivity.
    + apply list_eqb_false in F.
      rewrite (proj2 (list_eqb_false (ddt_key d) (ddt_key u))) by congruence.
      rewrite app_nil_r. reflexivity.
  - rewrite map_app. f_equal.
    + apply map_ext_in. intros u Hu. rewrite filter_same_key_app.
      unfold same_key at 2. destruct (list_eqb (ddt_key d) (ddt_key u)) eqn:F;
        [|rewrite app_nil_r; reflexivity].
      exfalso. apply list_eqb_eq in F. apply not_true_iff_false in E. apply E.
      apply existsb_key. rewrite F. apply firsts_in_keys. apply in_map. exact Hu.
    + simpl. f_equal. rewrite filter_same_key_app, filter_same_key_absent.
      * unfold same_key. rewrite (proj2 (list_eqb_eq _ _) eq_refl). simpl.
        rewrite app_nil_r. apply with_products_self.
      * intros H. apply existsb_key in H. congruence.
Qed.

Lemma dedup_bfo P r :
  dedup_deliveries (by_first_occurrence P) r = by_first_occurrence (P ++ r).
Proof.
  revert P. induction r as [|d r IH]; intros P; simpl.
  - rewrite app_nil_r. reflexivity.
  - replace (P ++ d :: r) with ((P ++ [d]) ++ r) by (rewrite <- app_assoc; reflexivity).
    rewrite <- IH, bfo_snoc.
    destruct (existsb _ (by_first_occurrence P)); reflexivity.
Qed.

Lemma extend_products_perm k extra U :
  existsb (fun u => list_eqb (ddt_key u) k) U = true ->
  Permutation (flat_map d_products (extend_products k extra U))
              (flat_map d_products U ++ extra).
Proof.
  induction U as [|u U IH]; simpl; [discriminate|].
  destruct (list_eqb (ddt_key u) k); simpl; intros H.
  - rewrite <- !app_assoc. apply Permutation_app_head, Permutation_app_comm.
  - rewrite <- app_assoc. apply Permutation_app_head, IH, H.
Qed.

Lemma dedup_perm U ds :
  Permutation (flat_map d_products (dedup_deliveries U ds))
              (flat_map d_products U ++ flat_map d_products ds).
Proof.
  revert U. induction ds as [|d r IH]; intros U; simpl.
  - rewrite app_nil_r. reflexivity.
  - destruct (existsb (fun u => list_eqb (ddt_key u) (ddt_key d)) U) eqn:E.
    + rewrite IH, extend_products_perm by exact E. rewrite app_assoc. reflexivity.
    + rewrite IH, flat_map_app. simpl. rewrite app_nil_r, app_assoc. reflexivity.
Qed.

Lemma complete_from_products ci pl inc i ds :
  flat_map d_products (complete_from ci pl inc i ds) = flat_map d_products ds.
Proof.
  revert i. induction ds as [|d r IH]; intros i; simpl; [reflexivity|].
  rewrite IH. reflexivity.
Qed.

Lemma merge_cross_page_perm ci L pl :
  Permutation (flat_map d_products (merge_cross_page_deliveries ci L pl))
              (flat_map d_products L).
Proof.
  unfold merge_cross_page_deliveries.
  rewrite flat_map_app, complete_from_products.
  induction L as [|d L IH]; simpl; [reflexivity|].
  destruct (is_incomplete d); simpl.
  - rewrite Permutation_app_swap_app. apply Permutation_app_head, IH.
  - rewrite <- app_assoc. apply Permutation_app_head, IH.
Qed.

Lemma filter_split_perm {A} (p : A -> bool) (l : list A) :
  Permutation (filter (fun x => negb (p x)) l ++ filter p l) l.
Proof.
  induction l as [|x l IH]; simpl; [reflexivity|].
  destruct (p x); simpl.
  - rewrite <- Permutation_middle. apply perm_skip, IH.
  - apply perm_skip, IH.
Qed.

Lemma complete_from_ids ci pl inc i ds :
  map (fun d => (ddt_series d, ddt_number d, d_products d)) (complete_from ci pl inc i ds) =
  map (fun d => (ddt_series d, ddt_number d, d_products d)) ds.
Proof.
  revert i. induction ds as [|d r IH]; intros i; simpl; [reflexivity|].
  rewrite IH. reflexivity.
Qed.

Lemma compile_delivery_data_bfo ci pages :
  compile_delivery_data ci pages =
  by_first_occurrence (merge_cross_page_deliveries ci (collected_deliveries pages) pages).
Proof.
  change (dedup_deliveries (by_first_occurrence [])
            (merge_cross_page_deliveries ci (collected_deliveries pages) pages) =
          by_first_occurrence (merge_cross_page_deliveries ci (collected_deliveries pages) pages)).
  rewrite dedup_bfo. reflexivity.
Qed.

(** C9 (counterexample): delivery [S1/100] occurs first on page 1, without
    model data, and again on page 2, with it.  The compiled list keeps the
    page-2 record, which [_merge_cross_page_deliveries] puts first, and its
    products are those of page 2 followed by those of page 1. *)
Lemma compile_delivery_data_counterexample :
  collected_deliveries pages_dup = [ddt_incomplete; ddt_complete] /\
  compile_delivery_data CheckDefs.ci0 pages_dup =
    [with_products ddt_complete [prod_code "MMA2"; prod_code "MMA1"]].
Proof. split; vm_compute; reflexivity. Qed.

(** C9: the compiled delivery list is the list [L] returned by
    [_merge_cross_page_deliveries] (the deliveries collected from the pages,
    complete ones first, then the incomplete ones after their completion
    attempt) reduced to the first occurrence in [L] of each key
    [f"{ddt_series}_{ddt_number}"], each holding the products of all the
    deliveries of [L] with its key, in the order of [L].  No two compiled
    deliveries share a key, hence none share a (series, number) pair, and
    the compiled products are a permutation of the products of the
    collected deliveries: no product is lost or duplicated. *)
Theorem compile_delivery_data_dedup ci pages :
  let L := merge_cross_page_deliveries ci (collected_deliveries pages) pages in
  let R := compile_delivery_data ci pages in
  Permutation (map (fun d => (ddt_series d, ddt_number d, d_products d)) L)
              (map (fun d => (ddt_series d, ddt_number d, d_products d))
                   (collected_deliveries pages)) /\
  R = by_first_occurrence L /\
  NoDup (map ddt_key R) /\
  NoDup (map (fun d => (ddt_series d, ddt_number d)) R) /\
  Permutation (flat_map d_products R) (flat_map d_products (collected_deliveries pages)).
Proof.
  intros L R.
  assert (HR : R = by_first_occurrence L) by apply compile_delivery_data_bfo.
  assert (HK : NoDup (map ddt_key R)).
  { rewrite HR, bfo_keys. apply (firsts_nodup [] L). }
  split; [|split; [exact HR | split; [exact HK | split]]].
  - unfold L, merge_cross_page_deliveries. rewrite map_app, complete_from_ids.
    rewrite <- !map_app. apply Permutation_map, filter_split_perm.
  - apply (NoDup_map_inv (fun p => fmt_opt (fst p) ++ "_"%char :: fmt_opt (snd p))).
    rewrite map_map. exact HK.
  - unfold R. change (compile_delivery_data ci pages) with (dedup_deliveries [] L).
    rewrite dedup_perm. simpl. apply merge_cross_page_perm.
Qed.

End DeliveryFacts.

(* ------------------------------------------------------------------ *)
(** ** Product-to-delivery association *)

Module AssocFacts.

Import Compiler Assoc AssocDefs.

Lemma nth_error_snoc (l : list nat) x k :
  nth_error (l ++ [x]) k =
  if k <? List.length l then nth_error l k else if k =? List.length l then Some x else None.
Proof.
  destruct (k <? List.length l) eqn:E.
  - apply Nat.ltb_lt in E. apply nth_error_app1; exact E.
  - apply Nat.ltb_ge in E. rewrite nth_error_app2 by exact E.
    destruct (k =? List.length l) eqn:F.
    + apply Nat.eqb_eq in F. rewrite F, Nat.sub_diag. reflexivity.
    + apply Nat.eqb_neq in F. destruct (k - List.length l) as [|n] eqn:G; [lia|].
      destruct n; reflexivity.
Qed.

Ltac snoc_cases Hk :=
  rewrite nth_error_snoc in Hk;
  match type of Hk with
  | context [?k <? ?n] =>
      let E1 := fresh "E" in let E2 := fresh "E" in
      destruct (k <? n) eqn:E1;
      [apply Nat.ltb_lt in E1
      |destruct (k =? n) eqn:E2;
        [apply Nat.eqb_eq in E2; subst k; injection Hk as <- | discriminate]]
  end.

Lemma closest_from_inv q dps : forall prefix best,
  closest_inv q prefix best ->
  match closest_from q (List.length prefix) best dps with
  | None => forall dk, In dk (prefix ++ dps) -> q < dk
  | Some j => closest_preceding q (prefix ++ dps) j
  end.
Proof.
  induction dps as [|dp r IH]; intros prefix best Hinv.
  - rewrite app_nil_r. destruct best as [[bd bi]|]; simpl in *; [apply Hinv | exact Hinv].
  - replace (prefix ++ dp :: r) with ((prefix ++ [dp]) ++ r) by (rewrite <- app_assoc; reflexivity).
    cbn [closest_from].
    replace (S (List.length prefix)) with (List.length (prefix ++ [dp])) by (rewrite length_app; simpl; lia).
    destruct (dp <=? q) eqn:Hle; [apply Nat.leb_le in Hle | apply Nat.leb_gt in Hle].
    + destruct best as [[bd bi]|].
      * destruct Hinv as [[dj [Hj [Hjq Hall]]] Hbd].
        assert (Hbi : bi < List.length prefix) by (apply nth_error_Some; congruence).
        rewrite (nth_error_nth _ _ _ Hj) in Hbd.
        destruct (q - dp <? bd) eqn:Hlt; [apply Nat.ltb_lt in Hlt | apply Nat.ltb_ge in Hlt];
          apply IH; simpl; split.
        -- exists dp. rewrite nth_error_snoc, Nat.ltb_irrefl, Nat.eqb_refl.
           split; [reflexivity | split; [exact Hle|]].
           intros k dk Hk Hdk. snoc_cases Hk; [|lia].
           destruct (Hall k dk Hk Hdk). lia.
        -- rewrite app_nth2, Nat.sub_diag by lia. reflexivity.
        -- exists dj. rewrite nth_error_snoc, (proj2 (Nat.ltb_lt _ _) Hbi).
           split; [exact Hj | split; [exact Hjq|]].
           intros k dk Hk Hdk. snoc_cases Hk; [apply Hall; assumption | lia].
        -- rewrite app_nth1 by exact Hbi. rewrite (nth_error_nth _ _ _ Hj). exact Hbd.
      * apply IH. simpl in *. split.
        -- exists dp. rewrite nth_error_snoc, Nat.ltb_irrefl, Nat.eqb_refl.
           split; [reflexivity | split; [exact Hle|]].
           intros k dk Hk Hdk. snoc_cases Hk; [|lia].
           exfalso. specialize (Hinv dk (nth_error_In _ _ Hk)). lia.
        -- rewrite app_nth2, Nat.sub_diag by lia. reflexivity.
    + apply IH. destruct best as [[bd bi]|]; simpl in *.
      * destruct Hinv as [[dj [Hj [Hjq Hall]]] Hbd].
        assert (Hbi : bi < List.length prefix) by (apply nth_error_Some; congruence).
        split.
        -- exists dj. rewrite nth_error_snoc, (proj2 (Nat.ltb_lt _ _) Hbi).
           split; [exact Hj | split; [exact Hjq|]].
           intros k dk Hk Hdk. snoc_cases Hk; [apply Hall; assumption | lia].
        -- rewrite app_nth1 by exact Hbi. exact Hbd.
      * intros dk Hdk. apply in_app_or in Hdk. destruct Hdk as [H|[<-|[]]]; [apply Hinv, H | lia].
Qed.

Lemma find_closest_spec q dps :
  match find_closest_preceding_delivery q dps with
  | None => forall dk, In dk dps -> q < dk
  | Some j => closest_preceding q dps j
  end.
Proof. apply (closest_from_inv q dps [] None). intros dk []. Qed.

Lemma target_closest q dps :
  (exists k dk, nth_error dps k = Some dk /\ dk <= q) ->
  closest_preceding q dps (target q dps).
Proof.
  intros [k [dk [Hk Hdk]]]. pose proof (find_closest_spec q dps) as H. unfold target.
  destruct (find_closest_preceding_delivery q dps); [exact H|].
  specialize (H dk (nth_error_In _ _ Hk)). lia.
Qed.

Lemma target_none q dps :
  (forall dk, In dk dps -> q < dk) -> target q dps = 0.
Proof.
  intros Hall. pose proof (find_closest_spec q dps) as H. unfold target.
  destruct (find_closest_preceding_delivery q dps) as [j|]; [|reflexivity].
  destruct H as [dj [Hj [Hjq _]]]. specialize (Hall dj (nth_error_In _ _ Hj)). lia.
Qed.

Lemma target_lt q dps : dps <> [] -> target q dps < List.length dps.
Proof.
  intros Hne. pose proof (find_closest_spec q dps) as H. unfold target.
  destruct (find_closest_preceding_delivery q dps) as [j|].
  - destruct H as [dj [Hj _]]. apply nth_error_Some. congruence.
  - destruct dps; [congruence | simpl; lia].
Qed.

Lemma search_le f text p : search f text = Some p -> p <= List.length text.
Proof.
  unfold search. intros H. apply find_some in H. destruct H as [H _].
  apply in_seq in H. lia.
Qed.

Lemma delivery_positions_le text ds :
  Forall (fun dp => dp <= List.length text) (find_delivery_positions text ds).
Proof.
  unfold find_delivery_positions. apply Forall_map, Forall_forall. intros d _.
  unfold delivery_position.
  destruct (search (ddt_match_at _ _ text) text) as [p|] eqn:E; [exact (search_le _ _ _ E)|].
  destruct (search (number_match_at _ text) text) as [p|] eqn:F; [exact (search_le _ _ _ F) | lia].
Qed.

Lemma find_product_positions_ok text ps :
  forallb has_code ps = true ->
  find_product_positions text ps = Ok (map (code_position text) ps).
Proof.
  induction ps as [|p r IH]; simpl; [reflexivity|].
  intros H. apply andb_true_iff in H. destruct H as [Hp Hr].
  unfold product_position, code_position, has_code in *.
  destruct (p_product_code p); [|discriminate].
  rewrite IH by exact Hr. reflexivity.
Qed.

Lemma with_assigned_ext f g i ds :
  (forall k, i <= k -> f k = g k) -> with_assigned f i ds = with_assigned g i ds.
Proof.
  revert i. induction ds as [|d r IH]; intros i H; simpl; [reflexivity|].
  rewrite (H i) by lia. f_equal. apply IH. intros k Hk. apply H. lia.
Qed.

Lemma append_at_with_assigned j p f i ds :
  append_at j p (with_assigned f i ds) =
  with_assigned (fun k => if k =? i + j then f k ++ [p] else f k) i ds.
Proof.
  revert i j. induction ds as [|d r IH]; intros i j; simpl; [destruct j; reflexivity|].
  destruct j as [|j]; cbn [append_at].
  - rewrite Nat.add_0_r, Nat.eqb_refl. f_equal. apply with_assigned_ext.
    intros k Hk. destruct (k =? i) eqn:E; [apply Nat.eqb_eq in E; lia | reflexivity].
  - rewrite IH. f_equal.
    + destruct (i =? i + S j) eqn:E; [apply Nat.eqb_eq in E; lia | reflexivity].
    + apply with_assigned_ext. intros k Hk.
      replace (S i + j) with (i + S j) by lia. reflexivity.
Qed.

Lemma fold_append_at dps xs f ds :
  fold_left (fun acc '(p, pos) => append_at (target pos dps) p acc) xs (with_assigned f 0 ds) =
  with_assigned (fun j => f j ++ assigned dps xs j) 0 ds.
Proof.
  revert f. induction xs as [|[p q] r IH]; intros f; simpl.
  - apply with_assigned_ext. intros k _. rewrite app_nil_r. reflexivity.
  - rewrite append_at_with_assigned, IH. apply with_assigned_ext. intros k _.
    unfold assigned. simpl. rewrite (Nat.eqb_sym (target q dps) k).
    destruct (k =? target q dps); simpl; [rewrite <- app_assoc|]; reflexivity.
Qed.

Lemma cleared_with_assigned ds i :
  map (fun d => with_products d []) ds = with_assigned (fun _ => []) i ds.
Proof.
  revert i. induction ds as [|d r IH]; intros i; simpl; [reflexivity|].
  rewrite (IH (S i)). reflexivity.
Qed.

Lemma associate_multi pg d1 d2 ds' p ps' :
  all_deliveries pg = d1 :: d2 :: ds' -> pg_products pg = p :: ps' ->
  forallb has_code (p :: ps') = true ->
  associate_products_with_deliveries pg =
  Ok (with_assigned (assigned (find_delivery_positions (raw_text pg) (d1 :: d2 :: ds'))
                              (combine (p :: ps') (map (code_position (raw_text pg)) (p :: ps'))))
                    0 (d1 :: d2 :: ds')).
Proof.
  intros Hd Hp Hc. unfold associate_products_with_deliveries. rewrite Hd, Hp.
  cbv beta iota zeta. rewrite find_product_positions_ok by exact Hc.
  cbn [res_bind]. rewrite (cleared_with_assigned _ 0), fold_append_at. reflexivity.
Qed.

(** C5: association of a page's products with its deliveries.  With one
    delivery and some products, the delivery receives all the products.
    With two or more, each product is appended, in page order, to the
    delivery of index [target pos dps], where [pos] is the position of its
    code in the page text ([len(text)] when absent) and [dps] the delivery
    positions; that index holds the closest delivery position at or before
    [pos] (the first such index on ties), and is [0], the first delivery,
    when no delivery position is at or before [pos].  Every delivery
    position is at most [len(text)], so a product whose code is absent goes
    to the delivery found last in the text.  The products' codes are
    assumed set, as [_validate_product_data] and the row loop of
    [_extract_products_from_table] ensure (with a [None] code,
    [re.escape] raises). *)
Theorem associate_products_with_deliveries_spec (pg : page)
  (Hcodes : forallb has_code (pg_products pg) = true) :
  let ds := all_deliveries pg in
  let ps := pg_products pg in
  let text := raw_text pg in
  let dps := find_delivery_positions text ds in
  (forall d, ds = [d] -> ps <> [] ->
     associate_products_with_deliveries pg = Ok [with_products d ps]) /\
  (2 <= List.length ds -> ps <> [] ->
     associate_products_with_deliveries pg =
     Ok (with_assigned (assigned dps (combine ps (map (code_position text) ps))) 0 ds)) /\
  Forall (fun p => find_product_positions text [p] =
                   Ok [match p_product_code p with
                       | Some c => match find c text with
                                   | Some q => q
                                   | None => List.length text
                                   end
                       | None => 0
                       end]) ps /\
  Forall (fun dp => dp <= List.length text) dps /\
  (forall pos, (exists k dk, nth_error dps k = Some dk /\ dk <= pos) ->
     closest_preceding pos dps (target pos dps)) /\
  (forall pos, (forall dk, In dk dps -> pos < dk) -> target pos dps = 0) /\
  (forall pos, ds <> [] -> target pos dps < List.length ds) /\
  target 300 [50; 900] = 0 /\ target 950 [50; 900] = 1.
Proof.
  intros ds ps text dps.
  assert (Hlen : List.length dps = List.length ds) by apply length_map.
  split; [|split; [|split; [|split; [|split; [|split; [|split]]]]]].
  - intros d Hd Hps. unfold associate_products_with_deliveries.
    fold ds ps. rewrite Hd. destruct ps; [congruence | reflexivity].
  - intros H2 Hps. unfold dps, text, ps, ds in *.
    destruct (all_deliveries pg) as [|d1 [|d2 ds']] eqn:Eds; [simpl in H2; lia | simpl in H2; lia|].
    destruct (pg_products pg) as [|p ps'] eqn:Eps; [congruence|].
    apply associate_multi; assumption.
  - apply Forall_forall. intros p Hp. simpl.
    assert (Hc : has_code p = true).
    { apply forallb_forall with (x := p) in Hcodes; assumption. }
    unfold product_position, has_code in *. destruct (p_product_code p); [reflexivity | discriminate].
  - apply delivery_positions_le.
  - intros pos H. apply target_closest, H.
  - intros pos H. apply target_none, H.
  - intros pos Hne. rewrite <- Hlen. apply target_lt.
    intros E. apply Hne. apply map_eq_nil in E. exact E.
  - split; reflexivity.
Qed.

(** The test page: [MMA1] goes to [S1/100], [MMA2] and the absent [ZZZ]
    to [S2/200]. *)
Lemma associate_products_with_deliveries_spec_witness :
  forallb has_code (pg_products assoc_page) = true /\
  find_delivery_positions (raw_text assoc_page) (all_deliveries assoc_page) = [12; 57] /\
  associate_products_with_deliveries assoc_page =
  Ok [with_products ddt_s1 [DeliveryDefs.prod_code "MMA1"];
      with_products ddt_s2 [DeliveryDefs.prod_code "MMA2"; DeliveryDefs.prod_code "ZZZ"]].
Proof.
  split; [reflexivity|]. split; [vm_compute; reflexivity|].
  destruct (associate_products_with_deliveries_spec assoc_page eq_refl) as [_ [H2 _]].
  rewrite H2; [vm_compute; reflexivity | simpl; lia | discriminate].
Defined.

End AssocFacts.

(* ------------------------------------------------------------------ *)
(** ** Table boundaries *)

Module BoundsFacts.

Import Bounds BoundsDefs.

(** *** Float comparison on ordinary coordinates *)

Local Open Scope Z_scope.

Ltac zbool :=
  repeat match goal with
  | |- context [Z.ltb ?x ?y] => destruct (Z.ltb_spec x y)
  | |- context [Z.eqb ?x ?y] => destruct (Z.eqb_spec x y)
  | H : context [Z.ltb ?x ?y] |- _ => destruct (Z.ltb_spec x y)
  | H : context [Z.eqb ?x ?y] |- _ => destruct (Z.eqb_spec x y)
  end; simpl in *.

Lemma SFltb_key a b :
  a <> SpecFloat.S754_nan -> b <> SpecFloat.S754_nan ->
  SpecFloat.SFltb a b = lex_ltb (sf_key a) (sf_key b).
Proof.
  intros Ha Hb.
  destruct a as [[]|[]| |[] m1 e1]; try congruence;
  destruct b as [[]|[]| |[] m2 e2]; try congruence; try reflexivity;
  unfold SpecFloat.SFltb, SpecFloat.SFcompare, lex_ltb, sf_key;
  try (change (Pos.compare_cont Eq m1 m2) with (Z.compare (Zpos m1) (Zpos m2)));
  try (change (Zneg m1 <? Zneg m2) with (match CompOpp (Z.compare (Zpos m1) (Zpos m2)) with Lt => true | _ => false end));
  try (change (Zpos m1 <? Zpos m2) with (match Z.compare (Zpos m1) (Zpos m2) with Lt => true | _ => false end));
  destruct (Z.compare_spec e1 e2); destruct (Z.compare_spec (Zpos m1) (Zpos m2));
  simpl; zbool; try reflexivity; lia.
Qed.

Lemma lex_irrefl a : lex_ltb a a = false.
Proof. destruct a as [[a1 a2] a3]. unfold lex_ltb. zbool; lia. Qed.

Lemma lex_trans a b c : lex_ltb a b = true -> lex_ltb b c = true -> lex_ltb a c = true.
Proof.
  destruct a as [[a1 a2] a3], b as [[b1 b2] b3], c as [[c1 c2] c3]. unfold lex_ltb.
  zbool; intros; try reflexivity; try discriminate; lia.
Qed.

Lemma lex_total a b : lex_ltb a b = false -> lex_ltb b a = false -> a = b.
Proof.
  destruct a as [[a1 a2] a3], b as [[b1 b2] b3]. unfold lex_ltb.
  zbool; intros; try discriminate; repeat f_equal; lia.
Qed.

Lemma sf_key_inj a b :
  a <> SpecFloat.S754_nan -> b <> SpecFloat.S754_nan ->
  a <> SpecFloat.S754_zero true -> b <> SpecFloat.S754_zero true ->
  sf_key a = sf_key b -> a = b.
Proof.
  intros Ha Hb Za Zb.
  destruct a as [[]|[]| |[] m1 e1]; try congruence;
  destruct b as [[]|[]| |[] m2 e2]; try congruence; simpl; intros H; inversion H;
    try reflexivity; f_equal; lia.
Qed.

Lemma ordinary_sf x :
  ordinary x = true ->
  FloatOps.Prim2SF x <> SpecFloat.S754_nan /\ FloatOps.Prim2SF x <> SpecFloat.S754_zero true.
Proof.
  unfold ordinary. destruct (FloatOps.Prim2SF x) as [[]|[]| |[] m e]; simpl; intros H;
    try discriminate; split; discriminate.
Qed.

Lemma flt_key x y :
  ordinary x = true -> ordinary y = true ->
  flt x y = lex_ltb (sf_key (FloatOps.Prim2SF x)) (sf_key (FloatOps.Prim2SF y)).
Proof.
  intros Hx Hy. apply ordinary_sf in Hx, Hy. unfold flt.
  rewrite FloatAxioms.ltb_spec. apply SFltb_key; tauto.
Qed.

Lemma flt_irrefl x : ordinary x = true -> flt x x = false.
Proof. intros H. rewrite flt_key by exact H. apply lex_irrefl. Qed.

Lemma flt_trans x y z :
  ordinary x = true -> ordinary y = true -> ordinary z = true ->
  flt x y = true -> flt y z = true -> flt x z = true.
Proof.
  intros Hx Hy Hz. rewrite !flt_key by assumption. apply lex_trans.
Qed.

Lemma flt_total x y :
  ordinary x = true -> ordinary y = true ->
  flt x y = false -> flt y x = false -> x = y.
Proof.
  intros Hx Hy. rewrite !flt_key by assumption. intros A B.
  apply FloatAxioms.Prim2SF_inj.
  apply ordinary_sf in Hx, Hy.
  apply sf_key_inj; try tauto. apply lex_total; assumption.
Qed.

Local Close Scope Z_scope.

(** *** The stable sort on a strict total order *)

Section SortFacts.

Variable A : Type.
Variable lt : A -> A -> bool.
Variable P : A -> Prop.
Hypothesis lt_irrefl : forall x, P x -> lt x x = false.
Hypothesis lt_trans : forall x y z, P x -> P y -> P z ->
  lt x y = true -> lt y z = true -> lt x z = true.
Hypothesis lt_total : forall x y, P x -> P y -> lt x y = false -> lt y x = false -> x = y.

Lemma lt_asym x y : P x -> P y -> lt x y = true -> lt y x = false.
Proof.
  intros Px Py H. apply not_true_is_false. intros H'.
  pose proof (lt_trans x y x Px Py Px H H') as C. rewrite lt_irrefl in C by exact Px.
  discriminate.
Qed.

Lemma nlt_trans x y z : P x -> P y -> P z ->
  lt y x = false -> lt z y = false -> lt z x = false.
Proof.
  intros Px Py Pz H1 H2. apply not_true_is_false. intros H3.
  destruct (lt x y) eqn:E.
  - rewrite (lt_trans z x y Pz Px Py H3 E) in H2. discriminate.
  - rewrite (lt_total x y Px Py E H1) in H3. congruence.
Qed.

Lemma insert_perm x l : Permutation (insert lt x l) (x :: l).
Proof.
  induction l as [|y r IH]; simpl; [reflexivity|].
  destruct (lt x y); [reflexivity|].
  rewrite IH. apply perm_swap.
Qed.

Lemma insert_sorted x l :
  P x -> Forall P l -> ssorted lt l -> ssorted lt (insert lt x l).
Proof.
  intros Px. induction l as [|y r IH]; intros Hl Hs; simpl.
  - split; [constructor | exact I].
  - inversion Hl as [|y' r' Py Pr]; subst. destruct Hs as [Hy Hr].
    destruct (lt x y) eqn:E; simpl.
    + split; [|split; assumption]. constructor.
      * apply lt_asym; assumption.
      * apply Forall_forall. intros z Hz.
        rewrite Forall_forall in Hy, Pr.
        apply (nlt_trans x y z Px Py); [apply Pr, Hz | apply lt_asym; assumption | apply Hy, Hz].
    + split; [|apply IH; assumption].
      apply Forall_forall. intros z Hz.
      apply (Permutation_in _ (insert_perm x r)) in Hz. destruct Hz as [<-|Hz]; [exact E|].
      rewrite Forall_forall in Hy. apply Hy, Hz.
Qed.

Lemma fold_insert_spec l acc :
  Forall P l -> Forall P acc -> ssorted lt acc ->
  Permutation (fold_left (fun acc x => insert lt x acc) l acc) (l ++ acc) /\
  ssorted lt (fold_left (fun acc x => insert lt x acc) l acc).
Proof.
  revert acc. induction l as [|x r IH]; intros acc Hl Hacc Hs; simpl; [split; [reflexivity | exact Hs]|].
  inversion Hl as [|x' r' Px Pr]; subst.
  assert (Hi : Forall P (insert lt x acc)).
  { apply Forall_forall. intros z Hz. apply (Permutation_in _ (insert_perm x acc)) in Hz.
    destruct Hz as [<-|Hz]; [exact Px | rewrite Forall_forall in Hacc; apply Hacc, Hz]. }
  destruct (IH (insert lt x acc) Pr Hi (insert_sorted x acc Px Hacc Hs)) as [H1 H2].
  split; [|exact H2].
  rewrite H1, insert_perm. apply Permutation_sym, Permutation_middle.
Qed.

Lemma sort_spec l : Forall P l -> Permutation (sort lt l) l /\ ssorted lt (sort lt l).
Proof.
  intros Hl. unfold sort. rewrite <- (app_nil_r l) at 2.
  apply fold_insert_spec; [exact Hl | constructor | exact I].
Qed.

Lemma sorted_unique l1 l2 :
  Forall P l1 -> ssorted lt l1 -> ssorted lt l2 -> Permutation l1 l2 -> l1 = l2.
Proof.
  revert l2. induction l1 as [|a r1 IH]; intros l2 Hl Hs1 Hs2 Hp.
  - symmetry. apply Permutation_nil, Hp.
  - destruct l2 as [|b r2]; [apply Permutation_sym, Permutation_nil in Hp; discriminate|].
    inversion Hl as [|a' r' Pa Pr]; subst.
    destruct Hs1 as [H1 R1], Hs2 as [H2 R2].
    assert (Pb : P b).
    { rewrite Forall_forall in Hl. apply Hl. apply (Permutation_in _ (Permutation_sym Hp)). left; reflexivity. }
    assert (Hab : a = b).
    { apply lt_total; try assumption.
      - apply (Permutation_in a) in Hp; [|left; reflexivity].
        destruct Hp as [<-|Hp]; [apply lt_irrefl, Pa|].
        rewrite Forall_forall in H2. apply H2, Hp.
      - apply (Permutation_in b) in Hp as Hb'; [|apply (Permutation_in _ (Permutation_sym Hp)); left; reflexivity].
        assert (Hb : In b (a :: r1)) by (apply (Permutation_in _ (Permutation_sym Hp)); left; reflexivity).
        destruct Hb as [<-|Hb]; [apply lt_irrefl, Pa|].
        rewrite Forall_forall in H1. apply H1, Hb. }
    subst b. f_equal. apply IH; try assumption. apply Permutation_cons_inv with a, Hp.
Qed.

Lemma sort_perm_eq l l' : Forall P l -> Permutation l l' -> sort lt l = sort lt l'.
Proof.
  intros Hl Hp.
  assert (Hl' : Forall P l').
  { apply Forall_forall. intros z Hz. rewrite Forall_forall in Hl.
    apply Hl, (Permutation_in _ (Permutation_sym Hp)), Hz. }
  destruct (sort_spec l Hl) as [P1 S1], (sort_spec l' Hl') as [P2 S2].
  apply sorted_unique; try assumption.
  - apply Forall_forall. intros z Hz. rewrite Forall_forall in Hl.
    apply Hl, (Permutation_in _ P1), Hz.
  - rewrite P1, P2. exact Hp.
Qed.

End SortFacts.


(** *** Markers and their [y] coordinates *)

Definition ord_P (x : float) : Prop := ordinary x = true.

Lemma flt_irrefl' x : ord_P x -> flt x x = false.
Proof. apply flt_irrefl. Qed.

Lemma flt_trans' x y z : ord_P x -> ord_P y -> ord_P z ->
  flt x y = true -> flt y z = true -> flt x z = true.
Proof. apply flt_trans. Qed.

Lemma flt_total' x y : ord_P x -> ord_P y -> flt x y = false -> flt y x = false -> x = y.
Proof. apply flt_total. Qed.

Lemma insert_m_y x l :
  map m_y (insert marker_lt x l) = insert flt (m_y x) (map m_y l).
Proof.
  induction l as [|y r IH]; [reflexivity|]. cbn [insert map].
  unfold marker_lt at 1, flt at 1. destruct (m_y x <? m_y y)%float; [reflexivity|].
  cbn [map]. f_equal. exact IH.
Qed.

Lemma sort_m_y l : map m_y (sort marker_lt l) = sort flt (map m_y l).
Proof.
  unfold sort. change (@nil float) with (map m_y (@nil marker)).
  generalize (@nil marker) as acc.
  induction l as [|x r IH]; intros acc; simpl; [reflexivity|].
  rewrite IH, insert_m_y. reflexivity.
Qed.

Lemma find_map {X Y} (f : Y -> bool) (g : X -> Y) l :
  List.find f (map g l) = option_map g (List.find (fun x => f (g x)) l).
Proof.
  induction l as [|x r IH]; simpl; [reflexivity|].
  destruct (f (g x)); [reflexivity | exact IH].
Qed.

Lemma select_sorted w S E :
  select w S E = select_y w (sort flt (map m_y S)) (sort flt (map m_y E)).
Proof.
  unfold select, select_y. rewrite <- !sort_m_y.
  destruct (sort marker_lt S) as [|s0 r0]; cbn [map]; [reflexivity|].
  destruct (sort marker_lt E) as [|e0 r1]; cbn [map]; [reflexivity|].
  change (m_y e0 :: map m_y r1) with (map m_y (e0 :: r1)).
  rewrite !find_map.
  destruct (List.find (fun x => (m_y s0 <? m_y x)%float) (e0 :: r1)) as [e|];
    [reflexivity|].
  destruct (List.find (fun x => (m_y x <? m_y s0)%float) (e0 :: r1)) as [e|]; reflexivity.
Qed.

Lemma find_sorted (f : float -> bool) l e :
  Forall ord_P l -> ssorted flt l -> List.find f l = Some e ->
  forall e', In e' l -> f e' = true -> flt e' e = false.
Proof.
  induction l as [|x r IH]; simpl; [discriminate|].
  intros Hl [Hx Hr] Hf e' He' Hfe'. inversion Hl as [|x' r' Px Pr]; subst.
  destruct (f x) eqn:Ex.
  - injection Hf as <-. destruct He' as [<-|He']; [apply flt_irrefl', Px|].
    rewrite Forall_forall in Hx. apply Hx, He'.
  - destruct He' as [<-|He']; [congruence|]. apply (IH Pr Hr Hf e' He' Hfe').
Qed.

Lemma Forall_perm_ord l l' : Forall ord_P l -> Permutation l l' -> Forall ord_P l'.
Proof.
  intros H Hp. apply Forall_forall. intros z Hz. rewrite Forall_forall in H.
  apply H, (Permutation_in _ (Permutation_sym Hp)), Hz.
Qed.

(** The minimum of a list of ordinary floats *)
Lemma sorted_head_min s r l :
  Forall ord_P l -> sort flt l = s :: r ->
  In s l /\ forall s', In s' l -> flt s' s = false.
Proof.
  intros Hl Hs. destruct (sort_spec float flt ord_P flt_irrefl' flt_trans' flt_total' l Hl) as [Hp Hsort].
  rewrite Hs in Hp, Hsort. destruct Hsort as [Hmin _].
  split; [apply (Permutation_in _ Hp); left; reflexivity|].
  intros s' Hs'. apply (Permutation_in _ (Permutation_sym Hp)) in Hs'.
  destruct Hs' as [<-|Hs']; [apply flt_irrefl'; rewrite Forall_forall in Hl;
    apply Hl, (Permutation_in _ Hp); left; reflexivity|].
  rewrite Forall_forall in Hmin. apply Hmin, Hs'.
Qed.

Lemma detect_y pg mk m :
  In m (detect pg mk) -> exists c, In c (chars pg) /\ m_y m = ch_y0 c.
Proof.
  unfold detect. intros H. apply in_flat_map in H. destruct H as [c [Hc Hm]].
  exists c. split; [exact Hc|].
  destruct (contains (ch_text c) mk); [|destruct Hm].
  destruct (contains mk _); [|destruct Hm].
  destruct Hm as [<-|[]]. reflexivity.
Qed.

Lemma detect_ordinary pg mk :
  forallb (fun c => ordinary (ch_y0 c)) (chars pg) = true ->
  Forall ord_P (map m_y (detect pg mk)).
Proof.
  intros H. apply Forall_forall. intros y Hy. apply in_map_iff in Hy.
  destruct Hy as [m [<- Hm]]. destruct (detect_y pg mk m Hm) as [c [Hc ->]].
  rewrite forallb_forall in H. apply H, Hc.
Qed.

Lemma sort_in l x : Forall ord_P l -> In x (sort flt l) <-> In x l.
Proof.
  intros Hl. destruct (sort_spec float flt ord_P flt_irrefl' flt_trans' flt_total' l Hl) as [Hp _].
  split; apply Permutation_in; [exact Hp | apply Permutation_sym, Hp].
Qed.

Lemma sort_ssorted l : Forall ord_P l -> ssorted flt (sort flt l).
Proof. intros Hl. apply (sort_spec float flt ord_P flt_irrefl' flt_trans' flt_total' l Hl). Qed.

Lemma sort_ord l : Forall ord_P l -> Forall ord_P (sort flt l).
Proof.
  intros Hl. apply Forall_forall. intros z Hz. apply (sort_in l z Hl) in Hz.
  rewrite Forall_forall in Hl. apply Hl, Hz.
Qed.

Lemma py_min_max_sym w s e :
  ord_P s -> ord_P e -> s <> e ->
  make_box w s e = make_box w e s /\ flt (Validator.py_min s e) (Validator.py_max s e) = true.
Proof.
  intros Hs He Hne. unfold make_box, Validator.py_min, Validator.py_max.
  change ((e <? s)%float) with (flt e s). change ((s <? e)%float) with (flt s e).
  destruct (flt s e) eqn:A, (flt e s) eqn:B.
  - rewrite (lt_asym float flt ord_P flt_irrefl' flt_trans' s e Hs He A) in B. discriminate.
  - split; [reflexivity | exact A].
  - split; [reflexivity | exact B].
  - exfalso. apply Hne, flt_total'; assumption.
Qed.

Lemma select_some w S E b :
  Forall ord_P (map m_y S) -> Forall ord_P (map m_y E) -> select w S E = Some b ->
  exists s e, b = make_box w s e /\
    In s (map m_y S) /\ (forall s', In s' (map m_y S) -> flt s' s = false) /\
    In e (map m_y E) /\
    ((flt s e = true /\
      forall e', In e' (map m_y E) -> flt s e' = true -> flt e' e = false) \/
     ((forall e', In e' (map m_y E) -> flt s e' = false) /\ flt e s = true /\
      forall e', In e' (map m_y E) -> flt e' e = false)).
Proof.
  intros HS HE. rewrite select_sorted. unfold select_y.
  destruct (sort flt (map m_y S)) as [|s r] eqn:Hss; [discriminate|].
  destruct (sort flt (map m_y E)) as [|e0 r'] eqn:Hse; [discriminate|].
  rewrite <- Hse.
  destruct (sorted_head_min s r _ HS Hss) as [Hs Hmin].
  pose proof (sort_ssorted _ HE) as Hsorted. pose proof (sort_ord _ HE) as Hord.
  destruct (List.find (fun e => (s <? e)%float) (sort flt (map m_y E))) as [e|] eqn:F1.
  - intros Hb. injection Hb as <-. exists s, e. split; [reflexivity|].
    split; [exact Hs | split; [exact Hmin|]].
    destruct (find_some _ _ F1) as [He He']. split; [apply (sort_in _ _ HE), He|].
    left. split; [exact He'|].
    intros e'' He'' Hf. apply (find_sorted _ _ _ Hord Hsorted F1); [|exact Hf].
    apply (sort_in _ _ HE), He''.
  - destruct (List.find (fun e => (e <? s)%float) (sort flt (map m_y E))) as [e|] eqn:F2;
      [|discriminate].
    intros Hb. injection Hb as <-. exists s, e. split; [reflexivity|].
    split; [exact Hs | split; [exact Hmin|]].
    destruct (find_some _ _ F2) as [He He']. split; [apply (sort_in _ _ HE), He|].
    assert (Habove : forall e', In e' (map m_y E) -> flt s e' = false).
    { intros e' H'. apply (find_none _ _ F1). apply (sort_in _ _ HE), H'. }
    right. split; [exact Habove | split; [exact He'|]].
    intros e'' He''. destruct (flt e'' s) eqn:B.
    + apply (find_sorted _ _ _ Hord Hsorted F2); [apply (sort_in _ _ HE), He'' | exact B].
    + assert (Ps : ord_P s) by (rewrite Forall_forall in HS; apply HS, Hs).
      assert (Pe'' : ord_P e'') by (rewrite Forall_forall in HE; apply HE, He'').
      assert (Pe : ord_P e).
      { rewrite Forall_forall in Hord. apply Hord, He. }
      rewrite (flt_total' e'' s Pe'' Ps B (Habove e'' He'')).
      apply (lt_asym float flt ord_P flt_irrefl' flt_trans' e s Pe Ps He').
Qed.

Lemma select_none w S E :
  Forall ord_P (map m_y S) -> Forall ord_P (map m_y E) ->
  select w S E = None <->
  forall s e, In s (map m_y S) -> (forall s', In s' (map m_y S) -> flt s' s = false) ->
    In e (map m_y E) -> e = s.
Proof.
  intros HS HE. rewrite select_sorted. unfold select_y.
  pose proof (sort_ord _ HE) as Hord.
  split.
  - intros Hn s e Hs Hmin He.
    assert (Hs' : In s (sort flt (map m_y S))) by (apply (sort_in _ _ HS), Hs).
    assert (He' : In e (sort flt (map m_y E))) by (apply (sort_in _ _ HE), He).
    destruct (sort flt (map m_y S)) as [|s0 r] eqn:Hss; [destruct Hs'|].
    destruct (sorted_head_min s0 r _ HS Hss) as [Hs0 Hmin0].
    assert (Ps : ord_P s) by (rewrite Forall_forall in HS; apply HS, Hs).
    assert (Ps0 : ord_P s0) by (rewrite Forall_forall in HS; apply HS, Hs0).
    assert (Pe : ord_P e) by (rewrite Forall_forall in HE; apply HE, He).
    rewrite (flt_total' s s0 Ps Ps0 (Hmin0 s Hs) (Hmin s0 Hs0)) in *.
    destruct (sort flt (map m_y E)) as [|e0 r'] eqn:Hse; [destruct He'|].
    rewrite <- Hse in *.
    destruct (List.find (fun x => (s0 <? x)%float) (sort flt (map m_y E))) eqn:F1;
      [discriminate|].
    destruct (List.find (fun x => (x <? s0)%float) (sort flt (map m_y E))) eqn:F2;
      [discriminate|].
    apply flt_total'; [exact Pe | exact Ps0 | apply (find_none _ _ F2 _ He') | apply (find_none _ _ F1 _ He')].
  - intros Hall.
    destruct (sort flt (map m_y S)) as [|s0 r] eqn:Hss; [reflexivity|].
    destruct (sort flt (map m_y E)) as [|e0 r'] eqn:Hse; [reflexivity|].
    rewrite <- Hse.
    destruct (sorted_head_min s0 r _ HS Hss) as [Hs0 Hmin0].
    assert (Ps0 : ord_P s0) by (rewrite Forall_forall in HS; apply HS, Hs0).
    destruct (List.find (fun x => (s0 <? x)%float) (sort flt (map m_y E))) as [e|] eqn:F1.
    + exfalso. destruct (find_some _ _ F1) as [He He'].
      rewrite (Hall s0 e Hs0 Hmin0 (proj1 (sort_in _ _ HE) He)) in He'.
      change ((s0 <? s0)%float) with (flt s0 s0) in He'. rewrite flt_irrefl' in He' by exact Ps0.
      discriminate.
    + destruct (List.find (fun x => (x <? s0)%float) (sort flt (map m_y E))) as [e|] eqn:F2;
        [|reflexivity].
      exfalso. destruct (find_some _ _ F2) as [He He'].
      rewrite (Hall s0 e Hs0 Hmin0 (proj1 (sort_in _ _ HE) He)) in He'.
      change ((s0 <? s0)%float) with (flt s0 s0) in He'. rewrite flt_irrefl' in He' by exact Ps0.
      discriminate.
Qed.

(** C6: table boundaries.  Let the characters' [y0] coordinates be
    neither NaN nor [-0.0], and let [S] and [E] be the start and end markers
    detected on the page.  (i) The result does not depend on the order in
    which the markers are discovered: any reordering of [S] and of [E]
    gives the same box.  (ii) A returned box spans the page width
    ([x0 = 0], [x1 = width]); its [y0] is the smaller and its [y1] the
    larger of two coordinates plus 50: the smallest start [y] and an end
    [y], namely the smallest end [y] above the start, or, when no end is
    above it (reversed markers), the smallest end [y] overall, which is
    below it.  The box is the same with the two coordinates swapped, and
    its [y0] is below the larger coordinate.  (iii) The locator returns
    not-found exactly when there is no start marker, no end marker, or
    every end marker is at the [y] of the first start marker.  (iv) Start
    marker at [y=100] and end marker at [y=400], in either order, on a
    page 600 wide: the box is [{x0=0, y0=100, x1=600, y1=450}]. *)
Theorem find_table_boundaries_spec (pg : ppage)
  (Hy : forallb (fun c => ordinary (ch_y0 c)) (chars pg) = true) :
  let S := detect pg start_marker in
  let E := detect pg end_marker in
  find_table_boundaries pg = select (width pg) S E /\
  (forall S' E', Permutation S S' -> Permutation E E' ->
     select (width pg) S' E' = find_table_boundaries pg) /\
  (forall b, find_table_boundaries pg = Some b ->
     exists s e,
       bx0 b = 0%Z /\ bx1 b = width pg /\
       by0 b = Validator.py_min s e /\ by1 b = (Validator.py_max s e + 50)%float /\
       b = make_box (width pg) e s /\
       flt (Validator.py_min s e) (Validator.py_max s e) = true /\
       In s (map m_y S) /\ (forall s', In s' (map m_y S) -> flt s' s = false) /\
       In e (map m_y E) /\
       ((flt s e = true /\
         forall e', In e' (map m_y E) -> flt s e' = true -> flt e' e = false) \/
        ((forall e', In e' (map m_y E) -> flt s e' = false) /\ flt e s = true /\
         forall e', In e' (map m_y E) -> flt e' e = false))) /\
  (find_table_boundaries pg = None <->
     forall s e, In s (map m_y S) -> (forall s', In s' (map m_y S) -> flt s' s = false) ->
       In e (map m_y E) -> e = s) /\
  find_table_boundaries page_forward = Some (mk_box 0 100 600 450) /\
  find_table_boundaries page_reversed = Some (mk_box 0 100 600 450).
Proof.
  intros S E.
  pose proof (detect_ordinary pg start_marker Hy) as HS.
  pose proof (detect_ordinary pg end_marker Hy) as HE.
  assert (Hfb : find_table_boundaries pg = select (width pg) S E) by reflexivity.
  split; [exact Hfb|]. split; [|split; [|split; [|split; vm_compute; reflexivity]]].
  - intros S' E' PS PE. rewrite Hfb, !select_sorted.
    rewrite (sort_perm_eq float flt ord_P flt_irrefl' flt_trans' flt_total'
               (map m_y S) (map m_y S') HS (Permutation_map m_y PS)).
    rewrite (sort_perm_eq float flt ord_P flt_irrefl' flt_trans' flt_total'
               (map m_y E) (map m_y E') HE (Permutation_map m_y PE)).
    reflexivity.
  - intros b Hb. rewrite Hfb in Hb.
    destruct (select_some _ _ _ _ HS HE Hb) as [s [e [-> [Hs [Hmin [He Hcase]]]]]].
    assert (Ps : ord_P s) by (rewrite Forall_forall in HS; apply HS, Hs).
    assert (Pe : ord_P e) by (rewrite Forall_forall in HE; apply HE, He).
    assert (Hne : s <> e).
    { intros <-. destruct Hcase as [[H _]|[_ [H _]]]; rewrite flt_irrefl' in H by exact Ps;
      discriminate. }
    destruct (py_min_max_sym (width pg) s e Ps Pe Hne) as [Hsym Hlt].
    exists s, e. repeat split; assumption.
  - rewrite Hfb. apply select_none; assumption.
Qed.

(** The test page with the start marker above the end marker *)
Lemma find_table_boundaries_spec_witness :
  forallb (fun c => ordinary (ch_y0 c)) (chars page_forward) = true /\
  find_table_boundaries page_forward = Some (mk_box 0 100 600 450) /\
  find_table_boundaries page_reversed = Some (mk_box 0 100 600 450).
Proof.
  assert (H : forallb (fun c => ordinary (ch_y0 c)) (chars page_forward) = true)
    by (vm_compute; reflexivity).
  split; [exact H|].
  destruct (find_table_boundaries_spec page_forward H) as [_ [_ [_ [_ [H1 H2]]]]].
  split; [exact H1 | exact H2].
Defined.

End BoundsFacts.

(* ------------------------------------------------------------------ *)
(** ** Confidence score and validity *)

Module ScoreFacts.

Import Validator CheckDefs ScoreDefs DecFacts.

Lemma Qle_bool_wd x x' y y' :
  (x == x')%Q -> (y == y')%Q -> Qle_bool x y = Qle_bool x' y'.
Proof.
  intros Hx Hy.
  destruct (Qle_bool x y) eqn:A; destruct (Qle_bool x' y') eqn:B; try reflexivity.
  - apply Qle_bool_iff in A. rewrite Hx, Hy in A. apply Qle_bool_iff in A. congruence.
  - apply Qle_bool_iff in B. rewrite <- Hx, <- Hy in B. apply Qle_bool_iff in B. congruence.
Qed.

Lemma Qle_bool_flip x : Qle_bool 0 x = false -> Qle_bool x 0 = true.
Proof.
  intros H. apply Qle_bool_iff. destruct (Qlt_le_dec x 0) as [L|L].
  - apply Qlt_le_weak, L.
  - apply Qle_bool_iff in L. congruence.
Qed.

Lemma fin_value_nonzero m e :
  m <> 0%Z -> Qle_bool 0 (fin_value m e) = true -> Qle_bool (fin_value m e) 0 = false.
Proof.
  intros Hm H. apply Qle_bool_iff in H.
  destruct (Qle_bool (fin_value m e) 0) eqn:L; [|reflexivity].
  apply Qle_bool_iff in L. exfalso.
  assert (Z : (fin_value m e == 0)%Q) by (apply Qle_antisym; assumption).
  unfold fin_value in Z. apply Qmult_integral in Z. destruct Z as [Z|Z].
  - apply Hm. change 0%Q with (inject_Z 0) in Z. apply (proj1 (inject_Z_injective m 0)) in Z. exact Z.
  - pose proof (pow10_pos e) as P. rewrite Z in P. apply (Qlt_irrefl 0), P.
Qed.

Lemma fin_value_zero_le e : Qle_bool (fin_value 0 e) 0 = true.
Proof. apply Qle_bool_iff. rewrite fin_value_zero. apply Qle_refl. Qed.

Lemma ge_zero x : match (x ?= 0)%Q with Lt => false | _ => true end = Qle_bool 0 x.
Proof.
  destruct x as [n d]. unfold Qle_bool, Qcompare. simpl.
  rewrite Z.mul_1_r. destruct n; reflexivity.
Qed.

Lemma gt_fin m1 e1 m2 e2 :
  gt (DFin m1 e1) (DFin m2 e2) = Ok (negb (Qle_bool (fin_value m1 e1) (fin_value m2 e2))).
Proof.
  unfold gt, cmp. cbn [res_bind]. unfold Qle_bool, Qcompare, Z.leb.
  destruct (_ ?= _)%Z; reflexivity.
Qed.

Lemma max_fin m1 e1 m2 e2 :
  Dec.max (DFin m1 e1) (DFin m2 e2)
  = Ok (if Qle_bool (fin_value m2 e2) (fin_value m1 e1) then DFin m1 e1 else DFin m2 e2).
Proof.
  unfold Dec.max. rewrite gt_fin. cbn [res_bind].
  destruct (Qle_bool _ _); reflexivity.
Qed.

Lemma scaled_lift L k m e B :
  (0 <= k)%Z -> scaled L m e B -> scaled (L + k) m e (B * 10 ^ k).
Proof.
  intros Hk [He Hb]. split; [lia|].
  replace (e + (L + k))%Z with ((e + L) + k)%Z by lia.
  rewrite Z.pow_add_r by lia.
  assert (0 < 10 ^ k)%Z by (apply Z.pow_pos_nonneg; lia). nia.
Qed.

Lemma scaled_exp_le m e : m <> 0%Z -> scaled 6 m e (10 ^ 13) -> (e <= 7)%Z.
Proof.
  intros Hm [He Hb]. destruct (Z.le_gt_cases e 7) as [L|L]; [exact L|].
  exfalso. assert (P : (10 ^ 14 <= 10 ^ (e + 6))%Z) by (apply Z.pow_le_mono_r; lia).
  assert (1 <= Z.abs m)%Z by lia.
  assert (10 ^ 13 < 10 ^ 14)%Z by reflexivity. nia.
Qed.

(** With three non-zero fields bounded as [field_in_range] requires, the
    [Decimal] arithmetic of [_validate_price_calculation] is exact. *)
Lemma price_calc_exact p i mq eq mu eu mt et :
  parse_italian_decimal (arg (p_quantity p)) = Ok (Some (DFin mq eq)) ->
  parse_italian_decimal (arg (p_unit_price p)) = Ok (Some (DFin mu eu)) ->
  parse_italian_decimal (arg (p_total_price p)) = Ok (Some (DFin mt et)) ->
  mq <> 0%Z -> mu <> 0%Z -> mt <> 0%Z ->
  scaled 6 mq eq (10 ^ 13) -> scaled 6 mu eu (10 ^ 13) -> scaled 6 mt et (10 ^ 13) ->
  match validate_price_calculation p i with None => true | Some _ => false end
  = Qle_bool (Qabs (fin_value mq eq * fin_value mu eu - fin_value mt et))
             (tolerance (fin_value mt et)).
Proof.
  intros Pq Pu Pt Nq Nu Nt Sq Su St.
  pose proof (scaled_exp_le _ _ Nq Sq) as Eq.
  pose proof (scaled_exp_le _ _ Nu Su) as Eu.
  pose proof (scaled_exp_le _ _ Nt St) as Et.
  unfold validate_price_calculation. rewrite Pq, Pu, Pt.
  unfold opt_truthy, Dec.truthy.
  apply Z.eqb_neq in Nq, Nu, Nt. rewrite Nq, Nu, Nt. cbn [negb andb].
  destruct (mul_exact 6 6 mq eq mu eu (10 ^ 13) (10 ^ 13) ltac:(lia) ltac:(lia)
              ltac:(unfold Etop, Emax, prec; lia) Sq Su ltac:(reflexivity)) as [M1 S1].
  rewrite M1. cbn [res_bind].
  assert (Sneg : scaled (6 + 6) (- mt) et (10 ^ 13 * 10 ^ 6)).
  { apply scaled_lift; [lia|]. destruct St as [St1 St2]. split; [exact St1|].
    rewrite Z.abs_opp. exact St2. }
  destruct (add_exact (6 + 6) (mq * mu) (eq + eu) (- mt) et _ _ ltac:(lia) S1 Sneg
              ltac:(reflexivity)) as [D [A1 [A2 A3]]].
  unfold sub. cbn [neg]. rewrite A1. cbn [res_bind].
  rewrite (abs_exact (6 + 6) _ _ _ ltac:(lia) A2 ltac:(reflexivity)). cbn [res_bind].
  assert (S3 : scaled 3 1 (-3) 1) by (split; [unfold Etop, Emax, prec; lia | reflexivity]).
  destruct (mul_exact 6 3 mt et 1 (-3) (10 ^ 13) 1 ltac:(lia) ltac:(lia)
              ltac:(unfold Etop, Emax, prec; lia) St S3 ltac:(reflexivity)) as [M2 _].
  rewrite M2. cbn [res_bind]. rewrite max_fin. cbn [res_bind].
  assert (HX : (fin_value (Z.abs D) (Z.min (eq + eu) et)
                == Qabs (fin_value mq eq * fin_value mu eu - fin_value mt et))%Q).
  { rewrite fin_value_abs, A3, fin_value_opp, fin_value_mul. apply Qabs_wd. ring. }
  assert (HT : (fin_value (mt * 1) (et + -3) == fin_value mt et * (1 # 1000))%Q).
  { rewrite fin_value_mul. reflexivity. }
  change (fin_value 1 (-2)) with (1 # 100)%Q.
  unfold tolerance. rewrite (Qle_bool_wd _ _ _ _ HT (Qeq_refl (1 # 100))).
  destruct (Qle_bool (fin_value mt et * (1 # 1000)) (1 # 100));
    rewrite gt_fin; cbn [res_bind];
    [change (fin_value 1 (-2)) with (1 # 100)%Q|];
    rewrite (Qle_bool_wd _ _ _ _ HX (Qeq_refl _));
    try rewrite (Qle_bool_wd _ _ _ _ (Qeq_refl _) HT);
    destruct (Qle_bool _ _); reflexivity.
Qed.

Lemma field_cases v :
  field_in_range v ->
  (field_value v = None /\ validate_numeric_field v = false)
  \/ exists m e, str_truthy v = true
       /\ parse_italian_decimal (arg v) = Ok (Some (DFin m e))
       /\ field_value v = Some (fin_value m e)
       /\ validate_numeric_field v = Qle_bool 0 (fin_value m e)
       /\ (m = 0%Z \/ scaled 6 m e (10 ^ 13)).
Proof.
  intros H. unfold field_in_range in H. unfold field_value, validate_numeric_field.
  destruct (str_truthy v) eqn:T; [|left; split; reflexivity].
  specialize (H eq_refl). cbn [negb].
  destruct (parse_italian_decimal (arg v)) as [[[m e| |]|]|err] eqn:P; try contradiction.
  - right. exists m, e. do 4 (split; [try reflexivity|]); [|exact H].
    unfold ge, cmp. cbn [res_bind]. change (fin_value 0 0) with 0%Q. apply ge_zero.
  - left. split; reflexivity.
Qed.

(** A product of [_validate_products_consistency] counts as valid exactly
    when it is [item_consistent]. *)
Lemma check_product_spec i p :
  product_in_range p ->
  match check_product i p with None => true | Some _ => false end = item_consistent p.
Proof.
  intros [Hq [Hu Ht]]. unfold check_product, item_consistent.
  destruct (field_cases _ Hq) as [[Fq Vq]|[mq [eq [Tq [Pq [Fq [Vq Rq]]]]]]];
    rewrite Fq, Vq; [reflexivity|].
  destruct (field_cases _ Hu) as [[Fu Vu]|[mu [eu [Tu [Pu [Fu [Vu Ru]]]]]]];
    rewrite Fu, Vu; [rewrite andb_false_r; reflexivity|].
  destruct (field_cases _ Ht) as [[Ft Vt]|[mt [et [Tt [Pt [Ft [Vt Rt]]]]]]];
    rewrite Ft, Vt; [rewrite andb_false_r; reflexivity|].
  destruct (Qle_bool 0 (fin_value mq eq)) eqn:Lq;
    [|rewrite (Qle_bool_flip _ Lq); cbn [negb]; rewrite ?andb_false_r; reflexivity].
  destruct (Qle_bool 0 (fin_value mu eu)) eqn:Lu;
    [|rewrite (Qle_bool_flip _ Lu); cbn [negb]; rewrite ?andb_false_r; reflexivity].
  destruct (Qle_bool 0 (fin_value mt et)) eqn:Lt;
    [|rewrite (Qle_bool_flip _ Lt); cbn [negb]; rewrite ?andb_false_r; reflexivity].
  rewrite Tq, Tu, Tt. cbn [negb andb].
  destruct (Z.eq_dec mq 0) as [->|Nq].
  { rewrite fin_value_zero_le. unfold validate_price_calculation.
    rewrite Pq, Pu, Pt. reflexivity. }
  destruct (Z.eq_dec mu 0) as [->|Nu].
  { rewrite fin_value_zero_le. cbn [negb]. rewrite andb_false_r.
    unfold validate_price_calculation. rewrite Pq, Pu, Pt.
    cbn [opt_truthy Dec.truthy Z.eqb negb]. rewrite andb_false_r. reflexivity. }
  destruct (Z.eq_dec mt 0) as [->|Nt].
  { rewrite fin_value_zero_le. cbn [negb]. rewrite andb_false_r.
    unfold validate_price_calculation. rewrite Pq, Pu, Pt.
    cbn [opt_truthy Dec.truthy Z.eqb negb]. rewrite andb_false_r. reflexivity. }
  destruct Rq as [C|Sq]; [contradiction|].
  destruct Ru as [C|Su]; [contradiction|].
  destruct Rt as [C|St]; [contradiction|].
  rewrite (fin_value_nonzero _ _ Nq Lq), (fin_value_nonzero _ _ Nu Lu),
          (fin_value_nonzero _ _ Nt Lt).
  cbn [negb andb]. apply price_calc_exact; assumption.
Qed.

Lemma somes_count {A} (l : list (option A)) :
  (List.length (somes l) + count_none l)%nat = List.length l.
Proof.
  unfold count_none. induction l as [|[x|] r IH]; cbn [somes filter List.length]; lia.
Qed.

Lemma check_products_length i ps : List.length (check_products i ps) = List.length ps.
Proof. revert i. induction ps as [|p r IH]; intros i; simpl; [|rewrite IH]; reflexivity. Qed.

Lemma count_none_check i ps :
  Forall product_in_range ps ->
  count_none (check_products i ps) = List.length (filter item_consistent ps).
Proof.
  unfold count_none. revert i.
  induction ps as [|p r IH]; intros i Hall; [reflexivity|].
  inversion Hall as [|x y Hp Hr]; subst x y.
  cbn [check_products filter]. rewrite <- (check_product_spec i p Hp).
  destruct (check_product i p); cbn [List.length]; rewrite (IH (S i) Hr); reflexivity.
Qed.

Lemma cross_errors_length raw_text i ps :
  List.length (cross_errors raw_text i ps) = List.length (filter (code_missing raw_text) ps).
Proof.
  revert i. induction ps as [|p r IH]; intros i; [reflexivity|].
  cbn [cross_errors filter]. rewrite length_app, IH. unfold code_missing.
  destruct (cross_one raw_text p) as [[|]|] eqn:C; try reflexivity.
  unfold cross_one in C.
  destruct (p_product_code p) as [[|c s]|]; try discriminate. reflexivity.
Qed.

(** Claim C2 (failing input): the single item of [page_zero],
    [0 x 5 = 0], parses and is within the tolerance, and its code is in
    the text, so the claimed formula gives [0.6 + 0.4 = 1.0] and no
    error; the code's [not all([...])] takes the zero [Decimal] for an
    unparsed field, records "Cannot parse pricing fields", does not count
    the item and scores [0.2].  Separately, the score is rounded to three
    decimals: on [page_two_thirds] (three consistent items, one code
    missing) the claimed value is
    [0.6 + 0.4 * 2/3 - 0.2 = 2/3], while the score is [0.667], more than
    [1/5000] away from it. *)
Lemma validate_page_data_counterexample :
  parse_str "0" = Ok (Some (DFin 0 0)) /\ parse_str "5" = Ok (Some (DFin 5 0))
  /\ Qle_bool (Qabs (0 * 5 - 0)) (tolerance 0) = true
  /\ validation_errors (validate_page_data cfg_on page_zero) = [ErrCannotParse 0]
  /\ confidence_score (validate_page_data cfg_on page_zero) = 0.2%float
  /\ is_valid (validate_page_data cfg_on page_zero) = false
  /\ validation_errors (validate_page_data cfg_on page_two_thirds)
     = [ErrCodeNotFound 2 (lit "XYZ")]
  /\ confidence_score (validate_page_data cfg_on page_two_thirds) = 0.667%float
  /\ match float_value 0.667%float with
     | Some q => Qle_bool (1 # 5000) (Qabs (q - (2 # 3)))
     | None => false
     end = true.
Proof. repeat split; vm_compute; reflexivity. Qed.

(** Claim C2 (what the code does): with validation on, and every quantity, unit
    price and total empty, unparseable, zero, or a finite decimal of at
    most ten million with at most six decimals, [validate_page_data]
    records one error per item that is not [item_consistent] (its three
    fields non-empty, parsing to strictly positive decimals, with
    [|q * u - t| <= max(0.01, 0.001 * t)]) plus the text errors (one for a
    missing text, else one per product code not found); its confidence
    score is [round(., 3)] of the float computation of
    [0.6 * C/n + 0.4 * T/n] less [min(0.5, 0.2 * E)] floored at zero when
    [E > 0] (C consistent items, T codes found, E errors, n items); and
    the page is valid iff that rounded score is at least the threshold and
    [E = 0]. *)
Theorem validate_page_data_score (cfg : config) (pg : page)
  (Hon : enable_ocr_validation cfg = true)
  (Hr : Forall product_in_range (pg_products pg)) :
  let ps := pg_products pg in
  let n := List.length ps in
  let C := List.length (filter item_consistent ps) in
  let E := (n - C + text_errors (raw_text pg) ps)%nat in
  let vr := validate_page_data cfg pg in
  List.length (validation_errors vr) = E
  /\ confidence_score vr
     = round3 (blended_score (ratio C n) (text_score (raw_text pg) ps) E)
  /\ is_valid vr
     = ((ocr_confidence_threshold cfg <=? confidence_score vr)%float && Nat.eqb E 0).
Proof.
  cbv zeta.
  pose proof (count_none_check 0 _ Hr) as HC.
  pose proof (somes_count (check_products 0 (pg_products pg))) as HS.
  rewrite check_products_length in HS.
  assert (HE : List.length (fst (validate_products_consistency (pg_products pg))
                            ++ fst (cross_reference_with_text (pg_products pg) (raw_text pg)))
               = (List.length (pg_products pg) - List.length (filter item_consistent (pg_products pg))
                  + text_errors (raw_text pg) (pg_products pg))%nat).
  { unfold validate_products_consistency, cross_reference_with_text, text_errors.
    rewrite length_app.
    destruct (raw_text pg); cbn [fst List.length]; [|rewrite cross_errors_length]; lia. }
  assert (HK : calculate_confidence_score (validate_products_consistency (pg_products pg))
                 (cross_reference_with_text (pg_products pg) (raw_text pg))
               = round3 (blended_score
                   (ratio (List.length (filter item_consistent (pg_products pg)))
                          (List.length (pg_products pg)))
                   (text_score (raw_text pg) (pg_products pg))
                   (List.length (pg_products pg) - List.length (filter item_consistent (pg_products pg))
                    + text_errors (raw_text pg) (pg_products pg)))).
  { unfold calculate_confidence_score, blended_score. rewrite <- length_app, HE.
    unfold validate_products_consistency, cross_reference_with_text, text_score.
    cbn [snd]. rewrite HC. destruct (raw_text pg); reflexivity. }
  unfold validate_page_data. rewrite Hon. cbn [negb].
  cbv zeta. cbn [validation_errors confidence_score is_valid].
  rewrite HE, HK. split; [reflexivity|]. split; reflexivity.
Qed.

Lemma validate_page_data_score_witness :
  enable_ocr_validation cfg_on = true
  /\ Forall product_in_range (pg_products page_two_thirds)
  /\ (let ps := pg_products page_two_thirds in
      let n := List.length ps in
      let C := List.length (filter item_consistent ps) in
      let E := (n - C + text_errors (raw_text page_two_thirds) ps)%nat in
      let vr := validate_page_data cfg_on page_two_thirds in
      List.length (validation_errors vr) = E
      /\ confidence_score vr
         = round3 (blended_score (ratio C n) (text_score (raw_text page_two_thirds) ps) E)
      /\ is_valid vr
         = ((ocr_confidence_threshold cfg_on <=? confidence_score vr)%float && Nat.eqb E 0)).
Proof.
  assert (Hr : Forall product_in_range (pg_products page_two_thirds)).
  { apply Forall_forall. intros p Hp. simpl in Hp.
    repeat destruct Hp as [<-|Hp]; try contradiction;
      repeat split; intros _; vm_compute; right;
      (split; [split; intros H; discriminate H | intros H; discriminate H]). }
  split; [reflexivity|]. split; [exact Hr|].
  apply (validate_page_data_score cfg_on page_two_thirds); [reflexivity | exact Hr].
Defined.

End ScoreFacts.

(* ------------------------------------------------------------------ *)
(** ** [str(Decimal)] and [parse_italian_decimal] *)

Module RoundTripFacts.

Import ExtraDefs.
Lemma nat_of_uint_N n : N.of_nat (Nat.of_uint (N.to_uint n)) = n.
Proof.
  rewrite DecimalNat.Unsigned.of_uint_alt.
  rewrite <- (DecimalN.Unsigned.of_to n) at 2.
  unfold N.of_uint. rewrite DecimalPos.Unsigned.of_uint_alt.
  generalize (Decimal.rev (N.to_uint n)). intros d.
  induction d; cbn [DecimalNat.Unsigned.of_lu DecimalPos.Unsigned.of_lu]; try reflexivity;
  rewrite <- IHd; lia.
Qed.

Lemma Z_of_digits_uint d acc :
  fold_left (fun acc c => 10 * acc + digit_val c)%Z
    (list_ascii_of_string (NilEmpty.string_of_uint d)) (Z.of_nat acc)
  = Z.of_nat (Nat.of_uint_acc d acc).
Proof.
  revert acc. induction d; intros acc; [reflexivity|..];
  cbn [NilEmpty.string_of_uint list_ascii_of_string fold_left Nat.of_uint_acc];
  rewrite Nat.tail_mul_spec, <- IHd; f_equal; unfold digit_val, code;
  match goal with |- context [nat_of_ascii ?c] =>
    let v := eval vm_compute in (nat_of_ascii c) in change (nat_of_ascii c) with v end;
  lia.
Qed.

Lemma Z_of_digits_N n : Z_of_digits (digits_N n) = Z.of_N n.
Proof.
  unfold Z_of_digits, digits_N. change 0%Z with (Z.of_nat 0).
  rewrite Z_of_digits_uint. fold (Nat.of_uint (N.to_uint n)).
  rewrite <- (nat_of_uint_N n) at 2. symmetry. apply nat_N_Z.
Qed.

Lemma digits_uint_all d : forallb is_digit (list_ascii_of_string (NilEmpty.string_of_uint d)) = true.
Proof. induction d; simpl; auto. Qed.

Lemma digits_N_all n : forallb is_digit (digits_N n) = true.
Proof. apply digits_uint_all. Qed.

Lemma digits_N_nonnil n : digits_N n <> [].
Proof.
  unfold digits_N. destruct n as [|p]; [discriminate|].
  simpl. pose proof (DecimalPos.Unsigned.to_uint_nonnil p) as H.
  destruct (Pos.to_uint p); simpl; try discriminate. contradiction.
Qed.

Ltac ascii_cases c :=
  destruct c as [[|] [|] [|] [|] [|] [|] [|] [|]].

Lemma fin_char_props c : fin_char c = true ->
  is_space c = false /\ Ascii.eqb c "_"%char = false /\ Ascii.eqb c ","%char = false.
Proof. ascii_cases c; vm_compute; intros H; try discriminate H; auto. Qed.

Lemma digit_props c : is_digit c = true ->
  lower_char c = c /\ Ascii.eqb c "i"%char = false /\ Ascii.eqb "n"%char c = false
  /\ Ascii.eqb "s"%char c = false /\ Ascii.eqb c "+"%char = false
  /\ Ascii.eqb c "-"%char = false /\ Ascii.eqb c "."%char = false
  /\ Ascii.eqb c "E"%char = false /\ Ascii.eqb c "e"%char = false.
Proof. ascii_cases c; vm_compute; intros H; try discriminate H; auto 10. Qed.

Lemma lstrip_id s : (match s with c :: _ => is_space c = false | [] => True end) -> lstrip s = s.
Proof. destruct s as [|c r]; simpl; [reflexivity|]. intros H; rewrite H; reflexivity. Qed.

Lemma strip_nospace s : forallb (fun c => negb (is_space c)) s = true -> strip s = s.
Proof.
  intros H. unfold strip, rstrip.
  rewrite (lstrip_id s) by (destruct s; simpl in *; [exact I|];
                           apply andb_true_iff in H; destruct H as [H _];
                           apply negb_true_iff in H; exact H).
  assert (H' : forallb (fun c => negb (is_space c)) (rev s) = true).
  { rewrite forallb_forall in *. intros x Hx. apply H. apply in_rev, Hx. }
  rewrite (lstrip_id (rev s)), rev_involutive; [reflexivity|].
  destruct (rev s); simpl in *; [exact I|].
  apply andb_true_iff in H'. destruct H' as [H' _]. apply negb_true_iff in H'. exact H'.
Qed.

Lemma span_digits_app ds r :
  forallb is_digit ds = true ->
  (match r with c :: _ => is_digit c = false | [] => True end) ->
  span_digits (ds ++ r) = (ds, r).
Proof.
  induction ds as [|d ds IH]; intros Hd Hr.
  - destruct r as [|c r']; simpl; [reflexivity|]. rewrite Hr. reflexivity.
  - simpl in Hd. apply andb_true_iff in Hd. destruct Hd as [Hd1 Hd2].
    simpl. rewrite Hd1, (IH Hd2 Hr). reflexivity.
Qed.

Lemma Z_of_digits_zeros j c : Z_of_digits (repeat "0"%char j ++ c) = Z_of_digits c.
Proof.
  unfold Z_of_digits. rewrite fold_left_app. f_equal.
  induction j as [|j IH]; [reflexivity|]. simpl. exact IH.
Qed.

Lemma to_string_fin m e :
  to_string (DFin m e) = (if (m <? 0)%Z then lit "-" else []) ++ sci_body (digits_N (Z.abs_N m)) e.
Proof. reflexivity. Qed.

Lemma forallb_digits_firstn k c : forallb is_digit c = true -> forallb is_digit (firstn k c) = true.
Proof.
  intros H. rewrite <- (firstn_skipn k c), forallb_app in H.
  apply andb_true_iff in H. tauto.
Qed.
Lemma forallb_digits_skipn k c : forallb is_digit c = true -> forallb is_digit (skipn k c) = true.
Proof.
  intros H. rewrite <- (firstn_skipn k c), forallb_app in H.
  apply andb_true_iff in H. tauto.
Qed.

Lemma parse_exponent_sci adj :
  parse_exponent ("E"%char :: (if (0 <=? adj)%Z then "+"%char else "-"%char) :: digits_N (Z.abs_N adj)) = Some adj.
Proof.
  unfold parse_exponent. cbn [Ascii.eqb orb].
  destruct (Z.leb_spec 0 adj) as [H|H]; cbn [split_sign Ascii.eqb]; simpl;
  pose proof (digits_N_nonnil (Z.abs_N adj)) as Hn;
  destruct (digits_N (Z.abs_N adj)) eqn:Hd; try contradiction;
  rewrite <- Hd; unfold all_digits; rewrite digits_N_all, Z_of_digits_N; f_equal; lia.
Qed.

Lemma parse_finite_sci neg c e :
  forallb is_digit c = true -> c <> [] ->
  parse_finite neg (sci_body c e) = Some (DFin (if neg then - Z_of_digits c else Z_of_digits c)%Z e).
Proof.
  intros Hc Hne. unfold sci_body.
  set (L := List.length c).
  destruct ((e <=? 0)%Z && (-6 <=? e + Z.of_nat L - 1)%Z) eqn:Hcase.
  - destruct (Z.eqb_spec e 0) as [He|He].
    + unfold parse_finite. rewrite <- (app_nil_r c) at 1.
      rewrite span_digits_app by (auto; exact I). rewrite app_nil_r.
      destruct c; [contradiction|]. subst e. reflexivity.
    + apply andb_true_iff in Hcase. destruct Hcase as [H1 _]. apply Z.leb_le in H1.
      destruct (Nat.ltb_spec (Z.to_nat (- e)) L) as [Hk|Hk].
      * unfold parse_finite.
        rewrite span_digits_app by (auto using forallb_digits_firstn; reflexivity).
        cbn [Ascii.eqb Bool.eqb].
        change (if Ascii.eqb "."%char "."%char then span_digits (skipn (L - Z.to_nat (- e)) c) else ([], "."%char :: skipn (L - Z.to_nat (- e)) c))
          with (span_digits (skipn (L - Z.to_nat (- e)) c)).
        rewrite <- (app_nil_r (skipn _ c)).
        rewrite span_digits_app by (auto using forallb_digits_skipn; exact I).
        rewrite firstn_skipn.
        destruct c as [|x c']; [contradiction|]. cbn [parse_exponent].
        rewrite length_skipn. fold L. f_equal. f_equal. lia.
      * unfold parse_finite. cbn [lit list_ascii_of_string app].
        change ("0"%char :: "."%char :: repeat "0"%char (Z.to_nat (- e) - L) ++ c)
          with ([ "0"%char ] ++ "."%char :: repeat "0"%char (Z.to_nat (- e) - L) ++ c).
        rewrite span_digits_app by (reflexivity || reflexivity).
        cbn [Ascii.eqb Bool.eqb].
        change (if Ascii.eqb "."%char "."%char then span_digits (repeat "0"%char (Z.to_nat (- e) - L) ++ c) else ([], "."%char :: repeat "0"%char (Z.to_nat (- e) - L) ++ c))
          with (span_digits (repeat "0"%char (Z.to_nat (- e) - L) ++ c)).
        rewrite <- (app_nil_r (repeat _ _ ++ c)).
        rewrite span_digits_app.
        2:{ rewrite forallb_app, Hc, andb_true_r. clear. induction (Z.to_nat (- e) - L); simpl; auto. }
        2:exact I.
        cbn [app parse_exponent].
        change ("0"%char :: repeat "0"%char (Z.to_nat (- e) - L) ++ c)
          with (repeat "0"%char (S (Z.to_nat (- e) - L)) ++ c).
        rewrite Z_of_digits_zeros, length_app, repeat_length. fold L.
        f_equal. f_equal. lia.
  - unfold parse_finite.
    destruct c as [|x c']; [contradiction|].
    simpl in Hc. apply andb_true_iff in Hc. destruct Hc as [Hx Hc'].
    cbn [firstn skipn app].
    change (x :: ?r) with ([x] ++ r).
    pose proof (digit_props x Hx) as Hxp.
    destruct c' as [|y c''].
    + rewrite span_digits_app by (simpl; auto; rewrite Hx; reflexivity || reflexivity).
      cbn [Ascii.eqb Bool.eqb app].
      change ([x] ++ []) with [x].
      match goal with |- context [parse_exponent ?s] => change s with
        ("E"%char :: (if (0 <=? e + Z.of_nat L - 1)%Z then "+"%char else "-"%char) :: digits_N (Z.abs_N (e + Z.of_nat L - 1))) end.
      rewrite parse_exponent_sci. subst L. simpl. f_equal. f_equal. lia.
    + rewrite span_digits_app by (simpl; auto; rewrite Hx; reflexivity || reflexivity).
      cbn [app Ascii.eqb Bool.eqb].
      change (y :: c'' ++ ?r) with ((y :: c'') ++ r).
      rewrite span_digits_app by (auto; reflexivity).
      rewrite parse_exponent_sci. subst L. cbn [app List.length]. f_equal. f_equal.
      simpl. lia.
Qed.

Lemma digits_fin_char l : forallb is_digit l = true -> forallb fin_char l = true.
Proof.
  induction l as [|x l IH]; simpl; [reflexivity|].
  intros H. apply andb_true_iff in H. destruct H as [H1 H2].
  unfold fin_char at 1. rewrite H1, IH; auto.
Qed.

Lemma repeat_zero_digits k : forallb is_digit (repeat "0"%char k) = true.
Proof. induction k; simpl; auto. Qed.

Lemma sci_body_fin_char c e : forallb is_digit c = true -> forallb fin_char (sci_body c e) = true.
Proof.
  intros Hc. pose proof (forallb_digits_skipn 1 c Hc) as Hs. unfold sci_body.
  destruct (skipn 1 c) as [|a l] eqn:E;
  destruct (_ && _); try destruct (_ =? _)%Z; try destruct (Nat.ltb _ _);
  try destruct (0 <=? _)%Z;
  repeat (rewrite ?forallb_app; cbn [forallb]);
  repeat (apply andb_true_iff; split);
  first [ reflexivity
        | apply digits_fin_char; auto using forallb_digits_firstn, forallb_digits_skipn,
            repeat_zero_digits, digits_N_all
        | idtac ].
  all: simpl in Hs; apply andb_true_iff in Hs; destruct Hs as [Hs1 Hs2].
  all: first [exact Hs2 | unfold fin_char; rewrite Hs1; reflexivity].
Qed.

Lemma sci_body_head c e : forallb is_digit c = true -> c <> [] ->
  exists x r, sci_body c e = x :: r /\ is_digit x = true.
Proof.
  intros Hc Hne. destruct c as [|y c']; [contradiction|].
  simpl in Hc. apply andb_true_iff in Hc. destruct Hc as [Hy _].
  unfold sci_body.
  destruct (_ && _).
  - destruct (_ =? _)%Z; [eauto|].
    destruct (Nat.ltb_spec (Z.to_nat (- e)) (List.length (y :: c'))) as [Hk|Hk].
    + destruct (List.length (y :: c') - Z.to_nat (- e)) as [|n] eqn:En;
        [cbn [List.length] in *; lia|]. simpl. eauto.
    + simpl. exists "0"%char. eexists. split; [reflexivity|reflexivity].
  - simpl. eauto.
Qed.

Lemma fin_char_clean s : forallb fin_char s = true ->
  strip (filter (fun c => negb (Ascii.eqb c "_"%char)) s) = s /\ standardize s = s.
Proof.
  intros H.
  assert (Hf : filter (fun c => negb (Ascii.eqb c "_"%char)) s = s).
  { induction s as [|x s IH]; [reflexivity|]. simpl in H |- *.
    apply andb_true_iff in H. destruct H as [H1 H2].
    destruct (fin_char_props x H1) as [_ [-> _]]. simpl. rewrite IH; auto. }
  rewrite Hf. split.
  - apply strip_nospace. rewrite forallb_forall in *. intros x Hx.
    destruct (fin_char_props x (H x Hx)) as [-> _]. reflexivity.
  - unfold standardize.
    assert (Hc : has_char ","%char s = false).
    { unfold has_char. apply not_true_iff_false. rewrite existsb_exists.
      intros [x [Hx Heq]]. rewrite forallb_forall in H.
      destruct (fin_char_props x (H x Hx)) as [_ [_ Hx']]. congruence. }
    rewrite Hc. reflexivity.
Qed.

Lemma parse_special_digit neg x r : is_digit x = true -> parse_special neg (x :: r) = None.
Proof.
  intros Hx. destruct (digit_props x Hx) as [Hl [Hi [Hn [Hs _]]]].
  unfold parse_special, lower, lit. cbn [map]. rewrite Hl.
  cbn [list_ascii_of_string list_eqb prefix]. rewrite Hi, Hn, Hs. reflexivity.
Qed.

Lemma to_string_fin_char m e : forallb fin_char (to_string (DFin m e)) = true.
Proof.
  rewrite to_string_fin, forallb_app, sci_body_fin_char by apply digits_N_all.
  destruct (m <? 0)%Z; reflexivity.
Qed.

Lemma of_string_to_string d : of_string (to_string d) = Ok d.
Proof.
  destruct d as [m e|[|]|[|]]; try reflexivity.
  unfold of_string. rewrite (proj1 (fin_char_clean _ (to_string_fin_char m e))).
  rewrite to_string_fin.
  pose proof (digits_N_all (Z.abs_N m)) as Hc.
  pose proof (digits_N_nonnil (Z.abs_N m)) as Hne.
  destruct (sci_body_head _ e Hc Hne) as [x [r [Hb Hx]]].
  destruct (digit_props x Hx) as [_ [_ [_ [_ [Hp [Hm _]]]]]].
  assert (Hv : forall neg : bool, neg = (m <? 0)%Z ->
    parse_finite neg (sci_body (digits_N (Z.abs_N m)) e) = Some (DFin m e)).
  { intros neg ->. rewrite parse_finite_sci, Z_of_digits_N, Zabs2N.id_abs by auto.
    f_equal. f_equal. destruct (Z.ltb_spec m 0); lia. }
  destruct (m <? 0)%Z eqn:Hneg.
  - cbn [lit list_ascii_of_string app split_sign Ascii.eqb Bool.eqb].
    rewrite Hb, parse_special_digit, <- Hb, Hv by auto. reflexivity.
  - cbn [lit list_ascii_of_string app]. rewrite Hb. cbn [split_sign].
    rewrite Hp, Hm, parse_special_digit, <- Hb, Hv by auto. reflexivity.
Qed.

Lemma to_string_nonnil d : to_string d <> [].
Proof.
  destruct d as [m e|[|]|[|]]; try discriminate.
  rewrite to_string_fin.
  destruct (sci_body_head (digits_N (Z.abs_N m)) e (digits_N_all _) (digits_N_nonnil _))
    as [x [r [-> _]]].
  destruct (m <? 0)%Z; discriminate.
Qed.

Lemma strip_to_string d : strip (to_string d) = to_string d /\ standardize (to_string d) = to_string d.
Proof.
  destruct d as [m e|[|]|[|]]; try (split; reflexivity).
  destruct (fin_char_clean _ (to_string_fin_char m e)) as [H1 H2].
  split; [|exact H2].
  apply strip_nospace. pose proof (to_string_fin_char m e) as H.
  rewrite forallb_forall in *. intros x Hx.
  destruct (fin_char_props x (H x Hx)) as [-> _]. reflexivity.
Qed.

Lemma parse_italian_decimal_to_string d :
  parse_italian_decimal (VStr (to_string d)) = Ok (Some d).
Proof.
  cbn [parse_italian_decimal]. destruct (strip_to_string d) as [H1 H2].
  rewrite H1. pose proof (to_string_nonnil d) as Hn.
  destruct (to_string d) as [|a l] eqn:E; [contradiction|].
  cbv beta iota. rewrite H2, <- E, of_string_to_string. reflexivity.
Qed.

(** str(Decimal) read back: [parse_italian_decimal] applied to the string
    [str(d)] of any [Decimal] [d] (finite, infinite or NaN) returns [d]
    itself, coefficient and exponent included. *)
Theorem parse_italian_decimal_str_round_trip d :
  parse_italian_decimal (VStr (to_string d)) = Ok (Some d).
Proof. apply parse_italian_decimal_to_string. Qed.

(** [TableExtractor._parse_numeric_field] is idempotent: when it turns a
    string into the string [t] of a parsed [Decimal], it turns [t] into
    [t] again. *)
Theorem parse_numeric_field_idempotent s t :
  Fields.parse_numeric_field (Some s) = Ok (Some t) ->
  Fields.parse_numeric_field (Some t) = Ok (Some t).
Proof.
  unfold Fields.parse_numeric_field.
  destruct (parse_italian_decimal (VStr s)) as [[d|]|e]; cbn [res_bind]; intros H; try discriminate H.
  injection H as <-.
  assert (R : parse_italian_decimal (VStr (to_string d)) = Ok (Some d)).
  { cbn [parse_italian_decimal]. destruct (strip_to_string d) as [H1 H2].
    rewrite H1. pose proof (to_string_nonnil d) as Hn.
    destruct (to_string d) as [|a l] eqn:E; [contradiction|].
    cbv beta iota. rewrite H2, <- E, of_string_to_string. reflexivity. }
  rewrite R. cbn [res_bind]. reflexivity.
Qed.

Lemma parse_numeric_field_idempotent_witness :
  Fields.parse_numeric_field (Some (lit " 1.234,56 ")) = Ok (Some (lit "1234.56"))
  /\ Fields.parse_numeric_field (Some (lit "1234.56")) = Ok (Some (lit "1234.56")).
Proof.
  split; [vm_compute; reflexivity|].
  apply (parse_numeric_field_idempotent (lit " 1.234,56 ")). vm_compute. reflexivity.
Defined.

End RoundTripFacts.

(* ------------------------------------------------------------------ *)
(** ** Text fields *)

Module FieldsFacts.

Import ExtraDefs.
Lemma lstrip_idem s : lstrip (lstrip s) = lstrip s.
Proof.
  induction s as [|c r IH]; [reflexivity|]. simpl.
  destruct (is_space c) eqn:E; [exact IH|]. simpl. rewrite E. reflexivity.
Qed.

Lemma lstrip_suffix s : exists p, s = p ++ lstrip s.
Proof.
  induction s as [|c r IH]; [exists []; reflexivity|]. simpl.
  destruct (is_space c); [destruct IH as [p Hp]; exists (c :: p); simpl; f_equal; exact Hp|].
  exists []; reflexivity.
Qed.

Lemma lstrip_head s : match lstrip s with c :: _ => is_space c = false | [] => True end.
Proof.
  induction s as [|c r IH]; simpl; [exact I|].
  destruct (is_space c) eqn:E; [exact IH | exact E].
Qed.

Lemma lstrip_id' s : (match s with c :: _ => is_space c = false | [] => True end) -> lstrip s = s.
Proof. destruct s as [|c r]; simpl; [reflexivity|]. intros H; rewrite H; reflexivity. Qed.

Lemma rstrip_prefix s : exists t, s = rstrip s ++ t.
Proof.
  unfold rstrip. destruct (lstrip_suffix (rev s)) as [p Hp].
  exists (rev p). rewrite <- rev_app_distr, <- Hp, rev_involutive. reflexivity.
Qed.

Lemma rstrip_idem s : rstrip (rstrip s) = rstrip s.
Proof. unfold rstrip. rewrite rev_involutive, lstrip_idem. reflexivity. Qed.

Lemma strip_idem s : strip (strip s) = strip s.
Proof.
  unfold strip. set (x := lstrip s).
  assert (Hx : match x with c :: _ => is_space c = false | [] => True end) by apply lstrip_head.
  rewrite (lstrip_id' (rstrip x)); [apply rstrip_idem|].
  destruct (rstrip_prefix x) as [t Ht].
  destruct (rstrip x) as [|c r]; [exact I|]. rewrite Ht in Hx. exact Hx.
Qed.

(** [clean_string_field] is idempotent: a value it keeps comes back
    stripped, and cleaning it again returns it unchanged. *)
Theorem clean_string_field_idempotent v t :
  clean_string_field v = Some t -> clean_string_field (VStr t) = Some t /\ strip t = t.
Proof.
  intros H. destruct v as [| s | | | |]; try discriminate H.
  unfold clean_string_field in H.
  destruct s as [|c0 r0]; [discriminate H|].
  revert H. generalize (c0 :: r0). intros s0 H.
  destruct (strip s0) as [|d u] eqn:E; [simpl in H; discriminate H|].
  destruct (list_eqb (lower (d :: u)) (lit "nan")) eqn:N; [simpl in H; discriminate H|].
  injection H as <-. unfold clean_string_field. rewrite <- E, strip_idem, E, N.
  split; reflexivity.
Qed.

Lemma clean_string_field_idempotent_witness :
  clean_string_field (VStr (lit "  kg ")) = Some (lit "kg")
  /\ clean_string_field (VStr (lit "kg")) = Some (lit "kg") /\ strip (lit "kg") = lit "kg".
Proof.
  split; [vm_compute; reflexivity|].
  apply (clean_string_field_idempotent (VStr (lit "  kg "))). vm_compute. reflexivity.
Defined.

Lemma keep_part_false p : keep_part p = false <-> p = [] \/ lower (strip p) = lit "nan".
Proof.
  unfold keep_part. destruct p as [|c r]; [split; auto|].
  rewrite negb_false_iff, DeliveryFacts.list_eqb_eq.
  split; [auto|intros [H|H]; [discriminate H|exact H]].
Qed.

Lemma filter_nil_forall {A} (f : A -> bool) l :
  filter f l = [] <-> Forall (fun x => f x = false) l.
Proof.
  induction l as [|x l IH]; cbn [filter]; [split; auto|].
  destruct (f x) eqn:E; split; intros H; try discriminate H.
  - inversion H; congruence.
  - constructor; [exact E|apply IH, H].
  - inversion H; apply IH; assumption.
Qed.

Lemma join_snoc sep l x :
  Fields.join sep (l ++ [x]) = match l with [] => x | _ => Fields.join sep l ++ sep ++ x end.
Proof.
  induction l as [|y l IH]; [reflexivity|].
  destruct l as [|z l']; [reflexivity|].
  cbn [app] in *.
  change (Fields.join sep (y :: z :: l' ++ [x])) with (y ++ sep ++ Fields.join sep (z :: l' ++ [x])).
  rewrite IH. change (Fields.join sep (y :: z :: l')) with (y ++ sep ++ Fields.join sep (z :: l')).
  rewrite <- !app_assoc. reflexivity.
Qed.

Lemma format_address_lines_eq parts :
  format_address_lines parts
  = match map strip (filter keep_part parts) with
    | [] => None
    | cs => Some (Fields.join (lit ", ") cs)
    end.
Proof.
  destruct parts as [|p ps]; [reflexivity|].
  unfold format_address_lines, keep_part. cbv zeta.
  destruct (map strip _); reflexivity.
Qed.

(** [format_address_lines] returns [None] exactly when every part is
    empty or reads [nan] once stripped and lower-cased (an empty list
    included).  A non-empty part of blanks only is kept, as an empty
    string: appending it to the parts appends [", "] and nothing else to
    the result, or gives [""] when no other part is kept. *)
Theorem format_address_lines_none parts :
  (format_address_lines parts = None
   <-> Forall (fun p => p = [] \/ lower (strip p) = lit "nan") parts)
  /\ (forall b, b <> [] -> strip b = [] ->
        format_address_lines (parts ++ [b])
        = Some (match format_address_lines parts with
                | None => []
                | Some s => s ++ lit ", "
                end)).
Proof.
  split.
  - unfold format_address_lines. fold keep_part.
    assert (K : map strip (filter keep_part parts) = []
                <-> Forall (fun p => p = [] \/ lower (strip p) = lit "nan") parts).
    { split; intros H.
      - apply map_eq_nil in H. apply filter_nil_forall in H.
        eapply Forall_impl; [|exact H]. intros p. apply keep_part_false.
      - assert (H' : filter keep_part parts = []).
        { apply filter_nil_forall. eapply Forall_impl; [|exact H].
          intros p. apply keep_part_false. }
        rewrite H'. reflexivity. }
    destruct parts as [|p ps]; [split; auto|].
    destruct (map strip (filter keep_part (p :: ps))) eqn:M.
    + split; [intros _; apply K; reflexivity | reflexivity].
    + split; [discriminate|]. intros H. apply K in H. discriminate H.
  - intros b Hb Hs.
    assert (Kb : keep_part b = true).
    { unfold keep_part. destruct b as [|c r]; [contradiction|]. rewrite Hs. reflexivity. }
    rewrite !format_address_lines_eq, filter_app. cbn [filter]. rewrite Kb.
    rewrite map_app. cbn [map]. rewrite Hs.
    destruct (map strip (filter keep_part parts)) as [|x xs]; [reflexivity|].
    change (Some (Fields.join (lit ", ") ((x :: xs) ++ [[]]))
            = Some (Fields.join (lit ", ") (x :: xs) ++ lit ", ")).
    rewrite join_snoc, app_nil_r. reflexivity.
Qed.

Lemma format_address_lines_none_witness :
  format_address_lines ([lit "Via Roma 1"] ++ [lit "  "])
  = Some (match format_address_lines [lit "Via Roma 1"] with
          | None => []
          | Some s => s ++ lit ", "
          end)
  /\ format_address_lines [lit "Via Roma 1"; lit "  "] = Some (lit "Via Roma 1, ").
Proof.
  split; [|vm_compute; reflexivity].
  apply (proj2 (format_address_lines_none [lit "Via Roma 1"]) (lit "  "));
    [discriminate | vm_compute; reflexivity].
Defined.

(* unit of measure *)
Lemma is_standard_in u : is_standard u = true -> In u standard_units.
Proof.
  unfold is_standard. intros H. apply existsb_exists in H. destruct H as [x [Hx E]].
  apply DeliveryFacts.list_eqb_eq in E. subst. exact Hx.
Qed.

Lemma first_standard_blank lines : Forall blank_or_nan lines -> first_standard lines = None.
Proof.
  induction 1 as [|l ls Hl _ IH]; [reflexivity|]. cbn [first_standard].
  destruct (is_standard (upper (strip l))) eqn:E; [|exact IH].
  apply is_standard_in in E. destruct Hl as [Hl|Hl]; rewrite Hl in E;
  simpl in E; repeat destruct E as [E|E]; discriminate E || contradiction.
Qed.

Lemma first_nonblank_none lines : first_nonblank lines = None <-> Forall blank_or_nan lines.
Proof.
  induction lines as [|l ls IH]; cbn [first_nonblank]; [split; auto|].
  destruct (strip l) as [|c r] eqn:E.
  - rewrite IH. split; [intros H; constructor; [left; exact E|exact H] | intros H; inversion H; auto].
  - destruct (list_eqb (upper (c :: r)) (lit "NAN")) eqn:N.
    + apply DeliveryFacts.list_eqb_eq in N. rewrite IH.
      split; [intros H; constructor; [right; rewrite E; exact N|exact H] | intros H; inversion H; auto].
    + split; [discriminate|]. intros H. inversion H as [|? ? Hl _]; subst.
      apply DeliveryFacts.list_eqb_false in N. unfold blank_or_nan in Hl. rewrite E in Hl.
      destruct Hl as [Hl|Hl]; [discriminate Hl|contradiction].
Qed.

(** [_clean_unit_of_measure] of a string returns [None] exactly when
    every line of it is blank or reads [NAN] once stripped and upper-cased. *)
Theorem clean_unit_of_measure_none s :
  clean_unit_of_measure (Some s) = None
  <-> Forall (fun l => strip l = [] \/ upper (strip l) = lit "NAN") (split_on "010"%char s).
Proof.
  change (fun l => strip l = [] \/ upper (strip l) = lit "NAN") with blank_or_nan.
  destruct s as [|c r].
  - split; [intros _; repeat constructor | reflexivity].
  - cbn [clean_unit_of_measure]. rewrite <- first_nonblank_none.
    destruct (first_standard (split_on "010"%char (c :: r))) as [u|] eqn:F.
    + split; [discriminate|]. intros H. apply first_nonblank_none in H.
      apply first_standard_blank in H. congruence.
    + reflexivity.
Qed.

Lemma take_cp_idem n x : take_cp n (take_cp n x) = take_cp n x.
Proof.
  revert n. induction x as [|c r IH]; intros n; [reflexivity|]. cbn [take_cp].
  destruct (is_cont c) eqn:E.
  - cbn [take_cp]. rewrite E, IH. reflexivity.
  - destruct n as [|k]; [reflexivity|]. cbn [take_cp]. rewrite E, IH. reflexivity.
Qed.

Lemma first_nonblank_some lines u : first_nonblank lines = Some u -> u <> [] /\ take_cp 10 u = u.
Proof.
  induction lines as [|l ls IH]; cbn [first_nonblank]; [discriminate|].
  destruct (strip l) as [|c r]; [exact IH|].
  destruct (list_eqb _ _); [exact IH|].
  intros H. assert (Hu : take_cp 10 (c :: r) = u) by (injection H; auto).
  rewrite <- Hu. split; [|apply take_cp_idem]. cbn [take_cp]. destruct (is_cont c); discriminate.
Qed.

(** A unit returned by [_clean_unit_of_measure] is never empty and has at
    most ten code points: taking its first ten code points leaves it
    unchanged. *)
Theorem clean_unit_of_measure_some v u :
  clean_unit_of_measure v = Some u -> u <> [] /\ take_cp 10 u = u.
Proof.
  destruct v as [[|c r]|]; try discriminate. cbn [clean_unit_of_measure].
  destruct (first_standard _) as [w|] eqn:F; [|apply first_nonblank_some].
  intros H. injection H as <-. revert F.
  generalize (split_on "010"%char (c :: r)). intros lines.
  induction lines as [|l ls IH]; cbn [first_standard]; [discriminate|].
  destruct (is_standard (upper (strip l))) eqn:E; [|exact IH].
  intros H. injection H as <-. apply is_standard_in in E.
  simpl in E; repeat destruct E as [E|E]; try contradiction; rewrite <- E;
  split; try discriminate; reflexivity.
Qed.

Lemma clean_unit_of_measure_some_witness :
  clean_unit_of_measure (Some (lit " nan
 metri lineari per rotolo ")) = Some (lit "metri line")
  /\ (lit "metri line" <> [] /\ take_cp 10 (lit "metri line") = lit "metri line").
Proof.
  split; [vm_compute; reflexivity|].
  apply (clean_unit_of_measure_some (Some (lit " nan
 metri lineari per rotolo "))). vm_compute. reflexivity.
Defined.

(* product code parsing *)

Lemma Forall_map_iff {A B} (P : B -> Prop) (f : A -> B) l :
  Forall P (map f l) <-> Forall (fun x => P (f x)) l.
Proof.
  induction l as [|x l IH]; cbn [map]; split; intros H; try constructor;
    inversion H; subst; try assumption; apply IH; assumption.
Qed.

(** [_extract_remaining_content_as_description] returns [None] exactly
    when every line of the stripped cell is blank or starts with [MMA]
    once stripped. *)
Theorem extract_remaining_content_none cell code :
  extract_remaining_content_as_description cell code = None
  <-> Forall (fun l => strip l = [] \/ prefix (lit "MMA") (strip l) = true)
             (split_on "010"%char (strip cell)).
Proof.
  unfold extract_remaining_content_as_description. cbv zeta.
  rewrite <- Forall_map_iff with (f := strip) (P := fun l => l = [] \/ prefix (lit "MMA") l = true).
  generalize (map strip (split_on "010"%char (strip cell))). intros ls.
  assert (K : forall l, (match l with [] => false | _ => negb (prefix (lit "MMA") l) end) = false
                        <-> l = [] \/ prefix (lit "MMA") l = true).
  { intros [|c r]; [split; auto|]. rewrite negb_false_iff.
    split; [auto|intros [H|H]; [discriminate H|exact H]]. }
  destruct (filter _ ls) as [|p0 ps0] eqn:F.
  - split; [intros _|reflexivity]. apply filter_nil_forall in F.
    eapply Forall_impl; [|exact F]. intros l. apply K.
  - split; [discriminate|]. intros H.
    assert (F' : filter (fun line => match line with
                                     | [] => false
                                     | _ => negb (prefix (lit "MMA") line)
                                     end) ls = []).
    { apply filter_nil_forall. eapply Forall_impl; [|exact H]. intros l. apply K. }
    rewrite F' in F. discriminate F.
Qed.

End FieldsFacts.

(* ------------------------------------------------------------------ *)
(** ** Product code and description *)

Module CodeParseFacts.

Import ExtraDefs FieldsFacts CodeParse.


Lemma prefix_app p s b : prefix p s = true -> prefix p (s ++ b) = true.
Proof.
  revert s. induction p as [|x p IH]; intros s H; [reflexivity|].
  destruct s as [|y s]; [discriminate|]. simpl in *.
  apply andb_true_iff in H. destruct H as [H1 H2]. rewrite H1, IH; auto.
Qed.

Lemma prefix_split p s : prefix p s = true -> s = p ++ skipn (List.length p) s.
Proof.
  revert s. induction p as [|x p IH]; intros s H; [reflexivity|].
  destruct s as [|y s]; [discriminate|]. simpl in *.
  apply andb_true_iff in H. destruct H as [H1 H2].
  apply Ascii.eqb_eq in H1. subst. f_equal. apply IH, H2.
Qed.

Lemma lit_at_app p s b r : lit_at p s = Some r -> lit_at p (s ++ b) = Some (r ++ b).
Proof.
  unfold lit_at. destruct (prefix p s) eqn:E; [|discriminate]. intros H. injection H as <-.
  rewrite (prefix_app _ _ _ E). f_equal.
  rewrite (prefix_split _ _ E) at 1. rewrite <- app_assoc, skipn_app, skipn_all, Nat.sub_diag.
  reflexivity.
Qed.

Lemma lit_at_split p s r : lit_at p s = Some r -> s = p ++ r.
Proof.
  unfold lit_at. destruct (prefix p s) eqn:E; [|discriminate]. intros H. injection H as <-.
  apply prefix_split, E.
Qed.

Lemma lit_at_nonnil p s r : p <> [] -> lit_at p s = Some r -> s <> [].
Proof.
  intros Hp H ->. unfold lit_at in H. destruct p; [contradiction|discriminate].
Qed.

Lemma span_split f s : s = fst (span f s) ++ snd (span f s).
Proof.
  induction s as [|c r IH]; [reflexivity|]. simpl.
  destruct (f c); [|reflexivity]. destruct (span f r) as [d t]. simpl in *. rewrite IH at 1. reflexivity.
Qed.

Lemma span_app f s b :
  snd (span f s) <> [] -> span f (s ++ b) = (fst (span f s), snd (span f s) ++ b).
Proof.
  induction s as [|c r IH]; intros H; [contradiction|]. simpl in *.
  destruct (f c); [|reflexivity].
  destruct (span f r) as [d t]. simpl in *. rewrite IH by exact H. reflexivity.
Qed.

Lemma span_app_fst f s b : fst (span f s) <> [] -> fst (span f (s ++ b)) <> [].
Proof.
  destruct s as [|c r]; [simpl; tauto|]. simpl.
  destruct (f c); [|simpl; tauto].
  destruct (span f r); destruct (span f (r ++ b)); simpl; discriminate.
Qed.

Lemma plus_split f s r : plus f s = Some r -> exists d, s = d ++ r.
Proof.
  unfold plus. pose proof (span_split f s) as Hs.
  destruct (span f s) as [[|x d] t]; [discriminate|].
  intros H. injection H as <-. exists (x :: d). exact Hs.
Qed.

Lemma plus_app_some f s b r : plus f s = Some r -> plus f (s ++ b) <> None.
Proof.
  unfold plus. intros H.
  assert (Hf : fst (span f s) <> []) by (destruct (span f s) as [[|x d] t]; [discriminate|discriminate]).
  pose proof (span_app_fst f s b Hf) as H2.
  destruct (span f (s ++ b)) as [[|x d] t]; [contradiction|discriminate].
Qed.

Lemma plus_app f s b r : plus f s = Some r -> r <> [] -> plus f (s ++ b) = Some (r ++ b).
Proof.
  unfold plus. intros H Hr.
  destruct (span f s) as [d t] eqn:E. destruct d as [|x d]; [discriminate|].
  injection H as <-. rewrite span_app; rewrite E; [reflexivity|exact Hr].
Qed.

Lemma star_split f s : exists d, s = d ++ star f s.
Proof. exists (fst (span f s)). apply span_split. Qed.

Lemma code_core_app s b r : code_core s = Some r -> code_core (s ++ b) <> None.
Proof.
  unfold code_core, opt_bind.
  destruct (lit_at (lit "MMA") s) as [r1|] eqn:E1; [|discriminate].
  rewrite (lit_at_app _ _ b _ E1).
  destruct (plus is_digit r1) as [r2|] eqn:E2; [|discriminate].
  destruct (lit_at (lit ".") r2) as [r3|] eqn:E3; [|discriminate].
  rewrite (plus_app _ _ b _ E2) by (apply (lit_at_nonnil (lit ".") r2 r3); [cbv; discriminate|exact E3]).
  rewrite (lit_at_app _ _ b _ E3).
  destruct (plus is_digit r3) as [r4|] eqn:E4; [|discriminate].
  destruct (lit_at (lit ".") r4) as [r5|] eqn:E5; [|discriminate].
  rewrite (plus_app _ _ b _ E4) by (apply (lit_at_nonnil (lit ".") r4 r5); [cbv; discriminate|exact E5]).
  rewrite (lit_at_app _ _ b _ E5).
  intros H. eapply plus_app_some. exact H.
Qed.

Lemma code_match_at_app s b : code_match_at s <> None -> code_match_at (s ++ b) <> None.
Proof.
  unfold code_match_at. destruct (code_core s) as [r|] eqn:E; [|tauto]. intros _.
  pose proof (code_core_app s b r E) as H.
  destruct (code_core (s ++ b)); [discriminate|contradiction].
Qed.

Lemma search_code_app_r s b : search_code s <> None -> search_code (s ++ b) <> None.
Proof.
  induction s as [|c t IH]; intros H.
  - exfalso. apply H. reflexivity.
  - assert (Hm : code_match_at (c :: t) <> None \/ search_code t <> None).
    { cbn [search_code] in H. destruct (code_match_at (c :: t)); [left; discriminate|right].
      destruct (search_code t) as [[i r]|]; [discriminate|contradiction]. }
    change ((c :: t) ++ b) with (c :: (t ++ b)). cbn [search_code].
    destruct Hm as [Hm|Hm].
    + apply (code_match_at_app _ b) in Hm. change ((c :: t) ++ b) with (c :: (t ++ b)) in Hm.
      destruct (code_match_at (c :: t ++ b)); [discriminate|contradiction].
    + apply IH in Hm. destruct (code_match_at (c :: t ++ b)); [discriminate|].
      destruct (search_code (t ++ b)) as [[i r]|]; [discriminate|contradiction].
Qed.

Lemma search_code_app_l a s : search_code s <> None -> search_code (a ++ s) <> None.
Proof.
  induction a as [|c a IH]; intros H; [exact H|].
  cbn [app search_code]. destruct (code_match_at (c :: a ++ s)); [simpl; discriminate|].
  specialize (IH H). destruct (search_code (a ++ s)) as [[i r]|]; [simpl; discriminate|contradiction].
Qed.

Lemma split_on_nonnil c s : split_on c s <> [].
Proof.
  destruct s as [|d r]; simpl; [simpl; discriminate|].
  destruct (Ascii.eqb d c); [simpl; discriminate|]. destruct (split_on c r); discriminate.
Qed.

Lemma join_cons_head sep d x xs : join sep ((d :: x) :: xs) = d :: join sep (x :: xs).
Proof. destruct xs; reflexivity. Qed.

Lemma split_on_join c s : join [c] (split_on c s) = s.
Proof.
  induction s as [|d r IH]; [reflexivity|]. cbn [split_on].
  destruct (Ascii.eqb d c) eqn:E.
  - apply Ascii.eqb_eq in E. subst d.
    pose proof (split_on_nonnil c r) as Hn.
    destruct (split_on c r) as [|x xs]; [contradiction|]. simpl. rewrite <- IH. reflexivity.
  - pose proof (split_on_nonnil c r) as Hn.
    destruct (split_on c r) as [|x xs]; [contradiction|].
    rewrite join_cons_head, IH. reflexivity.
Qed.

Lemma join_infix sep parts l : In l parts -> exists a b, join sep parts = a ++ l ++ b.
Proof.
  induction parts as [|x xs IH]; intros H; [destruct H|].
  destruct H as [<-|H].
  - destruct xs as [|y ys]; [exists [], []; rewrite app_nil_r; reflexivity|].
    exists [], (sep ++ join sep (y :: ys)). reflexivity.
  - destruct (IH H) as [a [b Hab]]. destruct xs as [|y ys]; [destruct H|].
    exists (x ++ sep ++ a), b. change (join sep (x :: y :: ys)) with (x ++ sep ++ join sep (y :: ys)).
    rewrite Hab, !app_assoc. reflexivity.
Qed.

Lemma split_on_infix c s l : In l (split_on c s) -> exists a b, s = a ++ l ++ b.
Proof.
  intros H. rewrite <- (split_on_join c s). apply join_infix, H.
Qed.

Lemma scan_lines_none lines i ls :
  (forall l, In l ls -> search_code l = None) -> scan_lines lines i ls = None.
Proof.
  revert i. induction ls as [|l ls IH]; intros i H; [reflexivity|]. cbn [scan_lines].
  rewrite (H l (or_introl eq_refl)). apply IH. intros l' Hl'. apply H. right. exact Hl'.
Qed.

(** When no [MMA] code pattern occurs in the raw cell,
    [_parse_product_code_and_description] returns the raw text as the code
    and an empty description: the line-by-line fallback never finds a code
    either, since a line holding a match would make the whole text match. *)
Theorem parse_product_code_no_match raw :
  search_code raw = None -> parse_product_code_and_description raw = (raw, []).
Proof.
  intros H. unfold parse_product_code_and_description.
  destruct raw as [|c r]; [reflexivity|]. rewrite H.
  destruct (1 <? _); [|reflexivity].
  rewrite scan_lines_none; [reflexivity|].
  intros l Hl.
  assert (Hin : In l (split_on nl (c :: r))) by (destruct (split_on nl (c :: r)); [destruct Hl|right; exact Hl]).
  destruct (split_on_infix _ _ _ Hin) as [a [b Hab]].
  destruct (search_code l) eqn:E; [|reflexivity]. exfalso.
  assert (K : search_code (a ++ l ++ b) <> None).
  { apply search_code_app_l, search_code_app_r. rewrite E. discriminate. }
  rewrite <- Hab, H in K. apply K. reflexivity.
Qed.

Lemma search_code_skipn s i r : search_code s = Some (i, r) -> code_match_at (skipn i s) = Some r.
Proof.
  revert i. induction s as [|c t IH]; intros i H.
  - cbn [search_code] in H. destruct (code_match_at []) eqn:E; [|discriminate].
    injection H as <- <-. exact E.
  - cbn [search_code] in H. destruct (code_match_at (c :: t)) eqn:E.
    + injection H as <- <-. exact E.
    + destruct (search_code t) as [[j r']|] eqn:S; [|discriminate].
      injection H as <- <-. apply (IH j). reflexivity.
Qed.

Lemma code_match_at_split t r : code_match_at t = Some r -> exists m, t = lit "MMA" ++ m ++ r.
Proof.
  unfold code_match_at, code_core, opt_bind.
  destruct (lit_at (lit "MMA") t) as [r1|] eqn:E1; [|discriminate].
  destruct (plus is_digit r1) as [r2|] eqn:E2; [|discriminate].
  destruct (lit_at (lit ".") r2) as [r3|] eqn:E3; [|discriminate].
  destruct (plus is_digit r3) as [r4|] eqn:E4; [|discriminate].
  destruct (lit_at (lit ".") r4) as [r5|] eqn:E5; [|discriminate].
  destruct (plus is_digit r5) as [r6|] eqn:E6; [|discriminate].
  apply lit_at_split in E1, E3, E5.
  destruct (plus_split _ _ _ E2) as [d2 H2]. destruct (plus_split _ _ _ E4) as [d4 H4].
  destruct (plus_split _ _ _ E6) as [d6 H6].
  assert (Hg : exists g, r6 = g ++ match code_group r6 with Some r' => r' | None => r6 end).
  { unfold code_group, opt_bind.
    destruct (star_split is_space r6) as [a1 A1].
    destruct (lit_at (lit "/") (star is_space r6)) as [s1|] eqn:G1; [|exists []; reflexivity].
    destruct (star_split is_space s1) as [a2 A2].
    destruct (plus Assoc.is_word (star is_space s1)) as [s2|] eqn:G2; [|exists []; reflexivity].
    destruct (star_split is_space s2) as [a3 A3].
    destruct (lit_at (lit "/") (star is_space s2)) as [s3|] eqn:G3; [|exists []; reflexivity].
    destruct (star_split is_space s3) as [a4 A4].
    destruct (plus is_digit (star is_space s3)) as [s4|] eqn:G4; [|exists []; reflexivity].
    apply lit_at_split in G1, G3.
    destruct (plus_split _ _ _ G2) as [w W]. destruct (plus_split _ _ _ G4) as [d D].
    exists (a1 ++ lit "/" ++ a2 ++ w ++ a3 ++ lit "/" ++ a4 ++ d).
    rewrite A1, G1, A2, W, A3, G3, A4, D. rewrite !app_assoc. reflexivity. }
  destruct Hg as [g Hg]. intros H. injection H as <-.
  set (X := match code_group r6 with Some r' => r' | None => r6 end) in *.
  exists (d2 ++ lit "." ++ d4 ++ lit "." ++ d6 ++ g).
  rewrite E1, H2, E3, H4, E5, H6, Hg. rewrite !app_assoc. reflexivity.
Qed.

Lemma group_text_mma s i r : search_code s = Some (i, r) -> exists m, group_text s i r = lit "MMA" ++ m.
Proof.
  intros H. apply search_code_skipn in H. apply code_match_at_split in H. destruct H as [m Hm].
  exists m. unfold group_text. rewrite Hm.
  rewrite app_assoc, length_app, Nat.add_sub, firstn_app, Nat.sub_diag, firstn_O, app_nil_r.
  apply firstn_all.
Qed.

Lemma lstrip_app_head x y :
  (match y with c :: _ => is_space c = false | [] => False end) -> exists z, lstrip (x ++ y) = z ++ y.
Proof.
  intros Hy. induction x as [|c r IH].
  - exists []. apply lstrip_id'. destruct y; [contradiction|exact Hy].
  - cbn [app lstrip]. destruct (is_space c); [exact IH|]. exists (c :: r). reflexivity.
Qed.

Lemma strip_mma m : prefix (lit "MMA") (strip (lit "MMA" ++ m)) = true.
Proof.
  unfold strip. rewrite lstrip_id' by reflexivity. unfold rstrip.
  rewrite rev_app_distr.
  destruct (lstrip_app_head (rev m) (rev (lit "MMA")) ltac:(reflexivity)) as [z ->].
  rewrite rev_app_distr, rev_involutive. reflexivity.
Qed.

Lemma drop_dash_colon_head s :
  match drop_dash_colon s with
  | c :: _ => (Ascii.eqb c "-"%char || Ascii.eqb c ":"%char || is_space c) = false
  | [] => True
  end.
Proof.
  induction s as [|c r IH]; [exact I|]. cbn [drop_dash_colon].
  destruct (_ || _ || _) eqn:E; [exact IH|exact E].
Qed.

(** When the [MMA] code pattern occurs in the raw cell, the code returned
    by [_parse_product_code_and_description] starts with [MMA], and the
    description never starts with [-], [:] or whitespace. *)
Theorem parse_product_code_match raw start rest :
  search_code raw = Some (start, rest) ->
  prefix (lit "MMA") (fst (parse_product_code_and_description raw)) = true
  /\ match snd (parse_product_code_and_description raw) with
     | c :: _ => (Ascii.eqb c "-"%char || Ascii.eqb c ":"%char || is_space c) = false
     | [] => True
     end.
Proof.
  intros H. destruct (group_text_mma _ _ _ H) as [m Hm].
  unfold parse_product_code_and_description.
  destruct raw as [|c r]; [discriminate H|]. rewrite H. cbn [fst snd].
  rewrite Hm. split; [apply strip_mma|apply drop_dash_colon_head].
Qed.

Lemma parse_product_code_no_match_witness :
  search_code (lit "FILO 120
MMA12.34") = None
  /\ parse_product_code_and_description (lit "FILO 120
MMA12.34") = (lit "FILO 120
MMA12.34", []).
Proof.
  split; [vm_compute; reflexivity|].
  apply parse_product_code_no_match. vm_compute. reflexivity.
Defined.

Lemma parse_product_code_match_witness :
  search_code (lit "Art. MMA01.234.5 / PZ / 10 - Tessuto") = Some (5, lit " - Tessuto")
  /\ (prefix (lit "MMA") (fst (parse_product_code_and_description (lit "Art. MMA01.234.5 / PZ / 10 - Tessuto"))) = true
  /\ match snd (parse_product_code_and_description (lit "Art. MMA01.234.5 / PZ / 10 - Tessuto")) with
     | c :: _ => (Ascii.eqb c "-"%char || Ascii.eqb c ":"%char || is_space c) = false
     | [] => True
     end).
Proof.
  split; [vm_compute; reflexivity|].
  apply (parse_product_code_match _ 5 (lit " - Tessuto")). vm_compute. reflexivity.
Defined.

End CodeParseFacts.

(* ------------------------------------------------------------------ *)
(** ** Corrections of a failed page *)

Module CorrectionFacts.

Import Validator DecFacts ScoreFacts ExtraDefs RoundTripFacts.
Lemma prefix_app_same a x y : prefix (a ++ x) (a ++ y) = prefix x y.
Proof. induction a as [|c r IH]; [reflexivity|]. cbn. rewrite Ascii.eqb_refl. exact IH. Qed.

Lemma prefix_app_r x y z : prefix x y = true -> prefix x (y ++ z) = true.
Proof.
  revert y. induction x as [|c r IH]; intros [|d t] H; try reflexivity; try discriminate H.
  cbn in *. apply andb_true_iff in H. destruct H as [H1 H2]. rewrite H1. apply IH, H2.
Qed.

Lemma contains_prefix p s : prefix p s = true -> contains p s = true.
Proof. intros H. unfold contains. destruct s; cbn; rewrite H; reflexivity. Qed.

Lemma contains_app_l p a s : contains p s = true -> contains p (a ++ s) = true.
Proof.
  induction a as [|c r IH]; intros H; [exact H|]. unfold contains in *. cbn [app find].
  destruct (prefix p (c :: r ++ s)); [reflexivity|].
  specialize (IH H). destruct (find p (r ++ s)); [reflexivity|discriminate IH].
Qed.

Lemma render_mismatch_tag i j c t d :
  prefix (nat_str (S i)) (nat_str (S j)) = true ->
  contains (product_tag i) (render (ErrMismatch j c t d)) = true
  /\ contains (lit "calculation mismatch") (render (ErrMismatch j c t d)) = true.
Proof.
  intros H. cbn [render]. split.
  - apply contains_prefix. apply prefix_app_r. unfold product_tag.
    rewrite prefix_app_same. exact H.
  - apply contains_app_l. reflexivity.
Qed.

Lemma nat_str_prefix_refl i : prefix (nat_str i) (nat_str i) = true.
Proof. induction (nat_str i) as [|c r IH]; [reflexivity|]. cbn. rewrite Ascii.eqb_refl. exact IH. Qed.

Lemma relevant_true i j c t d errors :
  prefix (nat_str (S i)) (nat_str (S j)) = true -> In (ErrMismatch j c t d) errors ->
  existsb (fun e => contains (product_tag i) (render e)
                    && contains (lit "calculation mismatch") (render e)) errors = true.
Proof.
  intros H HI. apply existsb_exists. exists (ErrMismatch j c t d). split; [exact HI|].
  destruct (render_mismatch_tag i j c t d H) as [-> ->]. reflexivity.
Qed.

(** [_attempt_product_correction] matches the error strings by substring:
    a price mismatch reported for product [j + 1] triggers the correction
    of product [i + 1] whenever the decimal digits of [i + 1] are a prefix
    of those of [j + 1] (a mismatch of product 11 corrects product 1), just
    as a mismatch of product [i + 1] itself would. *)
Theorem attempt_product_correction_prefix p i j c t d errors :
  prefix (nat_str (S i)) (nat_str (S j)) = true -> In (ErrMismatch j c t d) errors ->
  attempt_product_correction p i errors
  = attempt_product_correction p i [ErrMismatch i c t d].
Proof.
  intros H HI. unfold attempt_product_correction. cbv zeta.
  rewrite (relevant_true i j c t d errors H HI).
  rewrite (relevant_true i i c t d [ErrMismatch i c t d] (nat_str_prefix_refl (S i)) (or_introl eq_refl)).
  reflexivity.
Qed.

Lemma attempt_product_correction_prefix_witness :
  prefix (nat_str 1) (nat_str 11) = true
  /\ attempt_product_correction
       (mk_product None None None None (Some (lit "2")) (Some (lit "3")) (Some (lit "7"))) 0
       [ErrMismatch 10 (DFin 6 0) (DFin 7 0) (DFin 1 0)]
     = attempt_product_correction
       (mk_product None None None None (Some (lit "2")) (Some (lit "3")) (Some (lit "7"))) 0
       [ErrMismatch 0 (DFin 6 0) (DFin 7 0) (DFin 1 0)].
Proof.
  split; [vm_compute; reflexivity|].
  apply (attempt_product_correction_prefix _ 0 10); [vm_compute; reflexivity|left; reflexivity].
Defined.

Lemma parse_some_truthy v d :
  parse_italian_decimal (arg v) = Ok (Some d) -> str_truthy v = true.
Proof. destruct v as [[|c s]|]; cbn; intros H; try discriminate H; reflexivity. Qed.

(** When a price mismatch is reported for a product whose quantity and unit
    price parse to non-zero finite decimals whose exact product needs at
    most 28 digits (and whose exponents are in the context's range), the
    correction sets [total_price] to [str(quantity * unit_price)], and
    [_validate_price_calculation] then accepts the corrected product. *)
Theorem attempt_product_correction_fixes p i errors c t d mq eq mu eu :
  In (ErrMismatch i c t d) errors ->
  parse_italian_decimal (arg (p_quantity p)) = Ok (Some (DFin mq eq)) ->
  parse_italian_decimal (arg (p_unit_price p)) = Ok (Some (DFin mu eu)) ->
  mq <> 0%Z -> mu <> 0%Z ->
  (Z.abs (mq * mu) < 10 ^ 28)%Z -> (Etiny + 3 <= eq + eu <= Etop)%Z ->
  p_total_price (attempt_product_correction p i errors)
    = Some (to_string (DFin (mq * mu) (eq + eu)))
  /\ validate_price_calculation (attempt_product_correction p i errors) i = None.
Proof.
  intros HI Pq Pu Nq Nu HM HE.
  assert (M1 : mul (DFin mq eq) (DFin mu eu) = Ok (DFin (mq * mu) (eq + eu))).
  { unfold mul. cbn [nan_case]. apply context_fix_exact; [exact HM|lia]. }
  assert (Ht : p_total_price (attempt_product_correction p i errors)
               = Some (to_string (DFin (mq * mu) (eq + eu)))).
  { unfold attempt_product_correction. cbv zeta.
    rewrite (relevant_true i i c t d errors (nat_str_prefix_refl (S i)) HI).
    rewrite (parse_some_truthy _ _ Pq), (parse_some_truthy _ _ Pu), Pq, Pu.
    cbn [andb p_total_price Dec.truthy].
    apply Z.eqb_neq in Nq, Nu. rewrite Nq, Nu. cbn [negb andb]. rewrite M1. reflexivity. }
  split; [exact Ht|].
  unfold validate_price_calculation.
  replace (p_quantity (attempt_product_correction p i errors)) with (p_quantity p)
    by reflexivity.
  replace (p_unit_price (attempt_product_correction p i errors)) with (p_unit_price p)
    by reflexivity.
  rewrite Ht, Pq, Pu. cbn [arg]. rewrite parse_italian_decimal_to_string.
  unfold opt_truthy, Dec.truthy.
  assert (NM : (mq * mu)%Z <> 0%Z) by nia.
  apply Z.eqb_neq in Nq, Nu, NM. rewrite Nq, Nu, NM. cbn [negb andb].
  rewrite M1. cbn [res_bind].
  assert (S0 : sub (DFin (mq * mu) (eq + eu)) (DFin (mq * mu) (eq + eu))
               = Ok (DFin 0 (eq + eu))).
  { unfold sub, add. cbn [neg nan_case]. rewrite Z.min_id, Z.sub_diag, Z.pow_0_r.
    replace (mq * mu * 1 + - (mq * mu) * 1)%Z with 0%Z by ring.
    apply context_fix_exact; [reflexivity|lia]. }
  rewrite S0. cbn [res_bind].
  assert (A0 : abs (DFin 0 (eq + eu)) = Ok (DFin 0 (eq + eu))).
  { unfold abs. apply context_fix_exact; [reflexivity|lia]. }
  rewrite A0. cbn [res_bind].
  assert (M2 : mul (DFin (mq * mu) (eq + eu)) (DFin 1 (-3))
               = Ok (DFin (mq * mu * 1) (eq + eu + -3))).
  { unfold mul. cbn [nan_case]. apply context_fix_exact; [lia|lia]. }
  rewrite M2. cbn [res_bind]. rewrite max_fin. cbn [res_bind].
  assert (Z0 : forall x, Qle_bool 0 x = true -> Qle_bool (fin_value 0 (eq + eu)) x = true).
  { intros x Hx. rewrite (Qle_bool_wd _ _ _ _ (fin_value_zero _) (Qeq_refl _)). exact Hx. }
  destruct (Qle_bool (fin_value (mq * mu * 1) (eq + eu + -3)) (fin_value 1 (-2))) eqn:L;
    rewrite gt_fin; cbn [res_bind].
  - rewrite Z0 by reflexivity. reflexivity.
  - rewrite Z0; [reflexivity|].
    apply Qle_bool_iff. apply Qle_trans with (fin_value 1 (-2)); [apply Qle_bool_iff; reflexivity|].
    apply Qlt_le_weak, Qnot_le_lt. intros C. apply Qle_bool_iff in C. congruence.
Qed.

Lemma attempt_product_correction_fixes_witness :
  p_total_price (attempt_product_correction (mk_product None None None None (Some (lit "2,5")) (Some (lit "4")) (Some (lit "9"))) 0 [ErrMismatch 0 (DFin 100 (-1)) (DFin 9 0) (DFin 1 0)])
    = Some (lit "10.0")
  /\ validate_price_calculation (attempt_product_correction (mk_product None None None None (Some (lit "2,5")) (Some (lit "4")) (Some (lit "9"))) 0 [ErrMismatch 0 (DFin 100 (-1)) (DFin 9 0) (DFin 1 0)]) 0 = None.
Proof.
  exact (attempt_product_correction_fixes (mk_product None None None None (Some (lit "2,5")) (Some (lit "4")) (Some (lit "9"))) 0 [ErrMismatch 0 (DFin 100 (-1)) (DFin 9 0) (DFin 1 0)]
    (DFin 100 (-1)) (DFin 9 0) (DFin 1 0) 25 (-1) 4 0 (or_introl eq_refl)
    ltac:(vm_compute; reflexivity) ltac:(vm_compute; reflexivity)
    ltac:(discriminate) ltac:(discriminate) ltac:(vm_compute; reflexivity)
    ltac:(unfold Etiny, Etop, Emin, Emax, prec; lia)).
Defined.

Lemma correct_all_without_total i ps errors :
  map without_total (correct_all i ps errors) = map without_total ps.
Proof.
  revert i. induction ps as [|p r IH]; intros i; [reflexivity|].
  cbn [correct_all map]. rewrite IH. reflexivity.
Qed.

(** [_generate_corrections] keeps the products, their number and order,
    and every field but [total_price]. *)
Theorem generate_corrections_only_totals ps errors :
  map without_total (corrected_products (generate_corrections ps errors))
  = map without_total ps.
Proof. apply correct_all_without_total. Qed.

End CorrectionFacts.

(* ------------------------------------------------------------------ *)
(** ** Compiled products and final message *)

Module CompileExtraFacts.

Import Validator Compiler CompilerFacts ExtraDefs CorrectionFacts.


(** With [validate_checksums] off, [compile_final_result] never reports
    success: the message is the checksum failure (with [success] true) or
    the compilation failure (with [success] false). *)
Theorem compile_final_result_checksums_off ci ff cfg bd pages vrs :
  validate_checksums cfg = false ->
  let r := compile_final_result ci ff cfg bd pages vrs in
  (msg r = MsgChecksumFailed /\ success r = true)
  \/ (msg r = MsgCompilationFailed /\ success r = false).
Proof.
  intros H r. unfold r, compile_final_result. cbv zeta.
  unfold perform_final_validations. rewrite H. cbn [negb].
  match goal with |- context [extract_footer_information ff ?r0 pages] =>
    destruct (extract_footer_information ff r0 pages) as [r2|e] eqn:F end.
  - destruct (footer_ok _ _ _ _ F) as [E1 [E2 _]]. cbn [parsing_errors validation_checksum_ok] in E1, E2.
    left. unfold generate_final_message.
    cbn [msg success parsing_errors validation_checksum_ok]. rewrite E1, E2.
    split; reflexivity.
  - right. split; reflexivity.
Qed.

Lemma compile_final_result_checksums_off_witness :
  validate_checksums CheckDefs.cfg_nocheck = false
  /\ (let r := compile_final_result CheckDefs.ci0 CheckDefs.ff0 CheckDefs.cfg_nocheck
                 (Some (CheckDefs.bill_total "10"))
                 [CheckDefs.page_of [CheckDefs.prod_total "10"] []] [] in
      (msg r = MsgChecksumFailed /\ success r = true)
      \/ (msg r = MsgCompilationFailed /\ success r = false)).
Proof.
  split; [reflexivity|]. apply compile_final_result_checksums_off. reflexivity.
Defined.

Lemma validated_products_without_total cfg pg :
  map without_total
    (if negb (is_valid (validate_page_data cfg pg)) then
       match corrected_data (validate_page_data cfg pg) with
       | Some c => corrected_products c
       | None => pg_products pg
       end
     else pg_products pg)
  = map without_total (pg_products pg).
Proof.
  unfold validate_page_data. destruct (enable_ocr_validation cfg); cbn [negb is_valid]; [|reflexivity].
  cbv zeta. cbn [is_valid corrected_data].
  match goal with |- context [if ?b then None else Some _] => destruct b end;
    [reflexivity|]. cbn [negb corrected_products generate_corrections].
  apply correct_all_without_total.
Qed.

Lemma compile_products_from_validated cfg pre pages :
  map without_total
    (compile_products_from (List.length pre) pages (pre ++ map (validate_page_data cfg) pages))
  = map without_total (flat_map pg_products pages).
Proof.
  revert pre. induction pages as [|pg r IH]; intros pre; [reflexivity|].
  cbn [compile_products_from flat_map map].
  rewrite nth_error_app2 by lia. rewrite Nat.sub_diag. cbn [nth_error].
  rewrite !map_app, validated_products_without_total. f_equal.
  replace (pre ++ validate_page_data cfg pg :: map (validate_page_data cfg) r)
    with ((pre ++ [validate_page_data cfg pg]) ++ map (validate_page_data cfg) r)
    by (rewrite <- app_assoc; reflexivity).
  replace (S (List.length pre)) with (List.length (pre ++ [validate_page_data cfg pg]))
    by (rewrite length_app; cbn; lia).
  apply IH.
Qed.

(** When the validation results are those of [validate_page_data] on the
    pages, in order (as [InvoiceProcessor] computes them), the compiled
    products are the pages' products, in order, apart from [total_price]. *)
Theorem compile_products_validated cfg pages :
  map without_total (compile_products pages (map (validate_page_data cfg) pages))
  = map without_total (flat_map pg_products pages).
Proof. apply (compile_products_from_validated cfg []). Qed.

End CompileExtraFacts.

(* ------------------------------------------------------------------ *)
(** ** Page validation edge cases *)

Module ValidatorExtraFacts.

Import Validator DecFacts ScoreFacts ExtraDefs.
(** With OCR validation on, a page without products gets the confidence
    score [0.0], and it is valid exactly when its raw text is not empty and
    the confidence threshold is at most [0]. *)
Theorem validate_page_data_no_products cfg pg :
  enable_ocr_validation cfg = true -> pg_products pg = [] ->
  confidence_score (validate_page_data cfg pg) = 0%float
  /\ (is_valid (validate_page_data cfg pg) = true
      <-> raw_text pg <> [] /\ (ocr_confidence_threshold cfg <=? 0)%float = true).
Proof.
  intros He Hp. unfold validate_page_data. rewrite He, Hp. cbv zeta. cbn [negb is_valid confidence_score].
  unfold cross_reference_with_text.
  destruct (raw_text pg) as [|c t].
  - split; [vm_compute; reflexivity|].
    replace (calculate_confidence_score (validate_products_consistency [])
               ([ErrNoRawText], 0%float)) with 0%float by (vm_compute; reflexivity).
    cbn. rewrite andb_false_r. split; [discriminate|]. intros [H _]. contradiction.
  - split; [vm_compute; reflexivity|].
    replace (calculate_confidence_score (validate_products_consistency [])
               (cross_errors (c :: t) 0 [], ratio (count_found (c :: t) []) 0))
      with 0%float by (vm_compute; reflexivity).
    cbn. rewrite andb_true_r. split; [intros H; split; [discriminate|exact H]|].
    intros [_ H]. exact H.
Qed.

Lemma Qle_bool_fin_value m e : Qle_bool 0 (fin_value m e) = (0 <=? m)%Z.
Proof.
  pose proof (pow10_pos e) as P. unfold fin_value.
  destruct (Z.leb_spec 0 m) as [H|H].
  - apply Qle_bool_iff. apply Qmult_le_0_compat; [|apply Qlt_le_weak, P].
    change 0%Q with (inject_Z 0). rewrite <- Zle_Qle. exact H.
  - apply not_true_is_false. intros C. apply Qle_bool_iff in C.
    assert (N : (inject_Z m < 0)%Q) by (change 0%Q with (inject_Z 0); rewrite <- Zlt_Qlt; exact H).
    apply (Qlt_irrefl 0). apply Qle_lt_trans with (inject_Z m * pow10 e)%Q; [exact C|].
    setoid_replace 0%Q with (0 * pow10 e)%Q by ring.
    apply Qmult_lt_r; assumption.
Qed.

Lemma ge_zero_dec d :
  match ge d (DFin 0 0) with Ok b => b | Err _ => false end
  = match d with DFin m _ => (0 <=? m)%Z | DInf s => negb s | DNaN _ => false end.
Proof.
  destruct d as [m e|s|s]; unfold ge, cmp; cbn [res_bind].
  - change (fin_value 0 0) with 0%Q. rewrite ge_zero. apply Qle_bool_fin_value.
  - destruct s; reflexivity.
  - reflexivity.
Qed.

(** [_validate_numeric_field] accepts exactly the non-empty strings that
    [parse_italian_decimal] turns into a finite non-negative [Decimal] or
    into positive infinity. *)
Theorem validate_numeric_field_spec v :
  validate_numeric_field v = true
  <-> str_truthy v = true /\
      exists d, parse_italian_decimal (arg v) = Ok (Some d)
                /\ (d = DInf false \/ exists m e, d = DFin m e /\ (0 <= m)%Z).
Proof.
  unfold validate_numeric_field.
  destruct (str_truthy v); cbn [negb]; [|split; [discriminate|intros [H _]; discriminate H]].
  destruct (parse_italian_decimal (arg v)) as [[d|]|err].
  - rewrite ge_zero_dec. split.
    + intros H. split; [reflexivity|]. exists d. split; [reflexivity|].
      destruct d as [m e|[|]|s]; try discriminate H.
      * right. exists m, e. split; [reflexivity|]. apply Z.leb_le, H.
      * left. reflexivity.
    + intros [_ [d' [E H]]]. injection E as <-.
      destruct H as [->|[m [e [-> H]]]]; [reflexivity|]. apply Z.leb_le, H.
  - split; [discriminate|]. intros [_ [d [E _]]]. discriminate E.
  - split; [discriminate|]. intros [_ [d [E _]]]. discriminate E.
Qed.

Lemma validate_page_data_no_products_witness :
  enable_ocr_validation CheckDefs.cfg_on = true
  /\ pg_products (mk_page 0 (lit "DDT 12") [] None [] []) = []
  /\ (confidence_score (validate_page_data CheckDefs.cfg_on (mk_page 0 (lit "DDT 12") [] None [] [])) = 0%float
      /\ (is_valid (validate_page_data CheckDefs.cfg_on (mk_page 0 (lit "DDT 12") [] None [] [])) = true
          <-> lit "DDT 12" <> [] /\ (ocr_confidence_threshold CheckDefs.cfg_on <=? 0)%float = true)).
Proof.
  split; [reflexivity|]. split; [reflexivity|].
  apply validate_page_data_no_products; reflexivity.
Defined.

Lemma cross_one_code raw_text p :
  match cross_one raw_text p with
  | Some _ => has_nonempty_code p = true /\ exists code, p_product_code p = Some code
  | None => has_nonempty_code p = false
  end.
Proof.
  unfold cross_one, has_nonempty_code. destruct (p_product_code p) as [[|c s]|]; try reflexivity.
  destruct (contains _ _); (split; [reflexivity|eexists; reflexivity]).
Qed.

Lemma cross_errors_count raw_text i ps :
  (List.length (cross_errors raw_text i ps) + count_found raw_text ps
   = List.length (filter has_nonempty_code ps))%nat.
Proof.
  unfold count_found. revert i. induction ps as [|p r IH]; intros i; [reflexivity|].
  cbn [cross_errors filter]. rewrite length_app. specialize (IH (S i)).
  pose proof (cross_one_code raw_text p) as K.
  destruct (cross_one raw_text p) as [[|]|].
  - destruct K as [-> _]. cbn [List.length]. lia.
  - destruct K as [-> [code ->]]. cbn [List.length]. lia.
  - rewrite K. cbn [List.length]. destruct (p_product_code p); exact IH.
Qed.

Lemma cross_errors_shape raw_text i ps e :
  In e (cross_errors raw_text i ps) -> exists j c, e = ErrCodeNotFound j c /\ (i <= j)%nat.
Proof.
  revert i. induction ps as [|p r IH]; intros i H; [contradiction|].
  cbn [cross_errors] in H. apply in_app_or in H. destruct H as [H|H].
  - destruct (cross_one raw_text p) as [[|]|], (p_product_code p); try contradiction.
    destruct H as [<-|[]]. exists i, l. split; [reflexivity|lia].
  - destruct (IH (S i) H) as [j [c [-> L]]]. exists j, c. split; [reflexivity|lia].
Qed.

Lemma cross_errors_at raw_text i ps k p :
  nth_error ps k = Some p ->
  filter (code_err_at (i + k)) (cross_errors raw_text i ps)
  = match cross_one raw_text p, p_product_code p with
    | Some false, Some code => [ErrCodeNotFound (i + k) code]
    | _, _ => []
    end.
Proof.
  revert i k. induction ps as [|q r IH]; intros i k H; [destruct k; discriminate H|].
  cbn [cross_errors]. rewrite filter_app.
  assert (Rest : forall j, (j < S i)%nat ->
                 filter (code_err_at j) (cross_errors raw_text (S i) r) = []).
  { intros j Lj. apply FieldsFacts.filter_nil_forall, Forall_forall. intros e He.
    destruct (cross_errors_shape _ _ _ _ He) as [j' [c [-> L]]].
    cbn [code_err_at]. apply Nat.eqb_neq. lia. }
  destruct k as [|k].
  - cbn [nth_error] in H. injection H as ->. rewrite Nat.add_0_r.
    rewrite Rest by lia. rewrite app_nil_r.
    destruct (cross_one raw_text p) as [[|]|], (p_product_code p); try reflexivity.
    cbn [filter code_err_at]. rewrite Nat.eqb_refl. reflexivity.
  - cbn [nth_error] in H. replace (i + S k)%nat with (S i + k)%nat by lia.
    rewrite (IH (S i) k H).
    destruct (cross_one raw_text q) as [[|]|], (p_product_code q); try reflexivity.
    cbn [filter code_err_at]. replace (Nat.eqb i (S i + k)) with false
      by (symmetry; apply Nat.eqb_neq; lia). reflexivity.
Qed.

(** On a non-empty raw text, [_cross_reference_with_text] handles each
    product with a non-empty code once: either it is found (its code or a
    variant is in the text, [Some true], the products [count_found]
    counts) and no error names its index, or it is not found and exactly
    one error names its index, "Code not found" with its code.  A product
    without a code ([None]) is neither counted nor named by an error.
    Every error is such a "not found" entry, and in total the errors and
    the found products add up to the products with a code. *)
Theorem cross_reference_with_text_counts ps raw_text :
  raw_text <> [] ->
  let errs := fst (cross_reference_with_text ps raw_text) in
  (forall k p, nth_error ps k = Some p ->
     match cross_one raw_text p with
     | Some true => has_nonempty_code p = true /\ filter (code_err_at k) errs = []
     | Some false => has_nonempty_code p = true /\
         exists code, p_product_code p = Some code
                      /\ filter (code_err_at k) errs = [ErrCodeNotFound k code]
     | None => has_nonempty_code p = false /\ filter (code_err_at k) errs = []
     end)
  /\ (forall e, In e errs -> exists k c, e = ErrCodeNotFound k c)
  /\ (List.length errs + count_found raw_text ps
      = List.length (filter has_nonempty_code ps))%nat.
Proof.
  intros H errs. unfold errs, cross_reference_with_text.
  destruct raw_text as [|c t]; [contradiction|]. cbn [fst].
  split; [|split].
  - intros k p Hk. pose proof (cross_errors_at (c :: t) 0 ps k p Hk) as E.
    cbn [Nat.add] in E. rewrite E.
    pose proof (cross_one_code (c :: t) p) as K.
    destruct (cross_one (c :: t) p) as [[|]|].
    + destruct K as [K _]. split; [exact K|].
      destruct (p_product_code p); reflexivity.
    + destruct K as [K [code Hc]]. split; [exact K|]. exists code.
      rewrite Hc. split; reflexivity.
    + split; [exact K|]. destruct (p_product_code p); reflexivity.
  - intros e He. destruct (cross_errors_shape _ _ _ _ He) as [j [c' [-> _]]].
    exists j, c'. reflexivity.
  - apply cross_errors_count.
Qed.

Lemma cross_reference_with_text_counts_witness :
  lit "MMA1 X" <> []
  /\ filter (code_err_at 1)
       (fst (cross_reference_with_text
          [CheckDefs.prod_total "1"; ScoreDefs.pr "MMA9" "1" "1" "1";
           mk_product None None None None None None None] (lit "MMA1 X")))
     = [ErrCodeNotFound 1 (lit "MMA9")].
Proof.
  split; [discriminate|].
  destruct (cross_reference_with_text_counts
              [CheckDefs.prod_total "1"; ScoreDefs.pr "MMA9" "1" "1" "1";
               mk_product None None None None None None None] (lit "MMA1 X")
              ltac:(discriminate)) as [P _].
  assert (C : cross_one (lit "MMA1 X") (ScoreDefs.pr "MMA9" "1" "1" "1") = Some false)
    by (vm_compute; reflexivity).
  pose proof (P 1%nat (ScoreDefs.pr "MMA9" "1" "1" "1") eq_refl) as Q.
  rewrite C in Q. destruct Q as [_ [code [Hc Hf]]].
  vm_compute in Hc. injection Hc as <-. exact Hf.
Defined.

End ValidatorExtraFacts.

(* ------------------------------------------------------------------ *)
(** ** Order of the merged rows *)

Module RowMergeExtraFacts.

Import RowMerge ExtraDefs.


Lemma merge_step_key rows i :
  map row_key (merge_step rows i) = []
  \/ exists x, nth_error rows i = Some x /\ map row_key (merge_step rows i) = [row_key x].
Proof.
  unfold merge_step. destruct (nth_error rows i) as [x|] eqn:E; [|left; reflexivity].
  destruct (has_product_code x).
  - right. exists x. split; [reflexivity|].
    destruct i as [|j]; [reflexivity|]. destruct (nth_error rows j); reflexivity.
  - destruct (nth_error rows (S i)) as [y|].
    + destruct (has_product_code y); [left; reflexivity|right; exists x; split; reflexivity].
    + destruct (has_numeric_value x); [right; exists x; split; reflexivity|left; reflexivity].
Qed.

Lemma subseq_flat_map (step : nat -> list raw_row) (l : list raw_row) k :
  (forall i, map row_key (step (k + i)%nat) = []
             \/ exists x, nth_error l i = Some x /\ map row_key (step (k + i)%nat) = [row_key x]) ->
  subseq (map row_key (flat_map step (seq k (List.length l)))) (map row_key l).
Proof.
  revert k. induction l as [|y r IH]; intros k H; [constructor|].
  cbn [List.length seq flat_map map]. rewrite map_app.
  assert (IH' : subseq (map row_key (flat_map step (seq (S k) (List.length r)))) (map row_key r)).
  { apply IH. intros i. replace (S k + i)%nat with (k + S i)%nat by lia. apply (H (S i)). }
  destruct (H 0%nat) as [E|[x [E1 E2]]]; rewrite Nat.add_0_r in *.
  - rewrite E. cbn [app]. apply subseq_skip, IH'.
  - rewrite E2. injection E1 as ->. cbn [app]. apply subseq_take, IH'.
Qed.

(** [_merge_paired_rows] keeps the input order and never emits a row
    twice: the row indices, raw cells, product codes and descriptions of
    its output are those of a subsequence of its input. *)
Theorem merge_paired_rows_subseq rows :
  subseq (map row_key (merge_paired_rows rows)) (map row_key rows).
Proof.
  unfold merge_paired_rows. apply (subseq_flat_map _ rows 0%nat). intros i. apply merge_step_key.
Qed.

End RowMergeExtraFacts.
